(** * YieldFarmingStrategy: a shallow embedding of the staking ledger

    The contract [YieldFarmingStrategy] (Solidity ^0.8.19) keeps a list of
    reward pools, one position per (pool, account), and a few policy
    values.  Every external function is embedded as a function in a small
    state-and-revert monad: a call either returns a new state or reverts,
    and a reverted call leaves the state as it was.

    Numbers are [N] (an unsigned integer never goes below zero); every
    [+], [-], [*] and [/] of the source is the checked operation of
    Solidity 0.8: a result outside [0, 2^256) or a zero divisor makes the
    call revert with a panic. *)

From stdpp Require Import base numbers option list gmap strings fin_maps.

Local Open Scope string_scope.
Local Open Scope N_scope.

(** ** Results and reverts *)

Inductive error :=
| RequireFailed (msg : string) (* a failed [require], with its message *)
| PanicArith                  (* Panic(0x11): overflow or underflow *)
| PanicDivZero                (* Panic(0x12): division by zero *)
| PanicIndex.                 (* Panic(0x32): array index out of bounds *)

Inductive result (A : Type) :=
| Ok (a : A)
| Revert (e : error).
Arguments Ok {A} a.
Arguments Revert {A} e.

Definition is_ok {A} (r : result A) : bool :=
  match r with Ok _ => true | Revert _ => false end.

(** ** Checked 256-bit arithmetic *)

Definition MAX_UINT256 : N := 2 ^ 256 - 1.

Definition checked_add (a b : N) : result N :=
  if a + b <=? MAX_UINT256 then Ok (a + b) else Revert PanicArith.

Definition checked_sub (a b : N) : result N :=
  if b <=? a then Ok (a - b) else Revert PanicArith.

Definition checked_mul (a b : N) : result N :=
  if a * b <=? MAX_UINT256 then Ok (a * b) else Revert PanicArith.

Definition checked_div (a b : N) : result N :=
  if b =? 0 then Revert PanicDivZero else Ok (a / b).

(** ** Data *)

Definition address := N.

Record Position := mkPosition {
  amount : N;
  userLastRewardBlock : N;   (* [Position.lastRewardBlock] in the source *)
  rewardDebt : N;
  lockEndTime : N;
  isActive : bool
}.

Record PoolInfo := mkPoolInfo {
  stakingToken : address;
  rewardToken : address;
  allocPoint : N;
  lastRewardBlock : N;
  accRewardPerShare : N;
  totalStaked : N;
  minLockPeriod : N;
  isEmergencyWithdrawEnabled : bool
}.

Inductive Event :=
| Deposit (user : address) (pid amt : N)
| Withdraw (user : address) (pid amt : N)
| EmergencyWithdraw (user : address) (pid amt : N)
| RewardClaimed (user : address) (pid amt : N)
| PoolAdded (pid : N) (staking reward : address)
| PositionRebalanced (user : address) (pid newAmount : N)
| Paused (account : address)
| Unpaused (account : address)
| OwnershipTransferred (previousOwner newOwner : address).

(** The storage of the contract, together with the part of the world the
    contract reads and writes: the balances of the ERC20 tokens it calls
    ([balances], keyed by token and holder) and the log of emitted events.
    A Solidity mapping has a value at every key; a key absent from the
    [gmap] stands for the zero value. *)
Record State := mkState {
  poolInfo : list PoolInfo;
  userPositions : gmap (N * address) Position;
  authorizedRebalancers : gmap address bool;
  rewardPerBlock : N;
  totalAllocPoint : N;
  emergencyWithdrawFee : N;
  owner : address;
  paused : bool;
  balances : gmap (address * address) N;
  events : list Event
}.

(** What a call sees of its transaction and block; [this] is the address
    of the contract itself. *)
Record Env := mkEnv {
  msg_sender : address;
  block_number : N;
  block_timestamp : N;
  this : address
}.

Definition PRECISION : N := 10 ^ 12.
Definition MAX_FEE : N := 1000.

Definition zeroPosition : Position := mkPosition 0 0 0 0 false.

(** ** Field updates *)

Definition set_lastRewardBlock (v : N) (p : PoolInfo) : PoolInfo :=
  mkPoolInfo (stakingToken p) (rewardToken p) (allocPoint p) v
             (accRewardPerShare p) (totalStaked p) (minLockPeriod p)
             (isEmergencyWithdrawEnabled p).

Definition set_accRewardPerShare (v : N) (p : PoolInfo) : PoolInfo :=
  mkPoolInfo (stakingToken p) (rewardToken p) (allocPoint p) (lastRewardBlock p)
             v (totalStaked p) (minLockPeriod p)
             (isEmergencyWithdrawEnabled p).

Definition set_totalStaked (v : N) (p : PoolInfo) : PoolInfo :=
  mkPoolInfo (stakingToken p) (rewardToken p) (allocPoint p) (lastRewardBlock p)
             (accRewardPerShare p) v (minLockPeriod p)
             (isEmergencyWithdrawEnabled p).

Definition set_isEmergencyWithdrawEnabled (v : bool) (p : PoolInfo) : PoolInfo :=
  mkPoolInfo (stakingToken p) (rewardToken p) (allocPoint p) (lastRewardBlock p)
             (accRewardPerShare p) (totalStaked p) (minLockPeriod p) v.

Definition set_poolInfo (v : list PoolInfo) (s : State) : State :=
  mkState v (userPositions s) (authorizedRebalancers s) (rewardPerBlock s)
          (totalAllocPoint s) (emergencyWithdrawFee s) (owner s) (paused s)
          (balances s) (events s).

Definition set_userPositions (v : gmap (N * address) Position) (s : State) : State :=
  mkState (poolInfo s) v (authorizedRebalancers s) (rewardPerBlock s)
          (totalAllocPoint s) (emergencyWithdrawFee s) (owner s) (paused s)
          (balances s) (events s).

Definition set_authorizedRebalancers (v : gmap address bool) (s : State) : State :=
  mkState (poolInfo s) (userPositions s) v (rewardPerBlock s)
          (totalAllocPoint s) (emergencyWithdrawFee s) (owner s) (paused s)
          (balances s) (events s).

Definition set_rewardPerBlock (v : N) (s : State) : State :=
  mkState (poolInfo s) (userPositions s) (authorizedRebalancers s) v
          (totalAllocPoint s) (emergencyWithdrawFee s) (owner s) (paused s)
          (balances s) (events s).

Definition set_totalAllocPoint (v : N) (s : State) : State :=
  mkState (poolInfo s) (userPositions s) (authorizedRebalancers s) (rewardPerBlock s)
          v (emergencyWithdrawFee s) (owner s) (paused s)
          (balances s) (events s).

Definition set_emergencyWithdrawFee (v : N) (s : State) : State :=
  mkState (poolInfo s) (userPositions s) (authorizedRebalancers s) (rewardPerBlock s)
          (totalAllocPoint s) v (owner s) (paused s)
          (balances s) (events s).

Definition set_owner (v : address) (s : State) : State :=
  mkState (poolInfo s) (userPositions s) (authorizedRebalancers s) (rewardPerBlock s)
          (totalAllocPoint s) (emergencyWithdrawFee s) v (paused s)
          (balances s) (events s).

Definition set_paused (v : bool) (s : State) : State :=
  mkState (poolInfo s) (userPositions s) (authorizedRebalancers s) (rewardPerBlock s)
          (totalAllocPoint s) (emergencyWithdrawFee s) (owner s) v
          (balances s) (events s).

Definition set_balances (v : gmap (address * address) N) (s : State) : State :=
  mkState (poolInfo s) (userPositions s) (authorizedRebalancers s) (rewardPerBlock s)
          (totalAllocPoint s) (emergencyWithdrawFee s) (owner s) (paused s)
          v (events s).

Definition set_events (v : list Event) (s : State) : State :=
  mkState (poolInfo s) (userPositions s) (authorizedRebalancers s) (rewardPerBlock s)
          (totalAllocPoint s) (emergencyWithdrawFee s) (owner s) (paused s)
          (balances s) v.

(** ** The monad of a call: state passing with reverts *)

Definition M (A : Type) : Type := State -> result (A * State).

Definition ret {A} (a : A) : M A := fun s => Ok (a, s).

Definition bind {A B} (m : M A) (k : A -> M B) : M B :=
  fun s => match m s with
           | Ok (a, s') => k a s'
           | Revert e => Revert e
           end.

Definition revert {A} (e : error) : M A := fun _ => Revert e.

Definition lift {A} (r : result A) : M A :=
  fun s => match r with Ok a => Ok (a, s) | Revert e => Revert e end.

Definition gets {A} (f : State -> A) : M A := fun s => Ok (f s, s).

Definition modify (f : State -> State) : M unit := fun s => Ok (tt, f s).

Definition require (b : bool) (msg : string) : M unit :=
  if b then ret tt else revert (RequireFailed msg).

Definition emit (e : Event) : M unit :=
  modify (fun s => set_events (events s ++ [e]) s).

Notation "x <- m ;; k" := (bind m (fun x => k))
  (at level 100, m at next level, right associativity).
Notation "m ;; k" := (bind m (fun _ => k))
  (at level 100, right associativity).

(** ** Storage access *)

Definition poolLength (s : State) : N := N.of_nat (length (poolInfo s)).

Definition getPosition (s : State) (pid : N) (user : address) : Position :=
  default zeroPosition (userPositions s !! (pid, user)).

Definition isAuthorized (s : State) (a : address) : bool :=
  default false (authorizedRebalancers s !! a).

Definition balanceOf (s : State) (token holder : address) : N :=
  default 0 (balances s !! (token, holder)).

(** [poolInfo[_pid]]: an index out of range is a panic. *)
Definition readPool (pid : N) : M PoolInfo :=
  fun s => match poolInfo s !! N.to_nat pid with
           | Some p => Ok (p, s)
           | None => Revert PanicIndex
           end.

Definition writePool (pid : N) (p : PoolInfo) : M unit :=
  modify (fun s => set_poolInfo (<[N.to_nat pid := p]> (poolInfo s)) s).

Definition readPosition (pid : N) (user : address) : M Position :=
  gets (fun s => getPosition s pid user).

Definition writePosition (pid : N) (user : address) (p : Position) : M unit :=
  modify (fun s => set_userPositions (<[(pid, user) := p]> (userPositions s)) s).

(** ** The token port

    The tokens are contracts of their own.  They are modelled as plain
    ERC20 ledgers: a transfer moves the amount when the sender's balance
    covers it and reverts otherwise (which is what [SafeERC20] turns a
    failed transfer into).  Allowances are taken as granted. *)

Definition moveTokens (token from to amt : N)
    (bal : gmap (address * address) N) : gmap (address * address) N :=
  let bal1 := <[(token, from) := default 0 (bal !! (token, from)) - amt]> bal in
  <[(token, to) := default 0 (bal1 !! (token, to)) + amt]> bal1.

Definition tokenTransfer (token from to amt : N) : M unit :=
  fun s =>
    if amt <=? balanceOf s token from then
      Ok (tt, set_balances (moveTokens token from to amt (balances s)) s)
    else Revert (RequireFailed "ERC20: transfer amount exceeds balance").

Definition safeTransfer (env : Env) (token to amt : N) : M unit :=
  tokenTransfer token (this env) to amt.

Definition safeTransferFrom (token from to amt : N) : M unit :=
  tokenTransfer token from to amt.

(** ** Modifiers *)

Definition onlyOwner (env : Env) : M unit :=
  o <- gets owner ;;
  require (o =? msg_sender env) "Ownable: caller is not the owner".

Definition whenNotPaused : M unit :=
  p <- gets paused ;;
  require (negb p) "Pausable: paused".

Definition whenPaused : M unit :=
  p <- gets paused ;;
  require p "Pausable: not paused".

(** ** Accrual *)

Definition updatePool (env : Env) (_pid : N) : M unit :=
  pool <- readPool _pid ;;
  if block_number env <=? lastRewardBlock pool then ret tt
  else if totalStaked pool =? 0 then
    writePool _pid (set_lastRewardBlock (block_number env) pool)
  else
    multiplier <- lift (checked_sub (block_number env) (lastRewardBlock pool)) ;;
    rpb <- gets rewardPerBlock ;;
    tap <- gets totalAllocPoint ;;
    m1 <- lift (checked_mul multiplier rpb) ;;
    m2 <- lift (checked_mul m1 (allocPoint pool)) ;;
    reward <- lift (checked_div m2 tap) ;;
    r1 <- lift (checked_mul reward PRECISION) ;;
    inc <- lift (checked_div r1 (totalStaked pool)) ;;
    acc <- lift (checked_add (accRewardPerShare pool) inc) ;;
    writePool _pid (set_lastRewardBlock (block_number env)
                      (set_accRewardPerShare acc pool)).

Fixpoint massUpdatePools_loop (env : Env) (n : nat) (pid : N) : M unit :=
  match n with
  | O => ret tt
  | S n' => updatePool env pid ;; massUpdatePools_loop env n' (pid + 1)
  end.

Definition massUpdatePools (env : Env) : M unit :=
  len <- gets poolLength ;;
  massUpdatePools_loop env (N.to_nat len) 0.

(** ** Reward payout *)

Definition safeRewardTransfer (env : Env) (_rewardToken _to _amount : N) : M unit :=
  balance <- gets (fun s => balanceOf s _rewardToken (this env)) ;;
  if balance <? _amount then safeTransfer env _rewardToken _to balance
  else safeTransfer env _rewardToken _to _amount.

(** [(position.amount * pool.accRewardPerShare / PRECISION) - position.rewardDebt] *)
Definition pendingOf (position : Position) (pool : PoolInfo) : result N :=
  match checked_mul (amount position) (accRewardPerShare pool) with
  | Ok p => checked_sub (p / PRECISION) (rewardDebt position)
  | Revert e => Revert e
  end.

(** The settlement shared by [deposit] and [withdraw]: pay and log a
    pending reward that is not zero. *)
Definition settle (env : Env) (_pid : N) (pool : PoolInfo) (pending : N) : M unit :=
  if 0 <? pending then
    safeRewardTransfer env (rewardToken pool) (msg_sender env) pending ;;
    emit (RewardClaimed (msg_sender env) _pid pending)
  else ret tt.

(** ** The position ledger

    [nonReentrant] has nothing to guard in this model, where a token
    transfer makes no call back into the contract; [whenNotPaused] is the
    check [deposit] starts with.  [pool] and [position] are storage
    references in the source: they are read after [updatePool], and written
    back where the source assigns their fields.  Divisions by the constants
    [PRECISION] and [10000] cannot fail and are written with [/]. *)

Definition deposit (env : Env) (_pid _amount : N) : M unit :=
  whenNotPaused ;;
  len <- gets poolLength ;;
  require (_pid <? len) "Invalid pool ID" ;;
  require (0 <? _amount) "Amount must be greater than 0" ;;
  updatePool env _pid ;;
  pool <- readPool _pid ;;
  position <- readPosition _pid (msg_sender env) ;;
  (if 0 <? amount position then
     pending <- lift (pendingOf position pool) ;;
     settle env _pid pool pending
   else ret tt) ;;
  safeTransferFrom (stakingToken pool) (msg_sender env) (this env) _amount ;;
  amount' <- lift (checked_add (amount position) _amount) ;;
  prod <- lift (checked_mul amount' (accRewardPerShare pool)) ;;
  lockEnd <- lift (checked_add (block_timestamp env) (minLockPeriod pool)) ;;
  writePosition _pid (msg_sender env)
    (mkPosition amount' (block_number env) (prod / PRECISION) lockEnd true) ;;
  staked' <- lift (checked_add (totalStaked pool) _amount) ;;
  writePool _pid (set_totalStaked staked' pool) ;;
  emit (Deposit (msg_sender env) _pid _amount).

Definition withdraw (env : Env) (_pid _amount : N) : M unit :=
  len <- gets poolLength ;;
  require (_pid <? len) "Invalid pool ID" ;;
  position0 <- readPosition _pid (msg_sender env) ;;
  require (_amount <=? amount position0) "Insufficient balance" ;;
  require (lockEndTime position0 <=? block_timestamp env) "Position still locked" ;;
  updatePool env _pid ;;
  pool <- readPool _pid ;;
  position <- readPosition _pid (msg_sender env) ;;
  pending <- lift (pendingOf position pool) ;;
  settle env _pid pool pending ;;
  amount' <- lift (checked_sub (amount position) _amount) ;;
  prod <- lift (checked_mul amount' (accRewardPerShare pool)) ;;
  writePosition _pid (msg_sender env)
    (mkPosition amount' (userLastRewardBlock position) (prod / PRECISION)
                (lockEndTime position)
                (if amount' =? 0 then false else isActive position)) ;;
  staked' <- lift (checked_sub (totalStaked pool) _amount) ;;
  writePool _pid (set_totalStaked staked' pool) ;;
  safeTransfer env (stakingToken pool) (msg_sender env) _amount ;;
  emit (Withdraw (msg_sender env) _pid _amount).

Definition emergencyWithdraw (env : Env) (_pid : N) : M unit :=
  len <- gets poolLength ;;
  require (_pid <? len) "Invalid pool ID" ;;
  pool <- readPool _pid ;;
  position <- readPosition _pid (msg_sender env) ;;
  require (0 <? amount position) "No position to withdraw" ;;
  require (isEmergencyWithdrawEnabled pool) "Emergency withdraw not enabled" ;;
  fee_bps <- gets emergencyWithdrawFee ;;
  prod <- lift (checked_mul (amount position) fee_bps) ;;
  amountAfterFee <- lift (checked_sub (amount position) (prod / 10000)) ;;
  writePosition _pid (msg_sender env)
    (mkPosition 0 (userLastRewardBlock position) 0 (lockEndTime position) false) ;;
  staked' <- lift (checked_sub (totalStaked pool) (amount position)) ;;
  writePool _pid (set_totalStaked staked' pool) ;;
  safeTransfer env (stakingToken pool) (msg_sender env) amountAfterFee ;;
  emit (EmergencyWithdraw (msg_sender env) _pid amountAfterFee).

Definition rebalancePosition (env : Env) (_pid : N) (_user : address) (_newAmount : N) : M unit :=
  auth <- gets (fun s => isAuthorized s (msg_sender env)) ;;
  require auth "Not authorized" ;;
  len <- gets poolLength ;;
  require (_pid <? len) "Invalid pool ID" ;;
  position <- readPosition _pid _user ;;
  require (isActive position) "Position not active" ;;
  updatePool env _pid ;;
  emit (PositionRebalanced _user _pid _newAmount).

(** ** Pool registry and policy *)

Definition addPool (env : Env) (_stakingToken _rewardToken : address)
    (_allocPoint _minLockPeriod : N) : M unit :=
  onlyOwner env ;;
  require (negb (_stakingToken =? 0)) "Invalid staking token" ;;
  require (negb (_rewardToken =? 0)) "Invalid reward token" ;;
  massUpdatePools env ;;
  tap <- gets totalAllocPoint ;;
  tap' <- lift (checked_add tap _allocPoint) ;;
  modify (set_totalAllocPoint tap') ;;
  modify (fun s => set_poolInfo
    (poolInfo s ++ [mkPoolInfo _stakingToken _rewardToken _allocPoint
                      (block_number env) 0 0 _minLockPeriod false]) s) ;;
  len <- gets poolLength ;;
  idx <- lift (checked_sub len 1) ;;
  emit (PoolAdded idx _stakingToken _rewardToken).

Definition setRewardPerBlock (env : Env) (_rewardPerBlock : N) : M unit :=
  onlyOwner env ;;
  massUpdatePools env ;;
  modify (set_rewardPerBlock _rewardPerBlock).

Definition setEmergencyWithdrawFee (env : Env) (_fee : N) : M unit :=
  onlyOwner env ;;
  require (_fee <=? MAX_FEE) "Fee too high" ;;
  modify (set_emergencyWithdrawFee _fee).

Definition toggleEmergencyWithdraw (env : Env) (_pid : N) (_enabled : bool) : M unit :=
  onlyOwner env ;;
  pool <- readPool _pid ;;
  writePool _pid (set_isEmergencyWithdrawEnabled _enabled pool).

Definition setAuthorizedRebalancer (env : Env) (_rebalancer : address) (_authorized : bool) : M unit :=
  onlyOwner env ;;
  modify (fun s => set_authorizedRebalancers
                     (<[_rebalancer := _authorized]> (authorizedRebalancers s)) s).

(** [pause] and [unpause] call [_pause] and [_unpause] of the inherited
    [Pausable]: each checks that the flag has the other value, sets it and
    logs the caller. *)
Definition pause (env : Env) : M unit :=
  onlyOwner env ;;
  whenNotPaused ;;
  modify (set_paused true) ;;
  emit (Paused (msg_sender env)).

Definition unpause (env : Env) : M unit :=
  onlyOwner env ;;
  whenPaused ;;
  modify (set_paused false) ;;
  emit (Unpaused (msg_sender env)).

(** The two ownership functions the contract inherits from [Ownable];
    each logs the change of owner. *)
Definition transferOwnership (env : Env) (newOwner : address) : M unit :=
  onlyOwner env ;;
  require (negb (newOwner =? 0)) "Ownable: new owner is the zero address" ;;
  oldOwner <- gets owner ;;
  modify (set_owner newOwner) ;;
  emit (OwnershipTransferred oldOwner newOwner).

Definition renounceOwnership (env : Env) : M unit :=
  onlyOwner env ;;
  oldOwner <- gets owner ;;
  modify (set_owner 0) ;;
  emit (OwnershipTransferred oldOwner 0).

(** The state after the constructor run by [deployer]: the declared
    initial values, the deployer as owner and as authorized rebalancer, and
    the log of the inherited [Ownable] constructor, which takes ownership
    from the zero address. *)
Definition constructor (deployer : address) : State :=
  mkState [] ∅ {[deployer := true]} (10 ^ 18) 0 500 deployer false ∅
          [OwnershipTransferred 0 deployer].

(** ** Transactions *)

Inductive Call :=
| CAddPool (_stakingToken _rewardToken : address) (_allocPoint _minLockPeriod : N)
| CDeposit (_pid _amount : N)
| CWithdraw (_pid _amount : N)
| CEmergencyWithdraw (_pid : N)
| CRebalancePosition (_pid : N) (_user : address) (_newAmount : N)
| CMassUpdatePools
| CUpdatePool (_pid : N)
| CSetRewardPerBlock (_rewardPerBlock : N)
| CSetEmergencyWithdrawFee (_fee : N)
| CToggleEmergencyWithdraw (_pid : N) (_enabled : bool)
| CSetAuthorizedRebalancer (_rebalancer : address) (_authorized : bool)
| CPause
| CUnpause
| CTransferOwnership (newOwner : address)
| CRenounceOwnership
(* what the rest of the world does to the tokens: a holder other than the
   contract moves its tokens, or a token mints *)
| CTokenTransfer (token to amt : N)
| CTokenMint (token to amt : N).

Definition dispatch (env : Env) (c : Call) : M unit :=
  match c with
  | CAddPool st rt ap lp => addPool env st rt ap lp
  | CDeposit pid amt => deposit env pid amt
  | CWithdraw pid amt => withdraw env pid amt
  | CEmergencyWithdraw pid => emergencyWithdraw env pid
  | CRebalancePosition pid user amt => rebalancePosition env pid user amt
  | CMassUpdatePools => massUpdatePools env
  | CUpdatePool pid => updatePool env pid
  | CSetRewardPerBlock v => setRewardPerBlock env v
  | CSetEmergencyWithdrawFee v => setEmergencyWithdrawFee env v
  | CToggleEmergencyWithdraw pid b => toggleEmergencyWithdraw env pid b
  | CSetAuthorizedRebalancer a b => setAuthorizedRebalancer env a b
  | CPause => pause env
  | CUnpause => unpause env
  | CTransferOwnership a => transferOwnership env a
  | CRenounceOwnership => renounceOwnership env
  | CTokenTransfer token to amt =>
      require (negb (msg_sender env =? this env)) "not the contract" ;;
      tokenTransfer token (msg_sender env) to amt
  | CTokenMint token to amt =>
      modify (fun s => set_balances
                (<[(token, to) := balanceOf s token to + amt]> (balances s)) s)
  end.

(** A transaction is atomic: a call that reverts leaves the state
    untouched. *)
Definition exec (env : Env) (c : Call) (s : State) : State :=
  match dispatch env c s with
  | Ok (_, s') => s'
  | Revert _ => s
  end.

Fixpoint run (tr : list (Env * Call)) (s : State) : State :=
  match tr with
  | [] => s
  | (env, c) :: tr' => run tr' (exec env c s)
  end.

Definition reachable (s : State) : Prop :=
  exists deployer tr, s = run tr (constructor deployer).

(** ** What the invariants speak of *)

(** What the position at key [k] adds to the active stake of pool [pid]. *)
Definition stakeOf (pid : N) (k : N * address) (pos : Position) : N :=
  if (k.1 =? pid) && isActive pos then amount pos else 0.

(** [sum(position.amount for active positions in that pool)] *)
Definition activeStake (pid : N) (m : gmap (N * address) Position) : N :=
  map_fold (fun k pos acc => stakeOf pid k pos + acc) 0 m.

(** The ledger invariant: the active stake of every pool index is the
    pool's [totalStaked] (zero where no pool exists yet), and a position
    that is not active holds nothing. *)
Record ledger_inv (s : State) : Prop := {
  inv_sum : forall pid,
    activeStake pid (userPositions s) =
      match poolInfo s !! N.to_nat pid with
      | Some p => totalStaked p
      | None => 0
      end;
  inv_inactive : forall k pos,
    userPositions s !! k = Some pos -> isActive pos = false -> amount pos = 0
}.

(** One pool before and after accrual: only [lastRewardBlock] and
    [accRewardPerShare] move, and the accumulator does not go down. *)
Definition pool_accrued (p p' : PoolInfo) : Prop :=
  stakingToken p' = stakingToken p /\
  rewardToken p' = rewardToken p /\
  allocPoint p' = allocPoint p /\
  totalStaked p' = totalStaked p /\
  minLockPeriod p' = minLockPeriod p /\
  isEmergencyWithdrawEnabled p' = isEmergencyWithdrawEnabled p /\
  accRewardPerShare p <= accRewardPerShare p'.

(** A state before and after accrual of some of its pools. *)
Definition accrued (s s' : State) : Prop :=
  Forall2 pool_accrued (poolInfo s) (poolInfo s') /\
  s' = set_poolInfo (poolInfo s') s.

(** No pool of [s] has a smaller accumulator in [s']. *)
Definition acc_mono (s s' : State) : Prop :=
  forall i p, poolInfo s !! i = Some p ->
    exists p', poolInfo s' !! i = Some p' /\
               accRewardPerShare p <= accRewardPerShare p'.

(** ** Accrual, as the specification words it *)

Definition accrue_spec (currentHeight globalRewardPerBlock totalAllocationWeight : N)
    (pool : PoolInfo) : PoolInfo :=
  if currentHeight <=? lastRewardBlock pool then pool
  else if totalStaked pool =? 0 then set_lastRewardBlock currentHeight pool
  else
    let elapsed := currentHeight - lastRewardBlock pool in
    let poolReward :=
      elapsed * globalRewardPerBlock * allocPoint pool / totalAllocationWeight in
    set_lastRewardBlock currentHeight
      (set_accRewardPerShare
         (accRewardPerShare pool + poolReward * PRECISION / totalStaked pool) pool).

(** The computation of the third case stays inside 256 bits and has a
    divisor. *)
Definition accrue_fits (currentHeight globalRewardPerBlock totalAllocationWeight : N)
    (pool : PoolInfo) : Prop :=
  let elapsed := currentHeight - lastRewardBlock pool in
  let poolReward :=
    elapsed * globalRewardPerBlock * allocPoint pool / totalAllocationWeight in
  totalAllocationWeight <> 0 /\
  elapsed * globalRewardPerBlock <= MAX_UINT256 /\
  elapsed * globalRewardPerBlock * allocPoint pool <= MAX_UINT256 /\
  poolReward * PRECISION <= MAX_UINT256 /\
  accRewardPerShare pool + poolReward * PRECISION / totalStaked pool <= MAX_UINT256.

(** [s'] differs from [s] in balances and events at most. *)
Definition ledger_only (s s' : State) : Prop :=
  s' = set_events (events s') (set_balances (balances s') s).

(** A computation that neither reads nor writes the pause flag: run on a
    state with the flag set to [b], it does what it does otherwise, and the
    flag stays [b]. *)
Definition pause_blind {A} (m : M A) : Prop :=
  forall b s,
    m (set_paused b s) =
      match m s with
      | Ok (a, s') => Ok (a, set_paused b s')
      | Revert e => Revert e
      end.

(** ** The reward preview

    [pendingReward] is a view: it reads the pool and the position, applies
    the accrual formula to a local copy of the accumulator and returns the
    pending amount.  It has no [require] on the pool index. *)

Definition pendingReward (env : Env) (_pid : N) (_user : address) : M N :=
  pool <- readPool _pid ;;
  position <- readPosition _pid _user ;;
  acc <- (if (lastRewardBlock pool <? block_number env) && negb (totalStaked pool =? 0)
          then
            multiplier <- lift (checked_sub (block_number env) (lastRewardBlock pool)) ;;
            rpb <- gets rewardPerBlock ;;
            tap <- gets totalAllocPoint ;;
            m1 <- lift (checked_mul multiplier rpb) ;;
            m2 <- lift (checked_mul m1 (allocPoint pool)) ;;
            reward <- lift (checked_div m2 tap) ;;
            r1 <- lift (checked_mul reward PRECISION) ;;
            inc <- lift (checked_div r1 (totalStaked pool)) ;;
            lift (checked_add (accRewardPerShare pool) inc)
          else ret (accRewardPerShare pool)) ;;
  prod <- lift (checked_mul (amount position) acc) ;;
  lift (checked_sub (prod / PRECISION) (rewardDebt position)).

(** [getUserPosition] returns the stored position, the zero position for a
    key never written. *)
Definition getUserPosition (s : State) (_pid : N) (_user : address) : Position :=
  getPosition s _pid _user.

(** ** What the further invariants speak of *)

(** The sum of the weights of the pools. *)
Definition allocSum (l : list PoolInfo) : N :=
  foldr (fun p acc => allocPoint p + acc) 0 l.

(** One pool at two moments of a history: its tokens, weight and lock
    period are what they were, and neither its accrual height nor its
    accumulator has gone down. *)
Definition pool_step (p p' : PoolInfo) : Prop :=
  stakingToken p' = stakingToken p /\
  rewardToken p' = rewardToken p /\
  allocPoint p' = allocPoint p /\
  minLockPeriod p' = minLockPeriod p /\
  lastRewardBlock p <= lastRewardBlock p' /\
  accRewardPerShare p <= accRewardPerShare p'.

Definition pools_evolve (s s' : State) : Prop :=
  forall i p, poolInfo s !! i = Some p ->
    exists p', poolInfo s' !! i = Some p' /\ pool_step p p'.

(** The policy values of two states agree. *)
Definition policy_same (s s' : State) : Prop :=
  authorizedRebalancers s' = authorizedRebalancers s /\
  rewardPerBlock s' = rewardPerBlock s /\
  totalAllocPoint s' = totalAllocPoint s /\
  emergencyWithdrawFee s' = emergencyWithdrawFee s /\
  owner s' = owner s /\
  paused s' = paused s.

(** A position is active exactly when it holds something. *)
Definition positions_consistent (s : State) : Prop :=
  forall k pos, userPositions s !! k = Some pos ->
    (isActive pos = true <-> 0 < amount pos).

(** The calls only the owner may make. *)
Definition owner_only (c : Call) : bool :=
  match c with
  | CAddPool _ _ _ _ | CSetRewardPerBlock _ | CSetEmergencyWithdrawFee _
  | CToggleEmergencyWithdraw _ _ | CSetAuthorizedRebalancer _ _
  | CPause | CUnpause | CTransferOwnership _ | CRenounceOwnership => true
  | _ => false
  end.

(** Every stored position belongs to a pool that exists, and its reward
    debt is covered by what its amount has accrued so far. *)
Definition debt_covered (s : State) : Prop :=
  forall pid user pos, userPositions s !! (pid, user) = Some pos ->
    exists pool,
      poolInfo s !! N.to_nat pid = Some pool /\
      rewardDebt pos <= amount pos * accRewardPerShare pool / PRECISION.

(** The configuration of a pool: what only the owner sets. *)
Definition pool_config_same (p p' : PoolInfo) : Prop :=
  stakingToken p' = stakingToken p /\
  rewardToken p' = rewardToken p /\
  allocPoint p' = allocPoint p /\
  minLockPeriod p' = minLockPeriod p /\
  isEmergencyWithdrawEnabled p' = isEmergencyWithdrawEnabled p.

(** Two states with the same number of pools, each with the same
    configuration. *)
Definition config_kept (s s' : State) : Prop :=
  length (poolInfo s') = length (poolInfo s) /\
  forall i p, poolInfo s !! i = Some p ->
    exists p', poolInfo s' !! i = Some p' /\ pool_config_same p p'.

(** ** Sample runs

    A deployer, two accounts, the contract's own address and two tokens,
    and three short histories used to exercise the theorems on states the
    contract really reaches. *)

Definition deployer0 : address := 1.
Definition alice : address := 2.
Definition bob : address := 3.
Definition farm : address := 99.
Definition stakeToken : address := 10.
Definition prizeToken : address := 11.

Definition at_block (sender blk time : N) : Env := mkEnv sender blk time farm.

(** Two pools of weights 50 and 60; alice stakes 1000 in the first at block
    100; the reward custody holds less than ten blocks of reward. *)
Definition staking_history : list (Env * Call) :=
  [ (at_block deployer0 100 1000, CAddPool stakeToken prizeToken 50 60);
    (at_block deployer0 100 1000, CAddPool stakeToken prizeToken 60 0);
    (at_block deployer0 100 1000, CTokenMint stakeToken alice 5000);
    (at_block deployer0 100 1000, CTokenMint prizeToken farm 1000000);
    (at_block alice 100 1000, CDeposit 0 1000);
    (at_block deployer0 105 1050, CToggleEmergencyWithdraw 0 true) ].

Definition staked : State := run staking_history (constructor deployer0).

(** The same state after an accrual ten blocks later. *)
Definition accrued_staked : State :=
  exec (at_block bob 110 1100) (CUpdatePool 0) staked.

Definition paused_history : list (Env * Call) :=
  (staking_history ++ [ (at_block deployer0 106 1060, CPause) ])%list.

Definition staked_paused : State := run paused_history (constructor deployer0).

(** One pool of weight 0, and a stake in it. *)
Definition zero_weight_history : list (Env * Call) :=
  [ (at_block deployer0 100 1000, CAddPool stakeToken prizeToken 0 0);
    (at_block deployer0 100 1000, CTokenMint stakeToken alice 5000);
    (at_block alice 100 1000, CDeposit 0 100) ].

Definition zero_weight_staked : State :=
  run zero_weight_history (constructor deployer0).



(** * Properties *)

(** ** Reading the monad backwards *)

Lemma bind_Ok {A B} (m : M A) (k : A -> M B) s r :
  bind m k s = Ok r <-> exists a s1, m s = Ok (a, s1) /\ k a s1 = Ok r.
Proof.
  unfold bind. split.
  - destruct (m s) as [[a s1]|e]; [eauto | discriminate].
  - intros (a & s1 & -> & Hk). exact Hk.
Qed.

Lemma require_Ok b msg s r :
  require b msg s = Ok r <-> b = true /\ r = (tt, s).
Proof.
  unfold require, ret, revert. destruct b; split.
  - intros [= <-]. auto.
  - intros [_ ->]. reflexivity.
  - discriminate.
  - intros [? _]. discriminate.
Qed.

Lemma lift_Ok {A} (x : result A) s r :
  lift x s = Ok r <-> exists a, x = Ok a /\ r = (a, s).
Proof.
  unfold lift. destruct x; split.
  - intros [= <-]. eauto.
  - intros (a' & [= ->] & ->). reflexivity.
  - discriminate.
  - intros (a' & ? & _). discriminate.
Qed.

Lemma gets_Ok {A} (f : State -> A) s r : gets f s = Ok r <-> r = (f s, s).
Proof. unfold gets. split; [intros [= <-] | intros ->]; reflexivity. Qed.

Lemma modify_Ok f s r : modify f s = Ok r <-> r = (tt, f s).
Proof. unfold modify. split; [intros [= <-] | intros ->]; reflexivity. Qed.

Lemma ret_Ok {A} (a : A) s r : ret a s = Ok r <-> r = (a, s).
Proof. unfold ret. split; [intros [= <-] | intros ->]; reflexivity. Qed.

Lemma readPool_Ok pid s r :
  readPool pid s = Ok r <-> exists p, poolInfo s !! N.to_nat pid = Some p /\ r = (p, s).
Proof.
  unfold readPool. destruct (poolInfo s !! N.to_nat pid) as [p|]; split.
  - intros [= <-]. eauto.
  - intros (p' & [= ->] & ->). reflexivity.
  - discriminate.
  - intros (p' & ? & _). discriminate.
Qed.

Lemma checked_add_Ok a b c : checked_add a b = Ok c <-> c = a + b /\ a + b <= MAX_UINT256.
Proof.
  unfold checked_add. destruct (N.leb_spec (a + b) MAX_UINT256); split.
  - intros [= <-]. auto.
  - intros [-> _]. reflexivity.
  - discriminate.
  - intros [_ ?]. lia.
Qed.

Lemma checked_sub_Ok a b c : checked_sub a b = Ok c <-> c = a - b /\ b <= a.
Proof.
  unfold checked_sub. destruct (N.leb_spec b a); split.
  - intros [= <-]. auto.
  - intros [-> _]. reflexivity.
  - discriminate.
  - intros [_ ?]. lia.
Qed.

Lemma checked_mul_Ok a b c : checked_mul a b = Ok c <-> c = a * b /\ a * b <= MAX_UINT256.
Proof.
  unfold checked_mul. destruct (N.leb_spec (a * b) MAX_UINT256); split.
  - intros [= <-]. auto.
  - intros [-> _]. reflexivity.
  - discriminate.
  - intros [_ ?]. lia.
Qed.

Lemma checked_div_Ok a b c : checked_div a b = Ok c <-> c = a / b /\ b <> 0.
Proof.
  unfold checked_div. destruct (N.eqb_spec b 0); split.
  - discriminate.
  - intros [_ ?]. contradiction.
  - intros [= <-]. auto.
  - intros [-> _]. reflexivity.
Qed.

(** Take a successful run apart, one step of the source at a time. *)
Ltac inv_step H :=
  match type of H with
  | bind _ _ _ = Ok _ =>
      let a := fresh "a" in let s1 := fresh "s" in
      let H1 := fresh "Hm" in let H2 := fresh "Hk" in
      apply bind_Ok in H; destruct H as (a & s1 & H1 & H2);
      inv_step H1; inv_step H2
  | require _ _ _ = Ok _ =>
      let Hb := fresh "Hreq" in let He := fresh "He" in
      apply require_Ok in H; destruct H as [Hb He];
      first [injection He as -> -> | injection He as -> | injection He as <- <- | subst]
  | lift _ _ = Ok _ =>
      let v := fresh "v" in let Hv := fresh "Hv" in let He := fresh "He" in
      apply lift_Ok in H; destruct H as (v & Hv & He);
      first [injection He as -> -> | injection He as -> | injection He as <- <- | subst]
  | gets _ _ = Ok _ =>
      apply gets_Ok in H;
      first [injection H as -> -> | injection H as -> | injection H as <- <- | subst]
  | modify _ _ = Ok _ =>
      apply modify_Ok in H;
      first [injection H as -> -> | injection H as -> | injection H as <- <- | subst]
  | emit _ _ = Ok _ =>
      unfold emit in H; inv_step H
  | ret _ _ = Ok _ =>
      apply ret_Ok in H;
      first [injection H as -> -> | injection H as -> | injection H as <- <- | subst]
  | readPool _ _ = Ok _ =>
      let p := fresh "pool" in let Hp := fresh "Hpool" in let He := fresh "He" in
      apply readPool_Ok in H; destruct H as (p & Hp & He);
      first [injection He as -> -> | injection He as -> | injection He as <- <- | subst]
  | readPosition _ _ _ = Ok _ => unfold readPosition in H; inv_step H
  | writePool _ _ _ = Ok _ => unfold writePool in H; inv_step H
  | writePosition _ _ _ _ = Ok _ => unfold writePosition in H; inv_step H
  | onlyOwner _ _ = Ok _ => unfold onlyOwner in H; inv_step H
  | whenNotPaused _ = Ok _ => unfold whenNotPaused in H; inv_step H
  | whenPaused _ = Ok _ => unfold whenPaused in H; inv_step H
  | _ => idtac
  end.

Lemma set_poolInfo_id s : set_poolInfo (poolInfo s) s = s.
Proof. destruct s; reflexivity. Qed.

Lemma updatePool_unfold env pid s pool :
  poolInfo s !! N.to_nat pid = Some pool ->
  updatePool env pid s =
    if block_number env <=? lastRewardBlock pool then Ok (tt, s)
    else if totalStaked pool =? 0 then
      Ok (tt, set_poolInfo (<[N.to_nat pid := set_lastRewardBlock (block_number env) pool]>
                              (poolInfo s)) s)
    else
      match checked_sub (block_number env) (lastRewardBlock pool) with
      | Revert e => Revert e
      | Ok multiplier =>
      match checked_mul multiplier (rewardPerBlock s) with
      | Revert e => Revert e
      | Ok m1 =>
      match checked_mul m1 (allocPoint pool) with
      | Revert e => Revert e
      | Ok m2 =>
      match checked_div m2 (totalAllocPoint s) with
      | Revert e => Revert e
      | Ok reward =>
      match checked_mul reward PRECISION with
      | Revert e => Revert e
      | Ok r1 =>
      match checked_div r1 (totalStaked pool) with
      | Revert e => Revert e
      | Ok inc =>
      match checked_add (accRewardPerShare pool) inc with
      | Revert e => Revert e
      | Ok acc =>
          Ok (tt, set_poolInfo
                    (<[N.to_nat pid := set_lastRewardBlock (block_number env)
                                         (set_accRewardPerShare acc pool)]>
                       (poolInfo s)) s)
      end end end end end end end.
Proof.
  intros Hp. unfold updatePool, bind, readPool. rewrite Hp.
  destruct (block_number env <=? lastRewardBlock pool); [reflexivity|].
  destruct (totalStaked pool =? 0); [reflexivity|].
  unfold lift, gets.
  repeat match goal with
         | |- context [match ?r with Ok _ => _ | Revert _ => _ end] =>
             lazymatch r with
             | checked_add _ _ => destruct r
             | checked_sub _ _ => destruct r
             | checked_mul _ _ => destruct r
             | checked_div _ _ => destruct r
             end
         end; reflexivity.
Qed.

(** What a successful [updatePool] leaves at the pool's index, and that a
    second run at the same height does nothing. *)
Lemma updatePool_result env s pid pool s' :
  poolInfo s !! N.to_nat pid = Some pool ->
  updatePool env pid s = Ok (tt, s') ->
  poolInfo s' !! N.to_nat pid =
    Some (accrue_spec (block_number env) (rewardPerBlock s) (totalAllocPoint s) pool) /\
  updatePool env pid s' = Ok (tt, s').
Proof.
  intros Hp Hrun. rewrite (updatePool_unfold env pid s pool Hp) in Hrun.
  assert (Hlt : (N.to_nat pid < length (poolInfo s))%nat)
    by (apply lookup_lt_is_Some; eauto).
  unfold accrue_spec.
  destruct (N.leb_spec (block_number env) (lastRewardBlock pool)) as [Hle|Hgt].
  + injection Hrun as <-. split; [exact Hp|].
    rewrite (updatePool_unfold env pid s pool Hp).
    apply N.leb_le in Hle. rewrite Hle. reflexivity.
  + destruct (N.eqb_spec (totalStaked pool) 0) as [Hz|Hnz].
    * injection Hrun as <-. cbn [poolInfo set_poolInfo].
      rewrite list_lookup_insert_eq by exact Hlt. split; [reflexivity|].
      erewrite updatePool_unfold
        by (cbn [poolInfo set_poolInfo]; apply list_lookup_insert_eq; exact Hlt).
      cbn [lastRewardBlock set_lastRewardBlock]. rewrite N.leb_refl. reflexivity.
    * destruct (checked_sub _ _) as [multiplier|] eqn:E1; [|discriminate].
      destruct (checked_mul multiplier _) as [m1|] eqn:E2; [|discriminate].
      destruct (checked_mul m1 _) as [m2|] eqn:E3; [|discriminate].
      destruct (checked_div m2 _) as [reward|] eqn:E4; [|discriminate].
      destruct (checked_mul reward _) as [r1|] eqn:E5; [|discriminate].
      destruct (checked_div r1 _) as [inc|] eqn:E6; [|discriminate].
      destruct (checked_add _ inc) as [acc|] eqn:E7; [|discriminate].
      injection Hrun as <-. cbn [poolInfo set_poolInfo].
      apply checked_sub_Ok in E1 as [-> _]. apply checked_mul_Ok in E2 as [-> _].
      apply checked_mul_Ok in E3 as [-> _]. apply checked_div_Ok in E4 as [-> _].
      apply checked_mul_Ok in E5 as [-> _]. apply checked_div_Ok in E6 as [-> _].
      apply checked_add_Ok in E7 as [-> _].
      rewrite list_lookup_insert_eq by exact Hlt. split; [reflexivity|].
      erewrite updatePool_unfold
        by (cbn [poolInfo set_poolInfo]; apply list_lookup_insert_eq; exact Hlt).
      cbn [lastRewardBlock set_lastRewardBlock]. rewrite N.leb_refl. reflexivity.
Qed.

(** C1: [updatePool] on an existing pool.  At a height not above
    [lastRewardBlock] it returns with the state as it was, so a second call
    at the same height changes nothing; with nothing staked it only moves
    [lastRewardBlock] to the current height; otherwise, when the products
    fit in 256 bits and the total allocation is not zero, it adds
    [poolReward * 1e12 / totalStaked] to [accRewardPerShare], where
    [poolReward = elapsed * rewardPerBlock * allocPoint / totalAllocPoint]
    with truncating divisions, and moves [lastRewardBlock] to the current
    height; when they do not fit, or the total allocation is zero, the
    call reverts.  In every case the pool after a successful call is the
    pool of the specification's [accrue]. *)
Theorem updatePool_accrues env s pid pool :
  poolInfo s !! N.to_nat pid = Some pool ->
  (block_number env <= lastRewardBlock pool ->
     updatePool env pid s = Ok (tt, s)) /\
  (lastRewardBlock pool < block_number env -> totalStaked pool = 0 ->
     updatePool env pid s =
       Ok (tt, set_poolInfo
                 (<[N.to_nat pid :=
                      mkPoolInfo (stakingToken pool) (rewardToken pool) (allocPoint pool)
                        (block_number env) (accRewardPerShare pool) 0
                        (minLockPeriod pool) (isEmergencyWithdrawEnabled pool)]>
                    (poolInfo s)) s)) /\
  (lastRewardBlock pool < block_number env -> totalStaked pool <> 0 ->
   accrue_fits (block_number env) (rewardPerBlock s) (totalAllocPoint s) pool ->
     let elapsed := block_number env - lastRewardBlock pool in
     let poolReward :=
       elapsed * rewardPerBlock s * allocPoint pool / totalAllocPoint s in
     updatePool env pid s =
       Ok (tt, set_poolInfo
                 (<[N.to_nat pid :=
                      mkPoolInfo (stakingToken pool) (rewardToken pool) (allocPoint pool)
                        (block_number env)
                        (accRewardPerShare pool + poolReward * PRECISION / totalStaked pool)
                        (totalStaked pool)
                        (minLockPeriod pool) (isEmergencyWithdrawEnabled pool)]>
                    (poolInfo s)) s)) /\
  (lastRewardBlock pool < block_number env -> totalStaked pool <> 0 ->
   ~ accrue_fits (block_number env) (rewardPerBlock s) (totalAllocPoint s) pool ->
     is_ok (updatePool env pid s) = false) /\
  (forall s', updatePool env pid s = Ok (tt, s') ->
     poolInfo s' !! N.to_nat pid =
       Some (accrue_spec (block_number env) (rewardPerBlock s) (totalAllocPoint s) pool) /\
     updatePool env pid s' = Ok (tt, s')).
Proof.
  intros Hp.
  pose proof (updatePool_unfold env pid s pool Hp) as Hunf.
  split; [|split; [|split; [|split]]].
  - intros Hle. rewrite Hunf. apply N.leb_le in Hle. rewrite Hle. reflexivity.
  - intros Hgt Hz. rewrite Hunf. apply N.leb_gt in Hgt. rewrite Hgt.
    unfold set_lastRewardBlock. rewrite Hz. reflexivity.
  - intros Hgt Hnz (Htap & Hf1 & Hf2 & Hf3 & Hf4). cbv zeta. rewrite Hunf.
    apply N.leb_gt in Hgt. rewrite Hgt.
    apply N.eqb_neq in Hnz. rewrite Hnz.
    apply N.leb_gt in Hgt.
    rewrite (proj2 (checked_sub_Ok _ _ _) (conj eq_refl (N.lt_le_incl _ _ Hgt))).
    rewrite (proj2 (checked_mul_Ok _ _ _) (conj eq_refl Hf1)).
    rewrite (proj2 (checked_mul_Ok _ _ _) (conj eq_refl Hf2)).
    rewrite (proj2 (checked_div_Ok _ _ _) (conj eq_refl Htap)).
    rewrite (proj2 (checked_mul_Ok _ _ _) (conj eq_refl Hf3)).
    apply N.eqb_neq in Hnz.
    rewrite (proj2 (checked_div_Ok _ _ _) (conj eq_refl Hnz)).
    rewrite (proj2 (checked_add_Ok _ _ _) (conj eq_refl Hf4)).
    reflexivity.
  - intros Hgt Hnz Hnot. rewrite Hunf.
    apply N.leb_gt in Hgt. rewrite Hgt.
    apply N.eqb_neq in Hnz. rewrite Hnz. apply N.eqb_neq in Hnz.
    destruct (checked_sub _ _) as [multiplier|] eqn:E1; [|reflexivity].
    destruct (checked_mul multiplier _) as [m1|] eqn:E2; [|reflexivity].
    destruct (checked_mul m1 _) as [m2|] eqn:E3; [|reflexivity].
    destruct (checked_div m2 _) as [reward|] eqn:E4; [|reflexivity].
    destruct (checked_mul reward _) as [r1|] eqn:E5; [|reflexivity].
    destruct (checked_div r1 _) as [inc|] eqn:E6; [|reflexivity].
    destruct (checked_add _ inc) as [acc|] eqn:E7; [|reflexivity].
    exfalso. apply Hnot.
    apply checked_sub_Ok in E1 as [-> _]. apply checked_mul_Ok in E2 as [-> Hf1].
    apply checked_mul_Ok in E3 as [-> Hf2]. apply checked_div_Ok in E4 as [-> Htap].
    apply checked_mul_Ok in E5 as [-> Hf3]. apply checked_div_Ok in E6 as [-> _].
    apply checked_add_Ok in E7 as [-> Hf4].
    unfold accrue_fits. cbv zeta. auto.
  - intros s' Hrun. exact (updatePool_result env s pid pool s' Hp Hrun).
Qed.

(** ** Sums over the position map *)

Lemma stakeOf_zero pid k : stakeOf pid k zeroPosition = 0.
Proof. unfold stakeOf. cbn. rewrite andb_false_r. reflexivity. Qed.

Lemma activeStake_empty pid : activeStake pid ∅ = 0.
Proof. unfold activeStake. apply map_fold_empty. Qed.

Lemma activeStake_insert_fresh (pid : N) (m : gmap (N * address) Position)
    (k : N * address) (pos : Position) :
  m !! k = None ->
  activeStake pid (<[k := pos]> m) = stakeOf pid k pos + activeStake pid m.
Proof.
  intros Hk. unfold activeStake.
  apply (map_fold_insert_L (fun k pos acc => stakeOf pid k pos + acc)); [|exact Hk].
  intros. lia.
Qed.

Lemma activeStake_delete (pid : N) (m : gmap (N * address) Position)
    (k : N * address) (pos : Position) :
  m !! k = Some pos ->
  activeStake pid m = stakeOf pid k pos + activeStake pid (delete k m).
Proof.
  intros Hk. unfold activeStake.
  apply (map_fold_delete_L (fun k pos acc => stakeOf pid k pos + acc)); [|exact Hk].
  intros. lia.
Qed.

(** Writing a position replaces its share of the sum. *)
Lemma activeStake_insert (pid : N) (m : gmap (N * address) Position)
    (k : N * address) (pos : Position) :
  activeStake pid (<[k := pos]> m) + stakeOf pid k (default zeroPosition (m !! k))
  = activeStake pid m + stakeOf pid k pos.
Proof.
  destruct (m !! k) as [old|] eqn:Hk; cbn [default from_option id].
  - rewrite <- (insert_delete_eq m k pos).
    rewrite activeStake_insert_fresh by apply lookup_delete_eq.
    rewrite (activeStake_delete pid m k old Hk). lia.
  - rewrite activeStake_insert_fresh by exact Hk.
    rewrite stakeOf_zero. lia.
Qed.

Lemma stakeOf_other pid pid' user pos :
  pid' <> pid -> stakeOf pid (pid', user) pos = 0.
Proof.
  intros Hne. unfold stakeOf. cbn.
  apply N.eqb_neq in Hne. rewrite Hne. reflexivity.
Qed.

Lemma activeStake_insert_other (pid pid' : N) (user : address)
    (m : gmap (N * address) Position) (pos : Position) :
  pid' <> pid ->
  activeStake pid (<[(pid', user) := pos]> m) = activeStake pid m.
Proof.
  intros Hne.
  pose proof (activeStake_insert pid m (pid', user) pos) as H.
  rewrite !stakeOf_other in H by exact Hne. lia.
Qed.

(** ** Accrual as a relation between states *)

Lemma pool_accrued_refl p : pool_accrued p p.
Proof. unfold pool_accrued. repeat split; lia. Qed.

Lemma pool_accrued_trans p1 p2 p3 :
  pool_accrued p1 p2 -> pool_accrued p2 p3 -> pool_accrued p1 p3.
Proof.
  unfold pool_accrued. intros (?&?&?&?&?&?&?) (?&?&?&?&?&?&?).
  repeat split; try congruence. lia.
Qed.

Lemma accrued_refl s : accrued s s.
Proof.
  split; [|symmetry; apply set_poolInfo_id].
  apply Forall2_same_length_lookup. split; [reflexivity|].
  intros i x y Hx Hy. rewrite Hx in Hy. injection Hy as <-. apply pool_accrued_refl.
Qed.

Lemma accrued_trans s1 s2 s3 : accrued s1 s2 -> accrued s2 s3 -> accrued s1 s3.
Proof.
  intros [H12 E12] [H23 E23]. split.
  - apply Forall2_same_length_lookup. split.
    + rewrite (Forall2_length _ _ _ H12). exact (Forall2_length _ _ _ H23).
    + intros i x z Hx Hz.
      destruct (Forall2_lookup_l _ _ _ _ _ H12 Hx) as (y & Hy & Hxy).
      destruct (Forall2_lookup_l _ _ _ _ _ H23 Hy) as (z' & Hz' & Hyz).
      rewrite Hz in Hz'. injection Hz' as <-.
      eapply pool_accrued_trans; eassumption.
  - rewrite E23 at 1. rewrite E12. destruct s1; reflexivity.
Qed.

Lemma accrued_write s i p p' :
  poolInfo s !! i = Some p -> pool_accrued p p' ->
  accrued s (set_poolInfo (<[i := p']> (poolInfo s)) s).
Proof.
  intros Hp Hpp. split; [|destruct s; reflexivity].
  cbn [poolInfo set_poolInfo].
  rewrite <- (list_insert_id (poolInfo s) i p Hp) at 1.
  apply Forall2_insert; [|exact Hpp].
  apply Forall2_same_length_lookup. split; [reflexivity|].
  intros j x y Hx Hy. rewrite Hx in Hy. injection Hy as <-. apply pool_accrued_refl.
Qed.

Lemma updatePool_accrued env pid s u s' :
  updatePool env pid s = Ok (u, s') -> accrued s s'.
Proof.
  intros Hrun.
  destruct (poolInfo s !! N.to_nat pid) as [pool|] eqn:Hp.
  2:{ unfold updatePool, bind, readPool in Hrun. rewrite Hp in Hrun. discriminate. }
  rewrite (updatePool_unfold env pid s pool Hp) in Hrun.
  destruct (block_number env <=? lastRewardBlock pool).
  { injection Hrun as <- <-. apply accrued_refl. }
  destruct (totalStaked pool =? 0).
  { injection Hrun as <- <-. eapply accrued_write; [exact Hp|].
    unfold pool_accrued. cbn. repeat split; lia. }
  destruct (checked_sub _ _) as [multiplier|]; [|discriminate].
  destruct (checked_mul multiplier _) as [m1|]; [|discriminate].
  destruct (checked_mul m1 _) as [m2|]; [|discriminate].
  destruct (checked_div m2 _) as [reward|]; [|discriminate].
  destruct (checked_mul reward _) as [r1|]; [|discriminate].
  destruct (checked_div r1 _) as [inc|]; [|discriminate].
  destruct (checked_add _ inc) as [acc|] eqn:E7; [|discriminate].
  injection Hrun as <- <-. eapply accrued_write; [exact Hp|].
  apply checked_add_Ok in E7 as [-> _].
  unfold pool_accrued. cbn. repeat split; lia.
Qed.

Lemma massUpdatePools_loop_accrued env n : forall pid s u s',
  massUpdatePools_loop env n pid s = Ok (u, s') -> accrued s s'.
Proof.
  induction n as [|n IH]; intros pid s u s' Hrun; cbn [massUpdatePools_loop] in Hrun.
  - injection Hrun as <- <-. apply accrued_refl.
  - apply bind_Ok in Hrun as (a & s1 & H1 & H2).
    eapply accrued_trans; [eapply updatePool_accrued; exact H1 | eapply IH; exact H2].
Qed.

Lemma massUpdatePools_accrued env s u s' :
  massUpdatePools env s = Ok (u, s') -> accrued s s'.
Proof.
  unfold massUpdatePools. intros Hrun.
  apply bind_Ok in Hrun as (a & s1 & H1 & H2).
  apply gets_Ok in H1. injection H1 as -> ->.
  eapply massUpdatePools_loop_accrued; exact H2.
Qed.

Lemma accrued_lookup s s' i p' :
  accrued s s' -> poolInfo s' !! i = Some p' ->
  exists p, poolInfo s !! i = Some p /\ pool_accrued p p'.
Proof.
  intros [HF _] Hp'. destruct (Forall2_lookup_r _ _ _ _ _ HF Hp') as (p & Hp & Hpp). eauto.
Qed.

Lemma accrued_userPositions s s' : accrued s s' -> userPositions s' = userPositions s.
Proof. intros [_ ->]. reflexivity. Qed.

Lemma accrued_acc_mono s s' : accrued s s' -> acc_mono s s'.
Proof.
  intros [HF _] i p Hp.
  destruct (Forall2_lookup_l _ _ _ _ _ HF Hp) as (p' & Hp' & Hpp).
  exists p'. split; [exact Hp'|]. apply Hpp.
Qed.

Lemma accrued_ledger_inv s s' : accrued s s' -> ledger_inv s -> ledger_inv s'.
Proof.
  intros Hacc [Hsum Hin]. split.
  - intros pid. rewrite (accrued_userPositions _ _ Hacc), Hsum.
    destruct (poolInfo s' !! N.to_nat pid) as [p'|] eqn:Hp'.
    + destruct (accrued_lookup _ _ _ _ Hacc Hp') as (p & -> & Hpp).
      symmetry. apply Hpp.
    + destruct (poolInfo s !! N.to_nat pid) as [p|] eqn:Hp; [|reflexivity].
      destruct Hacc as [HF _].
      destruct (Forall2_lookup_l _ _ _ _ _ HF Hp) as (p' & Hp'' & _). congruence.
  - rewrite (accrued_userPositions _ _ Hacc). exact Hin.
Qed.

(** ** Frames: what the token calls and the settlement leave alone *)

Lemma ledger_only_refl s : ledger_only s s.
Proof. unfold ledger_only. destruct s; reflexivity. Qed.

Lemma ledger_only_trans s1 s2 s3 :
  ledger_only s1 s2 -> ledger_only s2 s3 -> ledger_only s1 s3.
Proof.
  unfold ledger_only. intros H12 H23. rewrite H23 at 1. rewrite H12.
  destruct s1; reflexivity.
Qed.

Lemma ledger_only_poolInfo s s' : ledger_only s s' -> poolInfo s' = poolInfo s.
Proof. intros ->. reflexivity. Qed.

Lemma ledger_only_userPositions s s' :
  ledger_only s s' -> userPositions s' = userPositions s.
Proof. intros ->. reflexivity. Qed.

Lemma tokenTransfer_frame token from to amt s u s' :
  tokenTransfer token from to amt s = Ok (u, s') -> ledger_only s s'.
Proof.
  unfold tokenTransfer. destruct (amt <=? balanceOf s token from); [|discriminate].
  intros [= <- <-]. unfold ledger_only. destruct s; reflexivity.
Qed.

Lemma safeRewardTransfer_frame env token to amt s u s' :
  safeRewardTransfer env token to amt s = Ok (u, s') -> ledger_only s s'.
Proof.
  unfold safeRewardTransfer, safeTransfer. intros H.
  apply bind_Ok in H as (b & s1 & H1 & H2).
  apply gets_Ok in H1. injection H1 as -> ->.
  destruct (_ <? amt); eapply tokenTransfer_frame; exact H2.
Qed.

Lemma emit_frame e s u s' : emit e s = Ok (u, s') -> ledger_only s s'.
Proof.
  unfold emit. intros H. apply modify_Ok in H. injection H as -> ->.
  unfold ledger_only. destruct s; reflexivity.
Qed.

Lemma settle_frame env pid pool pending s u s' :
  settle env pid pool pending s = Ok (u, s') -> ledger_only s s'.
Proof.
  unfold settle. destruct (0 <? pending).
  - intros H. apply bind_Ok in H as (a & s1 & H1 & H2).
    eapply ledger_only_trans;
      [eapply safeRewardTransfer_frame; exact H1 | eapply emit_frame; exact H2].
  - intros H. apply ret_Ok in H. injection H as -> ->. apply ledger_only_refl.
Qed.

(** ** Successful runs of the three ledger operations, step by step *)

Lemma deposit_inv env pid amt s u s' :
  deposit env pid amt s = Ok (u, s') ->
  exists s1 s2 s3 pool,
    let position := getPosition s1 pid (msg_sender env) in
    paused s = false /\ pid < poolLength s /\ 0 < amt /\
    updatePool env pid s = Ok (tt, s1) /\
    poolInfo s1 !! N.to_nat pid = Some pool /\
    (if 0 <? amount position
     then exists pending, pendingOf position pool = Ok pending /\
                          settle env pid pool pending s1 = Ok (tt, s2)
     else s2 = s1) /\
    tokenTransfer (stakingToken pool) (msg_sender env) (this env) amt s2 = Ok (tt, s3) /\
    amount position + amt <= MAX_UINT256 /\
    (amount position + amt) * accRewardPerShare pool <= MAX_UINT256 /\
    block_timestamp env + minLockPeriod pool <= MAX_UINT256 /\
    totalStaked pool + amt <= MAX_UINT256 /\
    s' = set_events (events s3 ++ [Deposit (msg_sender env) pid amt])
           (set_poolInfo
              (<[N.to_nat pid := set_totalStaked (totalStaked pool + amt) pool]> (poolInfo s3))
              (set_userPositions
                 (<[(pid, msg_sender env) :=
                      mkPosition (amount position + amt) (block_number env)
                        ((amount position + amt) * accRewardPerShare pool / PRECISION)
                        (block_timestamp env + minLockPeriod pool) true]>
                    (userPositions s3)) s3)).
Proof.
  intros H. unfold deposit in H.
  apply bind_Ok in H as ([] & sa & Hp & H). inv_step Hp.
  apply bind_Ok in H as (len & sb & Hl & H). inv_step Hl.
  apply bind_Ok in H as ([] & sb & Hr1 & H). inv_step Hr1.
  apply bind_Ok in H as ([] & sb & Hr2 & H). inv_step Hr2.
  apply bind_Ok in H as ([] & s1 & Hup & H).
  apply bind_Ok in H as (pool & sb & Hrp & H). apply readPool_Ok in Hrp as (p & Hpool & [= -> ->]).
  apply bind_Ok in H as (position & sb & Hpos & H). inv_step Hpos.
  apply bind_Ok in H as ([] & s2 & Hset & H).
  apply bind_Ok in H as ([] & s3 & Htr & H).
  apply bind_Ok in H as (amount' & sb & Ha & H). apply lift_Ok in Ha as (? & Ha & [= -> ->]).
  apply bind_Ok in H as (prod & sb & Hpr & H). apply lift_Ok in Hpr as (? & Hpr & [= -> ->]).
  apply bind_Ok in H as (lockEnd & sb & Hlk & H). apply lift_Ok in Hlk as (? & Hlk & [= -> ->]).
  apply bind_Ok in H as ([] & sb & Hwp & H). inv_step Hwp.
  apply bind_Ok in H as (staked' & sb & Hst & H). apply lift_Ok in Hst as (? & Hst & [= -> ->]).
  apply bind_Ok in H as ([] & sb & Hwl & H). inv_step Hwl.
  inv_step H.
  apply checked_add_Ok in Ha as [-> Ha]. apply checked_mul_Ok in Hpr as [-> Hpr].
  apply checked_add_Ok in Hlk as [-> Hlk]. apply checked_add_Ok in Hst as [-> Hst].
  exists s1, s2, s3, p. cbv zeta.
  split; [destruct (paused s); [discriminate|reflexivity]|].
  split; [apply N.ltb_lt; assumption|].
  split; [apply N.ltb_lt; assumption|].
  split; [exact Hup|]. split; [exact Hpool|].
  split.
  { destruct (0 <? amount (getPosition s1 pid (msg_sender env))).
    - apply bind_Ok in Hset as (pending & sx & Hpe & Hset).
      apply lift_Ok in Hpe as (? & Hpe & [= -> ->]). eauto.
    - apply ret_Ok in Hset. injection Hset as ->. reflexivity. }
  split; [exact Htr|].
  repeat (split; [assumption|]).
  reflexivity.
Qed.

Lemma withdraw_inv env pid amt s u s' :
  withdraw env pid amt s = Ok (u, s') ->
  exists s1 s2 s3 pool pending,
    let position := getPosition s pid (msg_sender env) in
    let amount' := amount position - amt in
    pid < poolLength s /\ amt <= amount position /\
    lockEndTime position <= block_timestamp env /\
    updatePool env pid s = Ok (tt, s1) /\
    poolInfo s1 !! N.to_nat pid = Some pool /\
    pendingOf position pool = Ok pending /\
    settle env pid pool pending s1 = Ok (tt, s2) /\
    amount' * accRewardPerShare pool <= MAX_UINT256 /\
    amt <= totalStaked pool /\
    s3 = set_poolInfo
           (<[N.to_nat pid := set_totalStaked (totalStaked pool - amt) pool]> (poolInfo s2))
           (set_userPositions
              (<[(pid, msg_sender env) :=
                   mkPosition amount' (userLastRewardBlock position)
                     (amount' * accRewardPerShare pool / PRECISION)
                     (lockEndTime position)
                     (if amount' =? 0 then false else isActive position)]>
                 (userPositions s2)) s2) /\
    exists s4,
      tokenTransfer (stakingToken pool) (this env) (msg_sender env) amt s3 = Ok (tt, s4) /\
      s' = set_events (events s4 ++ [Withdraw (msg_sender env) pid amt]) s4.
Proof.
  intros H. unfold withdraw in H.
  apply bind_Ok in H as (len & sb & Hl & H). inv_step Hl.
  apply bind_Ok in H as ([] & sb & Hr1 & H). inv_step Hr1.
  apply bind_Ok in H as (position0 & sb & Hpos0 & H). inv_step Hpos0.
  apply bind_Ok in H as ([] & sb & Hr2 & H). inv_step Hr2.
  apply bind_Ok in H as ([] & sb & Hr3 & H). inv_step Hr3.
  apply bind_Ok in H as ([] & s1 & Hup & H).
  apply bind_Ok in H as (pool & sb & Hrp & H). apply readPool_Ok in Hrp as (p & Hpool & [= -> ->]).
  apply bind_Ok in H as (position & sb & Hpos & H). inv_step Hpos.
  apply bind_Ok in H as (pending & sb & Hpe & H). apply lift_Ok in Hpe as (pend & Hpe & [= -> ->]).
  apply bind_Ok in H as ([] & s2 & Hset & H).
  apply bind_Ok in H as (amount' & sb & Ha & H). apply lift_Ok in Ha as (? & Ha & [= -> ->]).
  apply bind_Ok in H as (prod & sb & Hpr & H). apply lift_Ok in Hpr as (? & Hpr & [= -> ->]).
  apply bind_Ok in H as ([] & sb & Hwp & H). inv_step Hwp.
  apply bind_Ok in H as (staked' & sb & Hst & H). apply lift_Ok in Hst as (? & Hst & [= -> ->]).
  apply bind_Ok in H as ([] & sb & Hwl & H). inv_step Hwl.
  apply bind_Ok in H as ([] & s4 & Htr & H).
  inv_step H.
  assert (getPosition s1 pid (msg_sender env) = getPosition s pid (msg_sender env)) as Epos.
  { unfold getPosition. rewrite (accrued_userPositions _ _ (updatePool_accrued _ _ _ _ _ Hup)).
    reflexivity. }
  rewrite Epos in *.
  apply checked_sub_Ok in Ha as [-> Ha]. apply checked_mul_Ok in Hpr as [-> Hpr].
  apply checked_sub_Ok in Hst as [-> Hst].
  eexists s1, s2, _, p, pend. cbv zeta.
  split; [apply N.ltb_lt; assumption|].
  split; [apply N.leb_le; assumption|].
  split; [apply N.leb_le; assumption|].
  split; [exact Hup|]. split; [exact Hpool|]. split; [exact Hpe|]. split; [exact Hset|].
  split; [exact Hpr|]. split; [exact Hst|].
  split; [reflexivity|].
  exists s4. split; [exact Htr|reflexivity].
Qed.

Lemma emergencyWithdraw_inv env pid s u s' :
  emergencyWithdraw env pid s = Ok (u, s') ->
  exists pool s3,
    let position := getPosition s pid (msg_sender env) in
    let fee := amount position * emergencyWithdrawFee s / 10000 in
    pid < poolLength s /\
    poolInfo s !! N.to_nat pid = Some pool /\
    0 < amount position /\ isEmergencyWithdrawEnabled pool = true /\
    amount position * emergencyWithdrawFee s <= MAX_UINT256 /\
    fee <= amount position /\
    amount position <= totalStaked pool /\
    s3 = set_poolInfo
           (<[N.to_nat pid := set_totalStaked (totalStaked pool - amount position) pool]>
              (poolInfo s))
           (set_userPositions
              (<[(pid, msg_sender env) :=
                   mkPosition 0 (userLastRewardBlock position) 0 (lockEndTime position) false]>
                 (userPositions s)) s) /\
    exists s4,
      tokenTransfer (stakingToken pool) (this env) (msg_sender env)
        (amount position - fee) s3 = Ok (tt, s4) /\
      s' = set_events
             (events s4 ++ [EmergencyWithdraw (msg_sender env) pid (amount position - fee)]) s4.
Proof.
  intros H. unfold emergencyWithdraw in H.
  apply bind_Ok in H as (len & sb & Hl & H). inv_step Hl.
  apply bind_Ok in H as ([] & sb & Hr1 & H). inv_step Hr1.
  apply bind_Ok in H as (pool & sb & Hrp & H). apply readPool_Ok in Hrp as (p & Hpool & [= -> ->]).
  apply bind_Ok in H as (position & sb & Hpos & H). inv_step Hpos.
  apply bind_Ok in H as ([] & sb & Hr2 & H). inv_step Hr2.
  apply bind_Ok in H as ([] & sb & Hr3 & H). inv_step Hr3.
  apply bind_Ok in H as (fee_bps & sb & Hfe & H). inv_step Hfe.
  apply bind_Ok in H as (prod & sb & Hpr & H). apply lift_Ok in Hpr as (? & Hpr & [= -> ->]).
  apply bind_Ok in H as (aaf & sb & Ha & H). apply lift_Ok in Ha as (? & Ha & [= -> ->]).
  apply bind_Ok in H as ([] & sb & Hwp & H). inv_step Hwp.
  apply bind_Ok in H as (staked' & sb & Hst & H). apply lift_Ok in Hst as (? & Hst & [= -> ->]).
  apply bind_Ok in H as ([] & sb & Hwl & H). inv_step Hwl.
  apply bind_Ok in H as ([] & s4 & Htr & H).
  inv_step H.
  apply checked_mul_Ok in Hpr as [-> Hpr]. apply checked_sub_Ok in Ha as [-> Ha].
  apply checked_sub_Ok in Hst as [-> Hst].
  eexists p, _. cbv zeta.
  split; [apply N.ltb_lt; assumption|].
  split; [exact Hpool|].
  split; [apply N.ltb_lt; assumption|].
  split; [assumption|].
  split; [exact Hpr|]. split; [exact Ha|]. split; [exact Hst|].
  split; [reflexivity|].
  exists s4. split; [exact Htr|reflexivity].
Qed.

(** ** The ledger invariant, operation by operation *)

Lemma ledger_inv_same s s' :
  poolInfo s' = poolInfo s -> userPositions s' = userPositions s ->
  ledger_inv s -> ledger_inv s'.
Proof.
  intros Hp Hu [Hsum Hin]. split.
  - intros pid. rewrite Hp, Hu. apply Hsum.
  - rewrite Hu. exact Hin.
Qed.

Lemma ledger_inv_amount s pid user :
  ledger_inv s ->
  stakeOf pid (pid, user) (getPosition s pid user) = amount (getPosition s pid user).
Proof.
  intros [_ Hin]. unfold stakeOf, getPosition. cbn [fst]. rewrite N.eqb_refl.
  destruct (userPositions s !! (pid, user)) as [pos|] eqn:Hk; cbn; [|reflexivity].
  destruct (isActive pos) eqn:Ha; [reflexivity|].
  symmetry. eapply Hin; eassumption.
Qed.

Lemma ledger_inv_inactive s pid user :
  ledger_inv s -> isActive (getPosition s pid user) = false ->
  amount (getPosition s pid user) = 0.
Proof.
  intros [_ Hin]. unfold getPosition.
  destruct (userPositions s !! (pid, user)) as [pos|] eqn:Hk; cbn; [|reflexivity].
  apply (Hin _ _ Hk).
Qed.

(** A write to one position together with a write to its pool keeps the
    invariant when the two amounts move by the same difference. *)
Lemma ledger_inv_update s s' pid user pos' pool pool' :
  ledger_inv s ->
  poolInfo s !! N.to_nat pid = Some pool ->
  poolInfo s' = <[N.to_nat pid := pool']> (poolInfo s) ->
  userPositions s' = <[(pid, user) := pos']> (userPositions s) ->
  (isActive pos' = false -> amount pos' = 0) ->
  totalStaked pool' + amount (getPosition s pid user) = totalStaked pool + amount pos' ->
  ledger_inv s'.
Proof.
  intros Hinv Hpool Hp Hu Hact Hbal.
  pose proof (ledger_inv_amount s pid user Hinv) as Hold.
  destruct Hinv as [Hsum Hin]. split.
  - intros pid'. rewrite Hp, Hu.
    destruct (N.eq_dec pid' pid) as [->|Hne].
    + rewrite list_lookup_insert_eq by (apply lookup_lt_is_Some; eauto).
      pose proof (activeStake_insert pid (userPositions s) (pid, user) pos') as Hins.
      fold (getPosition s pid user) in Hins. rewrite Hold in Hins.
      specialize (Hsum pid). rewrite Hpool in Hsum.
      assert (stakeOf pid (pid, user) pos' = amount pos') as Hnew.
      { unfold stakeOf. cbn [fst]. rewrite N.eqb_refl. cbn.
        destruct (isActive pos'); [reflexivity|]. symmetry. apply Hact. reflexivity. }
      lia.
    + rewrite activeStake_insert_other by congruence.
      rewrite list_lookup_insert_ne by (intros E; apply Hne; lia).
      apply Hsum.
  - intros k pos. rewrite Hu. intros Hk Hfalse.
    destruct (decide (k = (pid, user))) as [->|Hne].
    + rewrite lookup_insert_eq in Hk. injection Hk as <-. apply Hact, Hfalse.
    + rewrite lookup_insert_ne in Hk by congruence. eapply Hin; eassumption.
Qed.

Lemma deposit_ledger_inv env pid amt s u s' :
  deposit env pid amt s = Ok (u, s') -> ledger_inv s -> ledger_inv s'.
Proof.
  intros H Hinv.
  apply deposit_inv in H as (s1 & s2 & s3 & pool & H). cbv zeta in H.
  destruct H as (_ & _ & _ & Hup & Hpool & Hset & Htr & _ & _ & _ & _ & ->).
  apply updatePool_accrued in Hup.
  pose proof (accrued_ledger_inv _ _ Hup Hinv) as Hinv1.
  assert (ledger_only s1 s2) as Hf0.
  { destruct (0 <? amount _).
    - destruct Hset as (pending & _ & Hs). eapply settle_frame; exact Hs.
    - subst s2. apply ledger_only_refl. }
  apply tokenTransfer_frame in Htr.
  pose proof (ledger_only_trans _ _ _ Hf0 Htr) as Hf.
  eapply (ledger_inv_update s1 _ pid (msg_sender env)); [exact Hinv1 | exact Hpool | | | | ].
  - cbn. rewrite (ledger_only_poolInfo _ _ Hf). reflexivity.
  - cbn. rewrite (ledger_only_userPositions _ _ Hf). reflexivity.
  - cbn. discriminate.
  - cbn. lia.
Qed.

Lemma withdraw_ledger_inv env pid amt s u s' :
  withdraw env pid amt s = Ok (u, s') -> ledger_inv s -> ledger_inv s'.
Proof.
  intros H Hinv.
  apply withdraw_inv in H as (s1 & s2 & s3 & pool & pending & H). cbv zeta in H.
  destruct H as (_ & Hamt & _ & Hup & Hpool & _ & Hset & _ & Hst & -> & s4 & Htr & ->).
  apply updatePool_accrued in Hup.
  pose proof (accrued_ledger_inv _ _ Hup Hinv) as Hinv1.
  assert (getPosition s1 pid (msg_sender env) = getPosition s pid (msg_sender env)) as Epos.
  { unfold getPosition. rewrite (accrued_userPositions _ _ Hup). reflexivity. }
  apply settle_frame in Hset. apply tokenTransfer_frame in Htr.
  pose proof (ledger_only_poolInfo _ _ Htr) as Hp4. cbn in Hp4.
  pose proof (ledger_only_userPositions _ _ Htr) as Hu4. cbn in Hu4.
  eapply (ledger_inv_update s1 _ pid (msg_sender env)); [exact Hinv1 | exact Hpool | | | | ].
  - cbn. rewrite Hp4, (ledger_only_poolInfo _ _ Hset). reflexivity.
  - cbn. rewrite Hu4, (ledger_only_userPositions _ _ Hset). reflexivity.
  - cbn. destruct (N.eqb_spec (amount (getPosition s pid (msg_sender env)) - amt) 0) as [E|E].
    + intros _. exact E.
    + intros Hfalse. rewrite <- Epos in Hfalse.
      pose proof (ledger_inv_inactive _ _ _ Hinv1 Hfalse) as Hz. rewrite Epos in Hz. lia.
  - cbn. rewrite Epos. lia.
Qed.

Lemma emergencyWithdraw_ledger_inv env pid s u s' :
  emergencyWithdraw env pid s = Ok (u, s') -> ledger_inv s -> ledger_inv s'.
Proof.
  intros H Hinv.
  apply emergencyWithdraw_inv in H as (pool & s3 & H). cbv zeta in H.
  destruct H as (_ & Hpool & _ & _ & _ & _ & Hst & -> & s4 & Htr & ->).
  apply tokenTransfer_frame in Htr.
  pose proof (ledger_only_poolInfo _ _ Htr) as Hp4. cbn in Hp4.
  pose proof (ledger_only_userPositions _ _ Htr) as Hu4. cbn in Hu4.
  eapply (ledger_inv_update s _ pid (msg_sender env)); [exact Hinv | exact Hpool | | | | ].
  - cbn. rewrite Hp4. reflexivity.
  - cbn. rewrite Hu4. reflexivity.
  - cbn. reflexivity.
  - cbn. lia.
Qed.

Lemma rebalancePosition_accrued env pid user newAmount s u s' :
  rebalancePosition env pid user newAmount s = Ok (u, s') ->
  exists s1, updatePool env pid s = Ok (tt, s1) /\
             s' = set_events (events s1 ++ [PositionRebalanced user pid newAmount])%list s1.
Proof.
  intros H. unfold rebalancePosition in H.
  apply bind_Ok in H as (auth & sb & Ha & H). inv_step Ha.
  apply bind_Ok in H as ([] & sb & Hr1 & H). inv_step Hr1.
  apply bind_Ok in H as (len & sb & Hl & H). inv_step Hl.
  apply bind_Ok in H as ([] & sb & Hr2 & H). inv_step Hr2.
  apply bind_Ok in H as (position & sb & Hpos & H). inv_step Hpos.
  apply bind_Ok in H as ([] & sb & Hr3 & H). inv_step Hr3.
  apply bind_Ok in H as ([] & s1 & Hup & H). inv_step H.
  exists s1. split; [exact Hup | reflexivity].
Qed.

Lemma addPool_inv env st rt ap lp s u s' :
  addPool env st rt ap lp s = Ok (u, s') ->
  exists s1, massUpdatePools env s = Ok (tt, s1) /\
    poolInfo s' = (poolInfo s1 ++ [mkPoolInfo st rt ap (block_number env) 0 0 lp false])%list /\
    userPositions s' = userPositions s1.
Proof.
  intros H. unfold addPool in H.
  apply bind_Ok in H as ([] & sb & Ho & H). inv_step Ho.
  apply bind_Ok in H as ([] & sb & Hr1 & H). inv_step Hr1.
  apply bind_Ok in H as ([] & sb & Hr2 & H). inv_step Hr2.
  apply bind_Ok in H as ([] & s1 & Hup & H).
  apply bind_Ok in H as (tap & sb & Ht & H). inv_step Ht.
  apply bind_Ok in H as (tap' & sb & Ht' & H). apply lift_Ok in Ht' as (? & Ht' & [= -> ->]).
  apply bind_Ok in H as ([] & sb & Hm1 & H). inv_step Hm1.
  apply bind_Ok in H as ([] & sb & Hm2 & H). inv_step Hm2.
  apply bind_Ok in H as (len & sb & Hl & H). inv_step Hl.
  apply bind_Ok in H as (idx & sb & Hi & H). apply lift_Ok in Hi as (? & Hi & [= -> ->]).
  inv_step H.
  exists s1. split; [exact Hup|]. split; reflexivity.
Qed.

Lemma toggleEmergencyWithdraw_inv env pid b s u s' :
  toggleEmergencyWithdraw env pid b s = Ok (u, s') ->
  exists pool, poolInfo s !! N.to_nat pid = Some pool /\
    s' = set_poolInfo (<[N.to_nat pid := set_isEmergencyWithdrawEnabled b pool]> (poolInfo s)) s.
Proof.
  intros H. unfold toggleEmergencyWithdraw in H.
  apply bind_Ok in H as ([] & sb & Ho & H). inv_step Ho.
  apply bind_Ok in H as (pool & sb & Hrp & H). apply readPool_Ok in Hrp as (p & Hpool & [= -> ->]).
  inv_step H. exists p. split; [exact Hpool | reflexivity].
Qed.

(** Every call that only touches policy values, balances or events. *)
Lemma policy_calls_frame env c s u s' :
  match c with
  | CSetEmergencyWithdrawFee _ | CSetAuthorizedRebalancer _ _ | CPause | CUnpause
  | CTransferOwnership _ | CRenounceOwnership | CTokenTransfer _ _ _ | CTokenMint _ _ _ => True
  | _ => False
  end ->
  dispatch env c s = Ok (u, s') ->
  poolInfo s' = poolInfo s /\ userPositions s' = userPositions s.
Proof.
  destruct c; try contradiction; intros _ H; cbn [dispatch] in H.
  - unfold setEmergencyWithdrawFee in H. inv_step H. split; reflexivity.
  - unfold setAuthorizedRebalancer in H. inv_step H. split; reflexivity.
  - unfold pause in H. inv_step H. split; reflexivity.
  - unfold unpause in H. inv_step H. split; reflexivity.
  - unfold transferOwnership in H. inv_step H. split; reflexivity.
  - unfold renounceOwnership in H. inv_step H. split; reflexivity.
  - apply bind_Ok in H as ([] & sb & Hr & H). inv_step Hr.
    apply tokenTransfer_frame in H.
    split; [apply (ledger_only_poolInfo _ _ H) | apply (ledger_only_userPositions _ _ H)].
  - inv_step H. split; reflexivity.
Qed.

Lemma setRewardPerBlock_inv env v s u s' :
  setRewardPerBlock env v s = Ok (u, s') ->
  exists s1, massUpdatePools env s = Ok (tt, s1) /\ s' = set_rewardPerBlock v s1.
Proof.
  intros H. unfold setRewardPerBlock in H.
  apply bind_Ok in H as ([] & sb & Ho & H). inv_step Ho.
  apply bind_Ok in H as ([] & s1 & Hup & H). inv_step H.
  exists s1. split; [exact Hup | reflexivity].
Qed.

Lemma dispatch_ledger_inv env c s u s' :
  dispatch env c s = Ok (u, s') -> ledger_inv s -> ledger_inv s'.
Proof.
  intros H Hinv.
  destruct c;
    try (match type of H with
         | dispatch _ ?c' _ = _ =>
             destruct (policy_calls_frame env c' s u s' I H) as [Hp Hu]
         end;
         exact (ledger_inv_same _ _ Hp Hu Hinv));
    cbn [dispatch] in H.
  - apply addPool_inv in H as (s1 & Hup & Hp & Hu).
    apply massUpdatePools_accrued in Hup.
    pose proof (accrued_ledger_inv _ _ Hup Hinv) as [Hsum Hin]. split.
    + intros pid. rewrite Hp, Hu, Hsum.
      destruct (poolInfo s1 !! N.to_nat pid) as [p|] eqn:E.
      * rewrite (lookup_app_l_Some _ _ _ _ E). reflexivity.
      * apply lookup_ge_None in E.
        rewrite lookup_app_r by exact E.
        destruct (N.to_nat pid - length (poolInfo s1))%nat as [|k]; cbn; [reflexivity|].
        reflexivity.
    + rewrite Hu. exact Hin.
  - eapply deposit_ledger_inv; eassumption.
  - eapply withdraw_ledger_inv; eassumption.
  - eapply emergencyWithdraw_ledger_inv; eassumption.
  - apply rebalancePosition_accrued in H as (s1 & Hup & ->).
    apply updatePool_accrued in Hup.
    eapply (ledger_inv_same s1); [reflexivity | reflexivity |].
    eapply accrued_ledger_inv; eassumption.
  - destruct u. eapply accrued_ledger_inv; [eapply massUpdatePools_accrued; exact H | exact Hinv].
  - eapply accrued_ledger_inv; [eapply updatePool_accrued; exact H | exact Hinv].
  - apply setRewardPerBlock_inv in H as (s1 & Hup & ->).
    eapply (ledger_inv_same s1); [reflexivity | reflexivity |].
    eapply accrued_ledger_inv; [eapply massUpdatePools_accrued; exact Hup | exact Hinv].
  - apply toggleEmergencyWithdraw_inv in H as (pool & Hpool & ->).
    destruct Hinv as [Hsum Hin]. split; [|exact Hin].
    intros pid. cbn [poolInfo userPositions set_poolInfo]. rewrite Hsum.
    destruct (decide (N.to_nat pid = N.to_nat _pid)) as [E|E].
    + rewrite E, Hpool.
      rewrite list_lookup_insert_eq by (apply lookup_lt_is_Some; eauto). reflexivity.
    + rewrite list_lookup_insert_ne by congruence. reflexivity.
Qed.

Lemma exec_ledger_inv env c s : ledger_inv s -> ledger_inv (exec env c s).
Proof.
  intros Hinv. unfold exec.
  destruct (dispatch env c s) as [[u s']|e] eqn:H; [|exact Hinv].
  eapply dispatch_ledger_inv; eassumption.
Qed.

Lemma run_ledger_inv tr : forall s, ledger_inv s -> ledger_inv (run tr s).
Proof.
  induction tr as [|[env c] tr IH]; intros s Hinv; cbn [run]; [exact Hinv|].
  apply IH, exec_ledger_inv, Hinv.
Qed.

Lemma constructor_ledger_inv deployer : ledger_inv (constructor deployer).
Proof.
  split.
  - intros pid. cbn. rewrite activeStake_empty.
    rewrite lookup_nil. reflexivity.
  - intros k pos. cbn. rewrite lookup_empty. discriminate.
Qed.

(** C2: in every state reached from the constructor by any sequence of
    calls, the [totalStaked] of every pool is the sum of [amount] over the
    active positions of that pool. *)
Theorem totalStaked_is_active_stake s pid pool :
  reachable s ->
  poolInfo s !! N.to_nat pid = Some pool ->
  totalStaked pool = activeStake pid (userPositions s).
Proof.
  intros (deployer & tr & ->) Hpool.
  destruct (run_ledger_inv tr _ (constructor_ledger_inv deployer)) as [Hsum _].
  rewrite Hsum, Hpool. reflexivity.
Qed.

(** ** The accumulator never goes down *)

Lemma acc_mono_refl s : acc_mono s s.
Proof. intros i p Hp. exists p. split; [exact Hp | lia]. Qed.

Lemma acc_mono_trans s1 s2 s3 : acc_mono s1 s2 -> acc_mono s2 s3 -> acc_mono s1 s3.
Proof.
  intros H12 H23 i p Hp.
  destruct (H12 i p Hp) as (p2 & Hp2 & Hle2).
  destruct (H23 i p2 Hp2) as (p3 & Hp3 & Hle3).
  exists p3. split; [exact Hp3 | lia].
Qed.

Lemma acc_mono_same s s' : poolInfo s' = poolInfo s -> acc_mono s s'.
Proof. intros E i p Hp. exists p. rewrite E. split; [exact Hp | lia]. Qed.

Lemma acc_mono_write s s' i pool pool' :
  poolInfo s !! i = Some pool ->
  poolInfo s' = <[i := pool']> (poolInfo s) ->
  accRewardPerShare pool <= accRewardPerShare pool' ->
  acc_mono s s'.
Proof.
  intros Hpool E Hle j p Hp. rewrite E.
  destruct (decide (j = i)) as [->|Hne].
  - exists pool'. rewrite list_lookup_insert_eq by (apply lookup_lt_is_Some; eauto).
    split; [reflexivity|]. rewrite Hpool in Hp. injection Hp as <-. exact Hle.
  - exists p. rewrite list_lookup_insert_ne by congruence. split; [exact Hp | lia].
Qed.

Lemma dispatch_acc_mono env c s u s' :
  dispatch env c s = Ok (u, s') -> acc_mono s s'.
Proof.
  intros H.
  destruct c;
    try (match type of H with
         | dispatch _ ?c' _ = _ =>
             destruct (policy_calls_frame env c' s u s' I H) as [Hp Hu]
         end;
         exact (acc_mono_same _ _ Hp));
    cbn [dispatch] in H.
  - apply addPool_inv in H as (s1 & Hup & Hp & Hu).
    apply massUpdatePools_accrued, accrued_acc_mono in Hup.
    eapply acc_mono_trans; [exact Hup|].
    intros i p Hi. exists p. rewrite Hp.
    split; [apply lookup_app_l_Some; exact Hi | lia].
  - apply deposit_inv in H as (s1 & s2 & s3 & pool & H). cbv zeta in H.
    destruct H as (_ & _ & _ & Hup & Hpool & Hset & Htr & _ & _ & _ & _ & ->).
    apply updatePool_accrued, accrued_acc_mono in Hup.
    eapply acc_mono_trans; [exact Hup|].
    assert (ledger_only s1 s2) as Hf0.
    { destruct (0 <? amount _).
      - destruct Hset as (pending & _ & Hs). eapply settle_frame; exact Hs.
      - subst s2. apply ledger_only_refl. }
    apply tokenTransfer_frame in Htr.
    pose proof (ledger_only_trans _ _ _ Hf0 Htr) as Hf.
    eapply acc_mono_write; [exact Hpool | | ].
    + cbn. rewrite (ledger_only_poolInfo _ _ Hf). reflexivity.
    + cbn. lia.
  - apply withdraw_inv in H as (s1 & s2 & s3 & pool & pending & H). cbv zeta in H.
    destruct H as (_ & _ & _ & Hup & Hpool & _ & Hset & _ & _ & -> & s4 & Htr & ->).
    apply updatePool_accrued, accrued_acc_mono in Hup.
    eapply acc_mono_trans; [exact Hup|].
    apply settle_frame in Hset. apply tokenTransfer_frame in Htr.
    pose proof (ledger_only_poolInfo _ _ Htr) as Hp4. cbn in Hp4.
    eapply acc_mono_write; [exact Hpool | | ].
    + cbn. rewrite Hp4, (ledger_only_poolInfo _ _ Hset). reflexivity.
    + cbn. lia.
  - apply emergencyWithdraw_inv in H as (pool & s3 & H). cbv zeta in H.
    destruct H as (_ & Hpool & _ & _ & _ & _ & _ & -> & s4 & Htr & ->).
    apply tokenTransfer_frame in Htr.
    pose proof (ledger_only_poolInfo _ _ Htr) as Hp4. cbn in Hp4.
    eapply acc_mono_write; [exact Hpool | | ].
    + cbn. rewrite Hp4. reflexivity.
    + cbn. lia.
  - apply rebalancePosition_accrued in H as (s1 & Hup & ->).
    apply updatePool_accrued, accrued_acc_mono in Hup.
    eapply acc_mono_trans; [exact Hup|]. apply acc_mono_same. reflexivity.
  - apply massUpdatePools_accrued, accrued_acc_mono in H. exact H.
  - apply updatePool_accrued, accrued_acc_mono in H. exact H.
  - apply setRewardPerBlock_inv in H as (s1 & Hup & ->).
    apply massUpdatePools_accrued, accrued_acc_mono in Hup.
    eapply acc_mono_trans; [exact Hup|]. apply acc_mono_same. reflexivity.
  - apply toggleEmergencyWithdraw_inv in H as (pool & Hpool & ->).
    eapply acc_mono_write; [exact Hpool | reflexivity | cbn; lia].
Qed.

Lemma exec_acc_mono env c s : acc_mono s (exec env c s).
Proof.
  unfold exec. destruct (dispatch env c s) as [[u s']|e] eqn:H.
  - eapply dispatch_acc_mono; exact H.
  - apply acc_mono_refl.
Qed.

(** C3: across any sequence of calls, from any state, the
    [accRewardPerShare] of a pool that exists is still there afterwards
    and is not smaller than before. *)
Theorem accRewardPerShare_never_decreases tr s i p :
  poolInfo s !! i = Some p ->
  exists p', poolInfo (run tr s) !! i = Some p' /\
             accRewardPerShare p <= accRewardPerShare p'.
Proof.
  revert s i p. change (forall s, acc_mono s (run tr s)).
  induction tr as [|[env c] tr IH]; intros s; cbn [run].
  - apply acc_mono_refl.
  - eapply acc_mono_trans; [apply exec_acc_mono | apply IH].
Qed.

(** ** Facts of reachable states *)

Lemma ledger_inv_staked_ge s pid user pool :
  ledger_inv s -> poolInfo s !! N.to_nat pid = Some pool ->
  amount (getPosition s pid user) <= totalStaked pool.
Proof.
  intros Hinv Hpool.
  pose proof (ledger_inv_amount s pid user Hinv) as Hold.
  destruct Hinv as [Hsum _]. specialize (Hsum pid). rewrite Hpool in Hsum.
  unfold getPosition in *.
  destruct (userPositions s !! (pid, user)) as [pos|] eqn:Hk;
    cbn [default from_option id] in *; [|cbn; lia].
  rewrite (activeStake_delete pid _ _ _ Hk) in Hsum. lia.
Qed.

Lemma reachable_ledger_inv s : reachable s -> ledger_inv s.
Proof.
  intros (deployer & tr & ->).
  apply run_ledger_inv, constructor_ledger_inv.
Qed.

Lemma accrued_fee s s' : accrued s s' -> emergencyWithdrawFee s' = emergencyWithdrawFee s.
Proof. intros [_ ->]. reflexivity. Qed.

Lemma ledger_only_fee s s' :
  ledger_only s s' -> emergencyWithdrawFee s' = emergencyWithdrawFee s.
Proof. intros ->. reflexivity. Qed.

Lemma dispatch_fee env c s u s' :
  dispatch env c s = Ok (u, s') ->
  emergencyWithdrawFee s <= MAX_FEE -> emergencyWithdrawFee s' <= MAX_FEE.
Proof.
  intros H Hfee. destruct c; cbn [dispatch] in H.
  - unfold addPool in H.
    apply bind_Ok in H as ([] & sb & Ho & H). inv_step Ho.
    apply bind_Ok in H as ([] & sb & Hr1 & H). inv_step Hr1.
    apply bind_Ok in H as ([] & sb & Hr2 & H). inv_step Hr2.
    apply bind_Ok in H as ([] & s1 & Hup & H).
    apply massUpdatePools_accrued, accrued_fee in Hup.
    inv_step H. cbn. rewrite Hup. exact Hfee.
  - apply deposit_inv in H as (s1 & s2 & s3 & pool & H). cbv zeta in H.
    destruct H as (_ & _ & _ & Hup & Hpool & Hset & Htr & _ & _ & _ & _ & ->).
    apply updatePool_accrued, accrued_fee in Hup.
    assert (ledger_only s1 s2) as Hf0.
    { destruct (0 <? amount _).
      - destruct Hset as (pending & _ & Hs). eapply settle_frame; exact Hs.
      - subst s2. apply ledger_only_refl. }
    apply tokenTransfer_frame in Htr.
    cbn. rewrite (ledger_only_fee _ _ Htr), (ledger_only_fee _ _ Hf0), Hup. exact Hfee.
  - apply withdraw_inv in H as (s1 & s2 & s3 & pool & pending & H). cbv zeta in H.
    destruct H as (_ & _ & _ & Hup & Hpool & _ & Hset & _ & _ & -> & s4 & Htr & ->).
    apply updatePool_accrued, accrued_fee in Hup.
    apply settle_frame, ledger_only_fee in Hset.
    apply tokenTransfer_frame, ledger_only_fee in Htr. cbn in Htr.
    cbn. rewrite Htr, Hset, Hup. exact Hfee.
  - apply emergencyWithdraw_inv in H as (pool & s3 & H). cbv zeta in H.
    destruct H as (_ & Hpool & _ & _ & _ & _ & _ & -> & s4 & Htr & ->).
    apply tokenTransfer_frame, ledger_only_fee in Htr. cbn in Htr.
    cbn. rewrite Htr. exact Hfee.
  - apply rebalancePosition_accrued in H as (s1 & Hup & ->).
    apply updatePool_accrued, accrued_fee in Hup. cbn. rewrite Hup. exact Hfee.
  - apply massUpdatePools_accrued, accrued_fee in H. rewrite H. exact Hfee.
  - apply updatePool_accrued, accrued_fee in H. rewrite H. exact Hfee.
  - apply setRewardPerBlock_inv in H as (s1 & Hup & ->).
    apply massUpdatePools_accrued, accrued_fee in Hup. cbn. rewrite Hup. exact Hfee.
  - unfold setEmergencyWithdrawFee in H. inv_step H. cbn. apply N.leb_le. assumption.
  - apply toggleEmergencyWithdraw_inv in H as (pool & Hpool & ->). exact Hfee.
  - unfold setAuthorizedRebalancer in H. inv_step H. exact Hfee.
  - unfold pause in H. inv_step H. exact Hfee.
  - unfold unpause in H. inv_step H. exact Hfee.
  - unfold transferOwnership in H. inv_step H. exact Hfee.
  - unfold renounceOwnership in H. inv_step H. exact Hfee.
  - apply bind_Ok in H as ([] & sb & Hr & H). inv_step Hr.
    apply tokenTransfer_frame, ledger_only_fee in H. rewrite H. exact Hfee.
  - inv_step H. exact Hfee.
Qed.

Lemma reachable_fee s : reachable s -> emergencyWithdrawFee s <= MAX_FEE.
Proof.
  intros (deployer & tr & ->).
  assert (emergencyWithdrawFee (constructor deployer) <= MAX_FEE) as H0
    by (cbn; unfold MAX_FEE; lia).
  revert H0. generalize (constructor deployer).
  induction tr as [|[env c] tr IH]; intros s H0; cbn [run]; [exact H0|].
  apply IH. unfold exec.
  destruct (dispatch env c s) as [[u s']|e] eqn:H; [|exact H0].
  eapply dispatch_fee; eassumption.
Qed.

(** ** Running forwards *)

Lemma bind_eq {A B} (m : M A) (k : A -> M B) s a s1 :
  m s = Ok (a, s1) -> bind m k s = k a s1.
Proof. intros H. unfold bind. rewrite H. reflexivity. Qed.

Lemma lookup_poolLength s pid pool :
  poolInfo s !! N.to_nat pid = Some pool -> (pid <? poolLength s) = true.
Proof.
  intros H. apply N.ltb_lt. unfold poolLength.
  assert (N.to_nat pid < length (poolInfo s))%nat by (apply lookup_lt_is_Some; eauto).
  lia.
Qed.

Lemma tokenTransfer_eq token from to amt s :
  amt <= balanceOf s token from ->
  tokenTransfer token from to amt s =
    Ok (tt, set_balances (moveTokens token from to amt (balances s)) s).
Proof. intros H. unfold tokenTransfer. apply N.leb_le in H. rewrite H. reflexivity. Qed.

Lemma moveTokens_to (token from to amt : N) (bal : gmap (address * address) N) :
  from <> to ->
  default 0 (moveTokens token from to amt bal !! (token, to))
  = default 0 (bal !! (token, to)) + amt.
Proof.
  intros Hne. unfold moveTokens. cbv zeta.
  rewrite lookup_insert_eq. cbn.
  rewrite lookup_insert_ne by congruence. reflexivity.
Qed.

Lemma moveTokens_from (token from to amt : N) (bal : gmap (address * address) N) :
  from <> to ->
  default 0 (moveTokens token from to amt bal !! (token, from))
  = default 0 (bal !! (token, from)) - amt.
Proof.
  intros Hne. unfold moveTokens. cbv zeta.
  rewrite lookup_insert_ne by congruence.
  rewrite lookup_insert_eq. reflexivity.
Qed.

(** C4: in a reachable state, on a pool with the emergency path enabled
    and a position that holds something, [emergencyWithdraw] succeeds
    (given that [amount * fee] fits in 256 bits and the custody covers the
    payout) whatever the lock time, the block and the accrued reward are.
    It moves [amount - amount * fee / 10000] of the staking token from the
    contract to the caller, leaves the position with amount 0, reward debt
    0 and not active, takes the whole amount off [totalStaked] without
    touching the accumulator, and logs one event, [EmergencyWithdraw], with
    the amount after the fee. *)
Theorem emergencyWithdraw_pays env s pid pool :
  let position := getPosition s pid (msg_sender env) in
  let fee := amount position * emergencyWithdrawFee s / 10000 in
  let paid := amount position - fee in
  reachable s ->
  poolInfo s !! N.to_nat pid = Some pool ->
  isEmergencyWithdrawEnabled pool = true ->
  0 < amount position ->
  amount position * emergencyWithdrawFee s <= MAX_UINT256 ->
  paid <= balanceOf s (stakingToken pool) (this env) ->
  exists s',
    emergencyWithdraw env pid s = Ok (tt, s') /\
    getPosition s' pid (msg_sender env) =
      mkPosition 0 (userLastRewardBlock position) 0 (lockEndTime position) false /\
    poolInfo s' !! N.to_nat pid =
      Some (mkPoolInfo (stakingToken pool) (rewardToken pool) (allocPoint pool)
              (lastRewardBlock pool) (accRewardPerShare pool)
              (totalStaked pool - amount position)
              (minLockPeriod pool) (isEmergencyWithdrawEnabled pool)) /\
    amount position <= totalStaked pool /\
    events s' = (events s ++ [EmergencyWithdraw (msg_sender env) pid paid])%list /\
    balances s' =
      moveTokens (stakingToken pool) (this env) (msg_sender env) paid (balances s) /\
    (msg_sender env <> this env ->
       balanceOf s' (stakingToken pool) (msg_sender env)
       = balanceOf s (stakingToken pool) (msg_sender env) + paid /\
       balanceOf s' (stakingToken pool) (this env)
       = balanceOf s (stakingToken pool) (this env) - paid).
Proof.
  intros position fee paid Hreach Hpool Hen Hpos Hmul Hbal.
  subst paid fee position. set (position := getPosition s pid (msg_sender env)) in *.
  pose proof (reachable_fee s Hreach) as Hfee. unfold MAX_FEE in Hfee.
  pose proof (ledger_inv_staked_ge s pid (msg_sender env) pool
                (reachable_ledger_inv s Hreach) Hpool) as Hge.
  fold position in Hge.
  assert (amount position * emergencyWithdrawFee s / 10000 <= amount position) as Hfle.
  { apply N.Div0.div_le_upper_bound. nia. }
  assert (Hlt : (N.to_nat pid < length (poolInfo s))%nat)
    by (apply lookup_lt_is_Some; eauto).
  eexists. split.
  - unfold emergencyWithdraw.
    rewrite (bind_eq _ _ s (poolLength s) s) by reflexivity.
    rewrite (lookup_poolLength s pid pool Hpool).
    rewrite (bind_eq _ _ s tt s) by reflexivity.
    rewrite (bind_eq _ _ s pool s) by (unfold readPool; rewrite Hpool; reflexivity).
    rewrite (bind_eq _ _ s position s) by reflexivity.
    apply N.ltb_lt in Hpos. rewrite Hpos.
    rewrite (bind_eq _ _ s tt s) by reflexivity.
    rewrite Hen.
    rewrite (bind_eq _ _ s tt s) by reflexivity.
    rewrite (bind_eq _ _ s (emergencyWithdrawFee s) s) by reflexivity.
    rewrite (bind_eq _ _ s (amount position * emergencyWithdrawFee s) s)
      by (unfold lift; rewrite (proj2 (checked_mul_Ok _ _ _) (conj eq_refl Hmul)); reflexivity).
    rewrite (bind_eq _ _ s (amount position
                            - amount position * emergencyWithdrawFee s / 10000) s)
      by (unfold lift; rewrite (proj2 (checked_sub_Ok _ _ _) (conj eq_refl Hfle)); reflexivity).
    erewrite bind_eq by reflexivity.
    erewrite bind_eq
      by (unfold lift; rewrite (proj2 (checked_sub_Ok _ _ _) (conj eq_refl Hge)); reflexivity).
    erewrite bind_eq by reflexivity.
    erewrite bind_eq by (unfold safeTransfer; apply tokenTransfer_eq; exact Hbal).
    reflexivity.
  - cbn [events balances poolInfo userPositions set_events set_balances set_poolInfo
         set_userPositions].
    split; [unfold getPosition; cbn; rewrite lookup_insert_eq; reflexivity|].
    split; [rewrite list_lookup_insert_eq by exact Hlt; reflexivity|].
    split; [exact Hge|].
    split; [reflexivity|]. split; [reflexivity|].
    intros Hne. unfold balanceOf. cbn.
    rewrite moveTokens_to by congruence. rewrite moveTokens_from by congruence.
    split; reflexivity.
Qed.

(** ** Reward settlement *)

Lemma safeRewardTransfer_eq env token to amt s :
  safeRewardTransfer env token to amt s =
    Ok (tt, set_balances
              (moveTokens token (this env) to
                 (N.min amt (balanceOf s token (this env))) (balances s)) s).
Proof.
  unfold safeRewardTransfer.
  rewrite (bind_eq _ _ s (balanceOf s token (this env)) s) by reflexivity.
  unfold safeTransfer.
  destruct (N.ltb_spec (balanceOf s token (this env)) amt) as [Hlt|Hge].
  - rewrite tokenTransfer_eq by lia. rewrite N.min_r by lia. reflexivity.
  - rewrite tokenTransfer_eq by lia. rewrite N.min_l by lia. reflexivity.
Qed.

Lemma settle_eq env pid pool pending s :
  settle env pid pool pending s =
    Ok (tt,
        if 0 <? pending then
          set_events (events s ++ [RewardClaimed (msg_sender env) pid pending])
            (set_balances
               (moveTokens (rewardToken pool) (this env) (msg_sender env)
                  (N.min pending (balanceOf s (rewardToken pool) (this env)))
                  (balances s)) s)
        else s).
Proof.
  unfold settle. destruct (0 <? pending); [|reflexivity].
  erewrite bind_eq by apply safeRewardTransfer_eq. reflexivity.
Qed.

Lemma accrued_balances s s' : accrued s s' -> balances s' = balances s.
Proof. intros [_ ->]. reflexivity. Qed.

Lemma accrued_events s s' : accrued s s' -> events s' = events s.
Proof. intros [_ ->]. reflexivity. Qed.

(** ** The pause flag *)

Lemma pause_blind_ret {A} (a : A) : pause_blind (ret a).
Proof. intros b s. reflexivity. Qed.

Lemma pause_blind_bind {A B} (m : M A) (k : A -> M B) :
  pause_blind m -> (forall a, pause_blind (k a)) -> pause_blind (bind m k).
Proof.
  intros Hm Hk b s. unfold bind. rewrite Hm.
  destruct (m s) as [[a s1]|e]; [apply Hk | reflexivity].
Qed.

Lemma pause_blind_lift {A} (r : result A) : pause_blind (lift r).
Proof. intros b s. unfold lift. destruct r; reflexivity. Qed.

Lemma pause_blind_require c msg : pause_blind (require c msg).
Proof. intros b s. destruct c; reflexivity. Qed.

Lemma pause_blind_gets {A} (f : State -> A) :
  (forall b s, f (set_paused b s) = f s) -> pause_blind (gets f).
Proof. intros Hf b s. unfold gets. rewrite Hf. reflexivity. Qed.

Lemma pause_blind_modify (f : State -> State) :
  (forall b s, f (set_paused b s) = set_paused b (f s)) -> pause_blind (modify f).
Proof. intros Hf b s. unfold modify. rewrite Hf. reflexivity. Qed.

Lemma pause_blind_if {A} (c : bool) (m1 m2 : M A) :
  pause_blind m1 -> pause_blind m2 -> pause_blind (if c then m1 else m2).
Proof. destruct c; auto. Qed.

Lemma pause_blind_readPool pid : pause_blind (readPool pid).
Proof.
  intros b s. unfold readPool. cbn [poolInfo set_paused].
  destruct (poolInfo s !! N.to_nat pid); reflexivity.
Qed.

Lemma pause_blind_tokenTransfer token from to amt :
  pause_blind (tokenTransfer token from to amt).
Proof.
  intros b s. unfold tokenTransfer, balanceOf. cbn [balances set_paused].
  destruct (amt <=? _); reflexivity.
Qed.

Create HintDb pause_blind.
#[local] Hint Resolve pause_blind_ret pause_blind_lift pause_blind_require
  pause_blind_readPool pause_blind_tokenTransfer : pause_blind.

Ltac pause_blind_step :=
  first
    [ solve [auto with pause_blind]
    | apply pause_blind_gets; intros; reflexivity
    | apply pause_blind_modify; intros; reflexivity
    | apply pause_blind_bind; [|intros ?]
    | apply pause_blind_if ].

Lemma pause_blind_updatePool env pid : pause_blind (updatePool env pid).
Proof. unfold updatePool, writePool. repeat pause_blind_step. Qed.

Lemma pause_blind_settle env pid pool pending : pause_blind (settle env pid pool pending).
Proof.
  unfold settle, safeRewardTransfer, safeTransfer, emit. repeat pause_blind_step.
Qed.

Lemma pause_blind_withdraw env pid amt : pause_blind (withdraw env pid amt).
Proof.
  pose proof pause_blind_updatePool. pose proof pause_blind_settle.
  unfold withdraw, readPosition, writePosition, writePool, safeTransfer, emit.
  repeat pause_blind_step.
Qed.

Lemma pause_blind_emergencyWithdraw env pid : pause_blind (emergencyWithdraw env pid).
Proof.
  unfold emergencyWithdraw, readPosition, writePosition, writePool, safeTransfer, emit.
  repeat pause_blind_step.
Qed.

Lemma set_paused_id s : set_paused (paused s) s = s.
Proof. destruct s; reflexivity. Qed.

(** C6: while the contract is paused, [deposit] reverts with the pause
    error, whatever its arguments, and the transaction leaves the state as
    it was.  [withdraw] and [emergencyWithdraw] do not look at the flag:
    with the flag set either way they give the same error or the same
    result, the flag itself staying as it was. *)
Theorem pause_blocks_deposit_only env pid amt s :
  paused s = true ->
  deposit env pid amt s = Revert (RequireFailed "Pausable: paused") /\
  exec env (CDeposit pid amt) s = s /\
  (forall b,
     withdraw env pid amt (set_paused b s) =
       match withdraw env pid amt s with
       | Ok (u, s') => Ok (u, set_paused b s')
       | Revert e => Revert e
       end) /\
  (forall b,
     emergencyWithdraw env pid (set_paused b s) =
       match emergencyWithdraw env pid s with
       | Ok (u, s') => Ok (u, set_paused b s')
       | Revert e => Revert e
       end) /\
  exec env (CWithdraw pid amt) s
    = set_paused true (exec env (CWithdraw pid amt) (set_paused false s)) /\
  exec env (CEmergencyWithdraw pid) s
    = set_paused true (exec env (CEmergencyWithdraw pid) (set_paused false s)).
Proof.
  intros Hp.
  assert (deposit env pid amt s = Revert (RequireFailed "Pausable: paused")) as Hdep.
  { unfold deposit, whenNotPaused, bind, gets. rewrite Hp. reflexivity. }
  split; [exact Hdep|].
  split; [unfold exec; cbn [dispatch]; rewrite Hdep; reflexivity|].
  split; [intros b; apply pause_blind_withdraw|].
  split; [intros b; apply pause_blind_emergencyWithdraw|].
  split.
  - unfold exec. cbn [dispatch]. rewrite pause_blind_withdraw.
    destruct (withdraw env pid amt s) as [[u s']|e] eqn:E.
    + pose proof (pause_blind_withdraw env pid amt true s) as H.
      rewrite E in H. rewrite <- Hp in H at 1. rewrite set_paused_id in H.
      rewrite E in H. injection H as H. rewrite H at 1. destruct s'; reflexivity.
    + rewrite <- Hp. destruct s; reflexivity.
  - unfold exec. cbn [dispatch]. rewrite pause_blind_emergencyWithdraw.
    destruct (emergencyWithdraw env pid s) as [[u s']|e] eqn:E.
    + pose proof (pause_blind_emergencyWithdraw env pid true s) as H.
      rewrite E in H. rewrite <- Hp in H at 1. rewrite set_paused_id in H.
      rewrite E in H. injection H as H. rewrite H at 1. destruct s'; reflexivity.
    + rewrite <- Hp. destruct s; reflexivity.
Qed.

(** ** Deposit, then withdraw *)

Lemma withdraw_intro env pid amt s s1 s2 pool pending :
  let position := getPosition s pid (msg_sender env) in
  let amount' := amount position - amt in
  pid < poolLength s ->
  amt <= amount position ->
  lockEndTime position <= block_timestamp env ->
  updatePool env pid s = Ok (tt, s1) ->
  poolInfo s1 !! N.to_nat pid = Some pool ->
  pendingOf position pool = Ok pending ->
  settle env pid pool pending s1 = Ok (tt, s2) ->
  amount' * accRewardPerShare pool <= MAX_UINT256 ->
  amt <= totalStaked pool ->
  amt <= balanceOf s2 (stakingToken pool) (this env) ->
  withdraw env pid amt s =
    Ok (tt,
        set_events (events s2 ++ [Withdraw (msg_sender env) pid amt])
          (set_balances
             (moveTokens (stakingToken pool) (this env) (msg_sender env) amt (balances s2))
             (set_poolInfo
                (<[N.to_nat pid := set_totalStaked (totalStaked pool - amt) pool]> (poolInfo s2))
                (set_userPositions
                   (<[(pid, msg_sender env) :=
                        mkPosition amount' (userLastRewardBlock position)
                          (amount' * accRewardPerShare pool / PRECISION)
                          (lockEndTime position)
                          (if amount' =? 0 then false else isActive position)]>
                      (userPositions s2)) s2)))).
Proof.
  intros position amount' Hlt Hamt Hlock Hup Hpool Hpe Hset Hmul Hst Hbal.
  subst amount' position.
  assert (getPosition s1 pid (msg_sender env) = getPosition s pid (msg_sender env)) as Epos.
  { unfold getPosition. rewrite (accrued_userPositions _ _ (updatePool_accrued _ _ _ _ _ Hup)).
    reflexivity. }
  unfold withdraw.
  rewrite (bind_eq _ _ s (poolLength s) s) by reflexivity.
  apply N.ltb_lt in Hlt. rewrite Hlt.
  rewrite (bind_eq _ _ s tt s) by reflexivity.
  rewrite (bind_eq _ _ s (getPosition s pid (msg_sender env)) s) by reflexivity.
  apply N.leb_le in Hamt. rewrite Hamt.
  rewrite (bind_eq _ _ s tt s) by reflexivity.
  apply N.leb_le in Hlock. rewrite Hlock.
  rewrite (bind_eq _ _ s tt s) by reflexivity.
  rewrite (bind_eq _ _ s tt s1) by exact Hup.
  rewrite (bind_eq _ _ s1 pool s1) by (unfold readPool; rewrite Hpool; reflexivity).
  rewrite (bind_eq _ _ s1 (getPosition s pid (msg_sender env)) s1)
    by (unfold readPosition, gets; rewrite Epos; reflexivity).
  rewrite (bind_eq _ _ s1 pending s1) by (unfold lift; rewrite Hpe; reflexivity).
  rewrite (bind_eq _ _ s1 tt s2) by exact Hset.
  apply N.leb_le in Hamt.
  erewrite bind_eq
    by (unfold lift; rewrite (proj2 (checked_sub_Ok _ _ _) (conj eq_refl Hamt)); reflexivity).
  erewrite bind_eq
    by (unfold lift; rewrite (proj2 (checked_mul_Ok _ _ _) (conj eq_refl Hmul)); reflexivity).
  erewrite bind_eq by reflexivity.
  erewrite bind_eq
    by (unfold lift; rewrite (proj2 (checked_sub_Ok _ _ _) (conj eq_refl Hst)); reflexivity).
  erewrite bind_eq by reflexivity.
  erewrite bind_eq by (unfold safeTransfer; apply tokenTransfer_eq; exact Hbal).
  reflexivity.
Qed.

(** ** Reward settlement under a shortfall *)


Lemma moveTokens_other_token (token from to amt : N) (bal : gmap (address * address) N)
    (token' holder : N) :
  token' <> token ->
  moveTokens token from to amt bal !! (token', holder) = bal !! (token', holder).
Proof.
  intros Hne. unfold moveTokens. cbv zeta.
  rewrite !lookup_insert_ne by congruence. reflexivity.
Qed.






(** After a successful accrual the pool is up to date with the block. *)
Lemma updatePool_done env pid s u s1 pool :
  updatePool env pid s = Ok (u, s1) ->
  poolInfo s1 !! N.to_nat pid = Some pool ->
  block_number env <= lastRewardBlock pool.
Proof.
  intros Hup Hpool.
  destruct (poolInfo s !! N.to_nat pid) as [pool0|] eqn:Hp.
  2:{ unfold updatePool, bind, readPool in Hup. rewrite Hp in Hup. discriminate. }
  destruct u.
  destruct (updatePool_result env s pid pool0 s1 Hp Hup) as [Hlook _].
  rewrite Hpool in Hlook. injection Hlook as ->.
  unfold accrue_spec.
  destruct (N.leb_spec (block_number env) (lastRewardBlock pool0)); [assumption|].
  destruct (totalStaked pool0 =? 0); cbn; lia.
Qed.

Lemma moveTokens_to_ge (token from to amt : N) (bal : gmap (address * address) N) :
  amt <= default 0 (bal !! (token, from)) ->
  amt <= default 0 (moveTokens token from to amt bal !! (token, to)).
Proof.
  intros Hle. unfold moveTokens. cbv zeta. rewrite lookup_insert_eq. cbn.
  destruct (decide (from = to)) as [->|Hne].
  - rewrite lookup_insert_eq. cbn. lia.
  - lia.
Qed.

(** C7: a deposit of [X] followed by a withdrawal of [X] by the same
    account in the same block, at or after the lock expiry of the position:
    the withdrawal succeeds, its pending reward is zero so that nothing is
    paid or logged as reward, exactly [X] of the staking token moves from
    the contract to the account, and the position and the pool hold again
    what they held before the deposit. *)
Theorem deposit_withdraw_roundtrip env env' pid X s u s1 :
  deposit env pid X s = Ok (u, s1) ->
  msg_sender env' = msg_sender env ->
  this env' = this env ->
  block_number env' = block_number env ->
  lockEndTime (getPosition s1 pid (msg_sender env)) <= block_timestamp env' ->
  exists pool s2,
    0 < X /\
    poolInfo s1 !! N.to_nat pid = Some pool /\
    pendingOf (getPosition s1 pid (msg_sender env)) pool = Ok 0 /\
    withdraw env' pid X s1 = Ok (tt, s2) /\
    events s2 = (events s1 ++ [Withdraw (msg_sender env) pid X])%list /\
    balances s2 =
      moveTokens (stakingToken pool) (this env) (msg_sender env) X (balances s1) /\
    (msg_sender env <> this env ->
       balanceOf s2 (stakingToken pool) (msg_sender env)
       = balanceOf s1 (stakingToken pool) (msg_sender env) + X) /\
    amount (getPosition s2 pid (msg_sender env))
      = amount (getPosition s pid (msg_sender env)) /\
    exists pool2 pool0,
      poolInfo s2 !! N.to_nat pid = Some pool2 /\
      poolInfo s !! N.to_nat pid = Some pool0 /\
      totalStaked pool2 = totalStaked pool0.
Proof.
  intros Hdep Hsender Hthis Hblock Hlock.
  apply deposit_inv in Hdep as (sa & sb & sc & pool0 & H). cbv zeta in H.
  destruct H as (_ & _ & HX & Hup & Hpool & Hset & Htr & Hf1 & Hf2 & _ & Hf4 & Es1).
  pose proof (updatePool_accrued _ _ _ _ _ Hup) as Hacc.
  pose proof (updatePool_done _ _ _ _ _ _ Hup Hpool) as Hdone.
  assert (getPosition sa pid (msg_sender env) = getPosition s pid (msg_sender env)) as Epos.
  { unfold getPosition. rewrite (accrued_userPositions _ _ Hacc). reflexivity. }
  rewrite Epos in *.
  set (A := amount (getPosition s pid (msg_sender env))) in *.
  assert (ledger_only sa sb) as Hfa.
  { destruct (0 <? A).
    - destruct Hset as (pending & _ & Hs). eapply settle_frame; exact Hs.
    - subst sb. apply ledger_only_refl. }
  pose proof (tokenTransfer_frame _ _ _ _ _ _ _ Htr) as Hfb.
  pose proof (ledger_only_trans _ _ _ Hfa Hfb) as Hf.
  assert (Hlt : (N.to_nat pid < length (poolInfo sa))%nat)
    by (apply lookup_lt_is_Some; eauto).
  set (pool := set_totalStaked (totalStaked pool0 + X) pool0).
  set (newpos := mkPosition (A + X) (block_number env)
                   ((A + X) * accRewardPerShare pool0 / PRECISION)
                   (block_timestamp env + minLockPeriod pool0) true).
  assert (poolInfo s1 !! N.to_nat pid = Some pool) as Hpool1.
  { rewrite Es1. cbn. rewrite (ledger_only_poolInfo _ _ Hf).
    apply list_lookup_insert_eq. exact Hlt. }
  assert (getPosition s1 pid (msg_sender env) = newpos) as Epos1.
  { rewrite Es1. unfold getPosition. cbn. rewrite lookup_insert_eq. reflexivity. }
  assert (X <= balanceOf s1 (stakingToken pool0) (this env)) as Hbal.
  { rewrite Es1. unfold balanceOf. cbn.
    unfold tokenTransfer in Htr.
    destruct (N.leb_spec X (balanceOf sb (stakingToken pool0) (msg_sender env)));
      [|discriminate].
    injection Htr as <-. cbn. apply moveTokens_to_ge. assumption. }
  assert (updatePool env' pid s1 = Ok (tt, s1)) as Hup1.
  { rewrite (updatePool_unfold env' pid s1 pool Hpool1).
    rewrite Hblock. cbn. apply N.leb_le in Hdone. rewrite Hdone. reflexivity. }
  assert (pendingOf newpos pool = Ok 0) as Hpend.
  { unfold pendingOf. cbn.
    rewrite (proj2 (checked_mul_Ok _ _ _) (conj eq_refl Hf2)).
    unfold checked_sub. rewrite N.leb_refl. rewrite N.sub_diag. reflexivity. }
  rewrite Epos1 in Hlock |- *.
  pose proof (withdraw_intro env' pid X s1 s1 s1 pool 0) as Hw. cbv zeta in Hw.
  rewrite Hsender, Hthis, Epos1 in Hw.
  specialize (Hw (proj1 (N.ltb_lt _ _) (lookup_poolLength s1 pid pool Hpool1))).
  assert (A + X - X = A) as EA by lia.
  specialize (Hw ltac:(cbn; lia) Hlock Hup1 Hpool1 Hpend eq_refl
                 ltac:(cbn; rewrite EA; nia) ltac:(cbn; lia) Hbal).
  exists pool. eexists.
  split; [exact HX|]. split; [exact Hpool1|]. split; [exact Hpend|].
  split; [exact Hw|].
  cbn [events balances poolInfo userPositions set_events set_balances set_poolInfo
       set_userPositions].
  split; [reflexivity|]. split; [reflexivity|].
  split.
  { intros Hne. unfold balanceOf. cbn. apply moveTokens_to. congruence. }
  split.
  { unfold getPosition. cbn. rewrite lookup_insert_eq. cbn. exact EA. }
  destruct (accrued_lookup _ _ _ _ Hacc Hpool) as (p0 & Hp0 & Hpp).
  eexists _, p0. split; [|split; [exact Hp0|]].
  - apply list_lookup_insert_eq. apply lookup_lt_is_Some. eauto.
  - cbn. destruct Hpp as (_ & _ & _ & <- & _). lia.
Qed.

(** ** The rebalance hook *)

Lemma updatePool_other env pid s u s' :
  updatePool env pid s = Ok (u, s') ->
  forall i, i <> N.to_nat pid -> poolInfo s' !! i = poolInfo s !! i.
Proof.
  intros Hrun i Hi.
  destruct (poolInfo s !! N.to_nat pid) as [pool|] eqn:Hp.
  2:{ unfold updatePool, bind, readPool in Hrun. rewrite Hp in Hrun. discriminate. }
  rewrite (updatePool_unfold env pid s pool Hp) in Hrun.
  destruct (block_number env <=? lastRewardBlock pool).
  { injection Hrun as <- <-. reflexivity. }
  destruct (totalStaked pool =? 0).
  { injection Hrun as <- <-. cbn. apply list_lookup_insert_ne. congruence. }
  destruct (checked_sub _ _) as [multiplier|]; [|discriminate].
  destruct (checked_mul multiplier _) as [m1|]; [|discriminate].
  destruct (checked_mul m1 _) as [m2|]; [|discriminate].
  destruct (checked_div m2 _) as [reward|]; [|discriminate].
  destruct (checked_mul reward _) as [r1|]; [|discriminate].
  destruct (checked_div r1 _) as [inc|]; [|discriminate].
  destruct (checked_add _ inc) as [acc|]; [|discriminate].
  injection Hrun as <- <-. cbn. apply list_lookup_insert_ne. congruence.
Qed.

(** C8: [rebalancePosition] is refused to a caller that is not an
    authorized rebalancer and on a position that is not active.  When it
    succeeds it has accrued the pool and logged [PositionRebalanced] with the
    target amount, and nothing else: every position is as it was (amount,
    reward debt, lock end, active flag), every pool keeps its [totalStaked]
    (only [lastRewardBlock] and [accRewardPerShare] may have moved), and no
    token balance has changed.  The accrual is the real one: the pool of the
    call is afterwards the specification's [accrue] of the pool before, up
    to date with the current block, and the other pools are untouched. *)
Theorem rebalancePosition_only_notifies env pid user newAmount s :
  rebalancePosition env pid user newAmount s =
    (if negb (isAuthorized s (msg_sender env)) then Revert (RequireFailed "Not authorized")
     else if negb (pid <? poolLength s) then Revert (RequireFailed "Invalid pool ID")
     else if negb (isActive (getPosition s pid user))
          then Revert (RequireFailed "Position not active")
     else match updatePool env pid s with
          | Ok (_, s1) =>
              Ok (tt, set_events (events s1 ++ [PositionRebalanced user pid newAmount]) s1)
          | Revert e => Revert e
          end) /\
  (forall u s',
     rebalancePosition env pid user newAmount s = Ok (u, s') ->
     isAuthorized s (msg_sender env) = true /\
     isActive (getPosition s pid user) = true /\
     userPositions s' = userPositions s /\
     balances s' = balances s /\
     events s' = (events s ++ [PositionRebalanced user pid newAmount])%list /\
     Forall2 pool_accrued (poolInfo s) (poolInfo s') /\
     (forall i p, poolInfo s !! i = Some p ->
        exists p', poolInfo s' !! i = Some p' /\ totalStaked p' = totalStaked p) /\
     s' = set_events (events s ++ [PositionRebalanced user pid newAmount])
            (set_poolInfo (poolInfo s') s) /\
     exists pool,
       poolInfo s !! N.to_nat pid = Some pool /\
       poolInfo s' !! N.to_nat pid =
         Some (accrue_spec (block_number env) (rewardPerBlock s) (totalAllocPoint s) pool) /\
       block_number env <=
         lastRewardBlock
           (accrue_spec (block_number env) (rewardPerBlock s) (totalAllocPoint s) pool) /\
       (forall i, i <> N.to_nat pid -> poolInfo s' !! i = poolInfo s !! i)).
Proof.
  assert (rebalancePosition env pid user newAmount s =
    (if negb (isAuthorized s (msg_sender env)) then Revert (RequireFailed "Not authorized")
     else if negb (pid <? poolLength s) then Revert (RequireFailed "Invalid pool ID")
     else if negb (isActive (getPosition s pid user))
          then Revert (RequireFailed "Position not active")
     else match updatePool env pid s with
          | Ok (_, s1) =>
              Ok (tt, set_events (events s1 ++ [PositionRebalanced user pid newAmount]) s1)
          | Revert e => Revert e
          end)) as Heq.
  { unfold rebalancePosition.
    rewrite (bind_eq _ _ s (isAuthorized s (msg_sender env)) s) by reflexivity.
    destruct (isAuthorized s (msg_sender env)); [|reflexivity].
    rewrite (bind_eq _ _ s tt s) by reflexivity.
    rewrite (bind_eq _ _ s (poolLength s) s) by reflexivity.
    destruct (pid <? poolLength s); [|reflexivity].
    rewrite (bind_eq _ _ s tt s) by reflexivity.
    rewrite (bind_eq _ _ s (getPosition s pid user) s) by reflexivity.
    destruct (isActive (getPosition s pid user)); [|reflexivity].
    rewrite (bind_eq _ _ s tt s) by reflexivity.
    unfold bind. cbn [negb].
    destruct (updatePool env pid s) as [[[] s1]|e]; reflexivity. }
  split; [exact Heq|].
  intros u s' H. rewrite Heq in H.
  destruct (isAuthorized s (msg_sender env)); [|discriminate].
  destruct (pid <? poolLength s); [|discriminate].
  destruct (isActive (getPosition s pid user)); [|discriminate].
  cbn [negb] in H.
  destruct (updatePool env pid s) as [[u1 s1]|e] eqn:Hup; [|discriminate].
  injection H as <- <-.
  pose proof (updatePool_accrued _ _ _ _ _ Hup) as Hacc.
  split; [reflexivity|]. split; [reflexivity|].
  cbn [events balances poolInfo userPositions set_events].
  split; [apply (accrued_userPositions _ _ Hacc)|].
  split; [apply (accrued_balances _ _ Hacc)|].
  split; [rewrite (accrued_events _ _ Hacc); reflexivity|].
  split; [apply Hacc|].
  split; [|split].
  - intros i p Hp. destruct Hacc as [HF _].
    destruct (Forall2_lookup_l _ _ _ _ _ HF Hp) as (p' & Hp' & Hpp).
    exists p'. split; [exact Hp' | apply Hpp].
  - rewrite (accrued_events _ _ Hacc). destruct Hacc as [_ E].
    rewrite E at 1. reflexivity.
  - destruct (poolInfo s !! N.to_nat pid) as [pool|] eqn:Hp.
    2:{ unfold updatePool, bind, readPool in Hup. rewrite Hp in Hup. discriminate. }
    destruct u1.
    destruct (updatePool_result env s pid pool s1 Hp Hup) as [Hres _].
    exists pool. split; [reflexivity|]. split; [exact Hres|].
    split; [exact (updatePool_done _ _ _ _ _ _ Hup Hres)|].
    exact (updatePool_other _ _ _ _ _ Hup).
Qed.

(** ** The lock of a topped-up position *)

(** C10: a successful [deposit] leaves the position with the whole amount,
    old and new, and with [lockEndTime] set to the time of the deposit plus
    the pool's [minLockPeriod], whether or not the position was active
    before.  Until that time [withdraw] refuses every amount the position
    covers, the previously deposited principal included. *)
Theorem deposit_relocks_position env pid amt s u s' :
  deposit env pid amt s = Ok (u, s') ->
  exists pool,
    poolInfo s !! N.to_nat pid = Some pool /\
    let old := getPosition s pid (msg_sender env) in
    let new := getPosition s' pid (msg_sender env) in
    lockEndTime new = block_timestamp env + minLockPeriod pool /\
    amount new = amount old + amt /\
    isActive new = true /\
    (forall env' x,
       msg_sender env' = msg_sender env ->
       block_timestamp env' < block_timestamp env + minLockPeriod pool ->
       x <= amount old + amt ->
       withdraw env' pid x s' = Revert (RequireFailed "Position still locked")).
Proof.
  intros Hdep.
  apply deposit_inv in Hdep as (sa & sb & sc & pool1 & H). cbv zeta in H.
  destruct H as (_ & Hlt & _ & Hup & Hpool & Hset & Htr & _ & _ & _ & _ & Es').
  pose proof (updatePool_accrued _ _ _ _ _ Hup) as Hacc.
  destruct (accrued_lookup _ _ _ _ Hacc Hpool) as (pool & Hp0 & Hpp).
  assert (getPosition sa pid (msg_sender env) = getPosition s pid (msg_sender env)) as Epos.
  { unfold getPosition. rewrite (accrued_userPositions _ _ Hacc). reflexivity. }
  assert (minLockPeriod pool1 = minLockPeriod pool) as Emin by apply Hpp.
  rewrite Epos, Emin in *.
  set (A := amount (getPosition s pid (msg_sender env))) in *.
  set (newpos := mkPosition (A + amt) (block_number env)
                   ((A + amt) * accRewardPerShare pool1 / PRECISION)
                   (block_timestamp env + minLockPeriod pool) true) in *.
  assert (getPosition s' pid (msg_sender env) = newpos) as Enew.
  { rewrite Es'. unfold getPosition. cbn. rewrite lookup_insert_eq. reflexivity. }
  assert ((pid <? poolLength s') = true) as Hlen.
  { apply N.ltb_lt. rewrite Es'. unfold poolLength. cbn. rewrite length_insert.
    assert (ledger_only sa sb) as Hfa.
    { destruct (0 <? A).
      - destruct Hset as (pending & _ & Hs). eapply settle_frame; exact Hs.
      - subst sb. apply ledger_only_refl. }
    apply tokenTransfer_frame in Htr.
    rewrite (ledger_only_poolInfo _ _ Htr), (ledger_only_poolInfo _ _ Hfa).
    destruct Hacc as [HF _]. rewrite <- (Forall2_length _ _ _ HF).
    unfold poolLength in Hlt. exact Hlt. }
  exists pool. split; [exact Hp0|]. cbv zeta. rewrite Enew.
  split; [reflexivity|]. split; [reflexivity|]. split; [reflexivity|].
  intros env' x Hsender Htime Hx.
  unfold withdraw.
  rewrite (bind_eq _ _ s' (poolLength s') s') by reflexivity.
  rewrite Hlen.
  rewrite (bind_eq _ _ s' tt s') by reflexivity.
  rewrite (bind_eq _ _ s' newpos s')
    by (unfold readPosition, gets; rewrite Hsender, Enew; reflexivity).
  unfold newpos, A in *. cbn [amount lockEndTime].
  apply N.leb_le in Hx. rewrite Hx.
  rewrite (bind_eq _ _ s' tt s') by reflexivity.
  apply N.leb_gt in Htime. rewrite Htime. reflexivity.
Qed.

(** ** A pool of weight zero *)

(** C9 fails on the code: [addPool] takes a weight of 0, so a first pool of
    weight 0 leaves [totalAllocPoint] at 0; once something is staked in it
    and a block has passed, [updatePool] reaches its reward computation and
    divides by zero.  The panic reverts [updatePool], and with it
    [withdraw], [deposit], [massUpdatePools] and [addPool]. *)
Theorem zero_weight_pool_divides_by_zero :
  reachable zero_weight_staked /\
  totalAllocPoint zero_weight_staked = 0 /\
  (exists pool,
     poolInfo zero_weight_staked !! N.to_nat 0 = Some pool /\
     0 < totalStaked pool /\ lastRewardBlock pool < 101) /\
  updatePool (at_block bob 101 1001) 0 zero_weight_staked = Revert PanicDivZero /\
  withdraw (at_block alice 101 1001) 0 100 zero_weight_staked = Revert PanicDivZero /\
  deposit (at_block alice 101 1001) 0 1 zero_weight_staked = Revert PanicDivZero /\
  addPool (at_block deployer0 101 1001) stakeToken prizeToken 10 0 zero_weight_staked
    = Revert PanicDivZero.
Proof.
  split; [exists deployer0, zero_weight_history; reflexivity|].
  split; [vm_compute; reflexivity|].
  split.
  { exists (mkPoolInfo stakeToken prizeToken 0 100 0 100 0 false).
    split; [vm_compute; reflexivity|]. split; reflexivity. }
  repeat split; vm_compute; reflexivity.
Qed.

(** ** The theorems at work on the sample runs *)

Lemma staked_reachable : reachable staked.
Proof. exists deployer0, staking_history. reflexivity. Defined.

Lemma updatePool_accrues_witness :
  poolInfo staked !! N.to_nat 0 = Some (mkPoolInfo stakeToken prizeToken 50 100 0 1000 60 true) /\
  updatePool (at_block bob 110 1100) 0 staked =
    Ok (tt, set_poolInfo
              (<[N.to_nat 0 :=
                   mkPoolInfo stakeToken prizeToken 50 110
                     4545454545454545454000000000 1000 60 true]> (poolInfo staked))
              staked).
Proof.
  split; [vm_compute; reflexivity|].
  destruct (updatePool_accrues (at_block bob 110 1100) staked 0
              (mkPoolInfo stakeToken prizeToken 50 100 0 1000 60 true))
    as (_ & _ & H3 & _ & _); [vm_compute; reflexivity|].
  apply H3.
  - reflexivity.
  - discriminate.
  - unfold accrue_fits. vm_compute. repeat split; discriminate.
Defined.

Lemma totalStaked_is_active_stake_witness :
  reachable staked /\
  poolInfo staked !! N.to_nat 0 = Some (mkPoolInfo stakeToken prizeToken 50 100 0 1000 60 true) /\
  1000 = activeStake 0 (userPositions staked).
Proof.
  split; [exact staked_reachable|]. split; [vm_compute; reflexivity|].
  apply (totalStaked_is_active_stake staked 0
           (mkPoolInfo stakeToken prizeToken 50 100 0 1000 60 true));
    [exact staked_reachable | vm_compute; reflexivity].
Defined.

Lemma accRewardPerShare_never_decreases_witness :
  poolInfo accrued_staked !! 0%nat
    = Some (mkPoolInfo stakeToken prizeToken 50 110 4545454545454545454000000000
              1000 60 true) /\
  exists p',
    poolInfo (run [(at_block alice 120 1200, CWithdraw 0 400);
                   (at_block deployer0 130 1300, CSetRewardPerBlock 5);
                   (at_block bob 140 1400, CUpdatePool 0)] accrued_staked) !! 0%nat
      = Some p' /\
    4545454545454545454000000000 <= accRewardPerShare p'.
Proof.
  split; [vm_compute; reflexivity|].
  apply (accRewardPerShare_never_decreases
           [(at_block alice 120 1200, CWithdraw 0 400);
            (at_block deployer0 130 1300, CSetRewardPerBlock 5);
            (at_block bob 140 1400, CUpdatePool 0)] accrued_staked 0%nat
           (mkPoolInfo stakeToken prizeToken 50 110 4545454545454545454000000000
              1000 60 true)).
  vm_compute; reflexivity.
Defined.

Lemma emergencyWithdraw_pays_witness :
  exists s',
    emergencyWithdraw (at_block alice 106 1001) 0 staked = Ok (tt, s') /\
    events s' = (events staked ++ [EmergencyWithdraw alice 0 950])%list /\
    balanceOf s' stakeToken alice = balanceOf staked stakeToken alice + 950.
Proof.
  destruct (emergencyWithdraw_pays (at_block alice 106 1001) staked 0
              (mkPoolInfo stakeToken prizeToken 50 100 0 1000 60 true))
    as (s' & Hrun & _ & _ & _ & Hev & _ & Hbal).
  - exact staked_reachable.
  - vm_compute; reflexivity.
  - reflexivity.
  - vm_compute; reflexivity.
  - vm_compute; discriminate.
  - vm_compute; discriminate.
  - exists s'. split; [exact Hrun|]. split; [exact Hev|].
    apply Hbal. discriminate.
Defined.



Lemma pause_blocks_deposit_only_witness :
  paused staked_paused = true /\
  deposit (at_block alice 110 1100) 0 5 staked_paused = Revert (RequireFailed "Pausable: paused") /\
  is_ok (withdraw (at_block alice 110 1100) 0 400 staked_paused) = true /\
  exec (at_block alice 110 1100) (CWithdraw 0 400) staked_paused
    = set_paused true
        (exec (at_block alice 110 1100) (CWithdraw 0 400) (set_paused false staked_paused)).
Proof.
  split; [vm_compute; reflexivity|].
  destruct (pause_blocks_deposit_only (at_block alice 110 1100) 0 400 staked_paused)
    as (_ & _ & _ & _ & Hw & _); [vm_compute; reflexivity|].
  destruct (pause_blocks_deposit_only (at_block alice 110 1100) 0 5 staked_paused)
    as (Hd & _); [vm_compute; reflexivity|].
  split; [exact Hd|]. split; [vm_compute; reflexivity | exact Hw].
Defined.

Lemma deposit_withdraw_roundtrip_witness :
  exists pool s2,
    withdraw (at_block alice 100 1060) 0 1000
      (exec (at_block alice 100 1000) (CDeposit 0 1000) staked) = Ok (tt, s2) /\
    pendingOf (getPosition (exec (at_block alice 100 1000) (CDeposit 0 1000) staked) 0 alice)
      pool = Ok 0 /\
    amount (getPosition s2 0 alice) = 1000.
Proof.
  destruct (deposit_withdraw_roundtrip (at_block alice 100 1000) (at_block alice 100 1060)
              0 1000 staked tt (exec (at_block alice 100 1000) (CDeposit 0 1000) staked))
    as (pool & s2 & _ & _ & Hpe & Hw & _ & _ & _ & Ham & _).
  - vm_compute; reflexivity.
  - reflexivity.
  - reflexivity.
  - reflexivity.
  - vm_compute; discriminate.
  - exists pool, s2. split; [exact Hw|]. split; [exact Hpe|].
    etransitivity; [exact Ham | vm_compute; reflexivity].
Defined.

Lemma rebalancePosition_only_notifies_witness :
  is_ok (rebalancePosition (at_block deployer0 110 1100) 0 alice 777 staked) = true /\
  rebalancePosition (at_block bob 110 1100) 0 alice 777 staked
    = Revert (RequireFailed "Not authorized") /\
  userPositions (exec (at_block deployer0 110 1100) (CRebalancePosition 0 alice 777) staked)
    = userPositions staked /\
  balances (exec (at_block deployer0 110 1100) (CRebalancePosition 0 alice 777) staked)
    = balances staked /\
  poolInfo staked !! N.to_nat 0
    = Some (mkPoolInfo stakeToken prizeToken 50 100 0 1000 60 true) /\
  poolInfo (exec (at_block deployer0 110 1100) (CRebalancePosition 0 alice 777) staked)
    !! N.to_nat 0
    = Some (mkPoolInfo stakeToken prizeToken 50 110 4545454545454545454000000000
              1000 60 true).
Proof.
  destruct (rebalancePosition_only_notifies (at_block deployer0 110 1100) 0 alice 777 staked)
    as (_ & Hok).
  destruct (rebalancePosition_only_notifies (at_block bob 110 1100) 0 alice 777 staked)
    as (Heq & _).
  destruct (Hok tt (exec (at_block deployer0 110 1100) (CRebalancePosition 0 alice 777) staked))
    as (_ & _ & Hu & Hb & _ & _ & _ & _ & pool & Hpool & Hres & _);
    [vm_compute; reflexivity|].
  split; [vm_compute; reflexivity|].
  split; [rewrite Heq; vm_compute; reflexivity|].
  split; [exact Hu|]. split; [exact Hb|].
  split; [vm_compute; reflexivity|].
  assert (Some pool = Some (mkPoolInfo stakeToken prizeToken 50 100 0 1000 60 true)) as E
    by (rewrite <- Hpool; vm_compute; reflexivity).
  injection E as ->.
  etransitivity; [exact Hres | vm_compute; reflexivity].
Defined.

Lemma deposit_relocks_position_witness :
  isActive (getPosition staked 0 alice) = true /\
  lockEndTime (getPosition staked 0 alice) = 1060 /\
  lockEndTime
    (getPosition (exec (at_block alice 120 2000) (CDeposit 0 1) staked) 0 alice) = 2060 /\
  withdraw (at_block alice 121 2059) 0 1000
    (exec (at_block alice 120 2000) (CDeposit 0 1) staked)
    = Revert (RequireFailed "Position still locked").
Proof.
  split; [vm_compute; reflexivity|]. split; [vm_compute; reflexivity|].
  destruct (deposit_relocks_position (at_block alice 120 2000) 0 1 staked tt
              (exec (at_block alice 120 2000) (CDeposit 0 1) staked))
    as (pool & Hpool & Hlock & _ & _ & Hwd); [vm_compute; reflexivity|].
  vm_compute in Hpool. injection Hpool as <-.
  split; [etransitivity; [exact Hlock | vm_compute; reflexivity]|].
  apply Hwd; [reflexivity | vm_compute; reflexivity | vm_compute; discriminate].
Defined.

(** * Further properties of the contract *)

(** ** The reward preview *)

Lemma pendingReward_unfold env pid user s pool :
  poolInfo s !! N.to_nat pid = Some pool ->
  pendingReward env pid user s =
    match updatePool env pid s with
    | Ok (_, s1) =>
        match poolInfo s1 !! N.to_nat pid with
        | Some pool1 =>
            match pendingOf (getPosition s pid user) pool1 with
            | Ok v => Ok (v, s)
            | Revert e => Revert e
            end
        | None => Revert PanicIndex
        end
    | Revert e => Revert e
    end.
Proof.
  intros Hp.
  assert (Hlt : (N.to_nat pid < length (poolInfo s))%nat)
    by (apply lookup_lt_is_Some; eauto).
  rewrite (updatePool_unfold env pid s pool Hp).
  unfold pendingReward.
  rewrite (bind_eq _ _ s pool s) by (unfold readPool; rewrite Hp; reflexivity).
  rewrite (bind_eq _ _ s (getPosition s pid user) s) by reflexivity.
  assert (forall acc,
            bind (lift (checked_mul (amount (getPosition s pid user)) acc))
              (fun prod => lift (checked_sub (prod / PRECISION)
                                   (rewardDebt (getPosition s pid user)))) s
            = match pendingOf (getPosition s pid user) (set_accRewardPerShare acc pool) with
              | Ok v => Ok (v, s)
              | Revert e => Revert e
              end) as Htail.
  { intros acc. unfold bind, lift, pendingOf. cbn [accRewardPerShare set_accRewardPerShare].
    destruct (checked_mul _ _); [|reflexivity].
    destruct (checked_sub _ _); reflexivity. }
  assert (forall acc last,
            pendingOf (getPosition s pid user)
              (set_lastRewardBlock last (set_accRewardPerShare acc pool))
            = pendingOf (getPosition s pid user) (set_accRewardPerShare acc pool)) as Hlast
    by reflexivity.
  assert (pendingOf (getPosition s pid user) (set_accRewardPerShare (accRewardPerShare pool) pool)
          = pendingOf (getPosition s pid user) pool) as Hsame by reflexivity.
  destruct (N.leb_spec (block_number env) (lastRewardBlock pool)) as [Hle|Hgt].
  - apply N.ltb_ge in Hle. rewrite Hle. cbn [andb].
    rewrite (bind_eq _ _ s (accRewardPerShare pool) s) by reflexivity.
    rewrite Hp, Htail, Hsame. reflexivity.
  - apply N.ltb_lt in Hgt. rewrite Hgt. cbn [andb].
    destruct (totalStaked pool =? 0); cbn [negb].
    + rewrite (bind_eq _ _ s (accRewardPerShare pool) s) by reflexivity.
      cbn [poolInfo set_poolInfo]. rewrite list_lookup_insert_eq by exact Hlt.
      rewrite Htail. reflexivity.
    + unfold bind at 1. unfold bind at 1. unfold lift at 1.
      destruct (checked_sub _ _) as [multiplier|]; [|reflexivity].
      unfold bind at 1. unfold gets at 1. unfold bind at 1. unfold gets at 1.
      unfold bind at 1. unfold lift at 1.
      destruct (checked_mul multiplier _) as [m1|]; [|reflexivity].
      unfold bind at 1. unfold lift at 1.
      destruct (checked_mul m1 _) as [m2|]; [|reflexivity].
      unfold bind at 1. unfold lift at 1.
      destruct (checked_div m2 _) as [reward|]; [|reflexivity].
      unfold bind at 1. unfold lift at 1.
      destruct (checked_mul reward _) as [r1|]; [|reflexivity].
      unfold bind at 1. unfold lift at 1.
      destruct (checked_div r1 _) as [inc|]; [|reflexivity].
      unfold lift at 1.
      destruct (checked_add _ inc) as [acc|]; [|reflexivity].
      cbn [poolInfo set_poolInfo]. rewrite list_lookup_insert_eq by exact Hlt.
      rewrite Hlast. apply Htail.
Qed.

(** X1: the preview is the settlement.  [pendingReward] returns what
    [updatePool] followed by the pending-reward formula of [deposit] and
    [withdraw] computes at the same block, reverts exactly when one of the
    two does, and reverts with an index panic on a pool that does not
    exist. *)
Theorem pendingReward_previews_settlement env pid user s :
  pendingReward env pid user s =
    match updatePool env pid s with
    | Ok (_, s1) =>
        match poolInfo s1 !! N.to_nat pid with
        | Some pool1 =>
            match pendingOf (getPosition s pid user) pool1 with
            | Ok v => Ok (v, s)
            | Revert e => Revert e
            end
        | None => Revert PanicIndex
        end
    | Revert e => Revert e
    end.
Proof.
  destruct (poolInfo s !! N.to_nat pid) as [pool|] eqn:Hp.
  - apply (pendingReward_unfold env pid user s pool Hp).
  - unfold pendingReward, updatePool, bind, readPool. rewrite Hp. reflexivity.
Qed.

Lemma deposit_settled env pid amt s u s' :
  deposit env pid amt s = Ok (u, s') ->
  exists pool,
    poolInfo s' !! N.to_nat pid = Some pool /\
    block_number env <= lastRewardBlock pool /\
    pendingOf (getPosition s' pid (msg_sender env)) pool = Ok 0.
Proof.
  intros Hdep.
  apply deposit_inv in Hdep as (sa & sb & sc & pool0 & H). cbv zeta in H.
  destruct H as (_ & _ & _ & Hup & Hpool & Hset & Htr & _ & Hf2 & _ & _ & ->).
  pose proof (updatePool_done _ _ _ _ _ _ Hup Hpool) as Hdone.
  assert (ledger_only sa sb) as Hfa.
  { destruct (0 <? amount _).
    - destruct Hset as (pending & _ & Hs). eapply settle_frame; exact Hs.
    - subst sb. apply ledger_only_refl. }
  pose proof (ledger_only_trans _ _ _ Hfa (tokenTransfer_frame _ _ _ _ _ _ _ Htr)) as Hf.
  exists (set_totalStaked (totalStaked pool0 + amt) pool0).
  split; [|split].
  - cbn. rewrite (ledger_only_poolInfo _ _ Hf).
    apply list_lookup_insert_eq. apply lookup_lt_is_Some. eauto.
  - exact Hdone.
  - unfold getPosition at 1. cbn [userPositions set_events set_poolInfo set_userPositions].
    rewrite lookup_insert_eq. unfold pendingOf.
    cbn [default from_option id amount accRewardPerShare rewardDebt set_totalStaked].
    rewrite (proj2 (checked_mul_Ok _ _ _) (conj eq_refl Hf2)).
    unfold checked_sub. rewrite N.leb_refl, N.sub_diag. reflexivity.
Qed.

Lemma withdraw_settled env pid amt s u s' :
  withdraw env pid amt s = Ok (u, s') ->
  exists pool,
    poolInfo s' !! N.to_nat pid = Some pool /\
    block_number env <= lastRewardBlock pool /\
    pendingOf (getPosition s' pid (msg_sender env)) pool = Ok 0.
Proof.
  intros Hw.
  apply withdraw_inv in Hw as (s1 & s2 & s3 & pool0 & pending & H). cbv zeta in H.
  destruct H as (_ & _ & _ & Hup & Hpool & _ & Hset & Hmul & _ & -> & s4 & Htr & ->).
  pose proof (updatePool_done _ _ _ _ _ _ Hup Hpool) as Hdone.
  apply settle_frame in Hset. apply tokenTransfer_frame in Htr.
  pose proof (ledger_only_poolInfo _ _ Htr) as Hp4. cbn in Hp4.
  pose proof (ledger_only_userPositions _ _ Htr) as Hu4. cbn in Hu4.
  exists (set_totalStaked (totalStaked pool0 - amt) pool0).
  split; [|split].
  - cbn. rewrite Hp4, (ledger_only_poolInfo _ _ Hset).
    apply list_lookup_insert_eq. apply lookup_lt_is_Some. eauto.
  - exact Hdone.
  - unfold getPosition at 1. cbn [userPositions set_events]. rewrite Hu4.
    rewrite lookup_insert_eq. unfold pendingOf.
    cbn [default from_option id amount accRewardPerShare rewardDebt set_totalStaked].
    rewrite (proj2 (checked_mul_Ok _ _ _) (conj eq_refl Hmul)).
    unfold checked_sub. rewrite N.leb_refl, N.sub_diag. reflexivity.
Qed.

(** X2: no reward is paid twice.  Right after a successful [deposit] or
    [withdraw], and for as long as the block has not advanced, the preview
    of the caller's pending reward is zero. *)
Theorem settled_position_previews_zero env env' pid amt s u s' :
  deposit env pid amt s = Ok (u, s') \/ withdraw env pid amt s = Ok (u, s') ->
  block_number env' <= block_number env ->
  pendingReward env' pid (msg_sender env) s' = Ok (0, s').
Proof.
  intros Hop Hblock.
  assert (exists pool,
            poolInfo s' !! N.to_nat pid = Some pool /\
            block_number env <= lastRewardBlock pool /\
            pendingOf (getPosition s' pid (msg_sender env)) pool = Ok 0)
    as (pool & Hpool & Hdone & Hpend).
  { destruct Hop as [H|H]; [eapply deposit_settled | eapply withdraw_settled]; exact H. }
  rewrite (pendingReward_unfold env' pid (msg_sender env) s' pool Hpool).
  rewrite (updatePool_unfold env' pid s' pool Hpool).
  assert ((block_number env' <=? lastRewardBlock pool) = true) as ->
    by (apply N.leb_le; lia).
  rewrite Hpool, Hpend. reflexivity.
Qed.

(** ** Pools over a history *)

Lemma pool_step_refl p : pool_step p p.
Proof. unfold pool_step. repeat split; lia. Qed.

Lemma pool_step_trans p1 p2 p3 : pool_step p1 p2 -> pool_step p2 p3 -> pool_step p1 p3.
Proof.
  unfold pool_step. intros (?&?&?&?&?&?) (?&?&?&?&?&?).
  repeat split; try congruence; lia.
Qed.

Lemma pools_evolve_refl s : pools_evolve s s.
Proof. intros i p Hp. exists p. split; [exact Hp | apply pool_step_refl]. Qed.

Lemma pools_evolve_trans s1 s2 s3 :
  pools_evolve s1 s2 -> pools_evolve s2 s3 -> pools_evolve s1 s3.
Proof.
  intros H12 H23 i p Hp.
  destruct (H12 i p Hp) as (p2 & Hp2 & Hs2).
  destruct (H23 i p2 Hp2) as (p3 & Hp3 & Hs3).
  exists p3. split; [exact Hp3 | eapply pool_step_trans; eassumption].
Qed.

Lemma pools_evolve_same s s' : poolInfo s' = poolInfo s -> pools_evolve s s'.
Proof. intros E i p Hp. exists p. rewrite E. split; [exact Hp | apply pool_step_refl]. Qed.

Lemma pools_evolve_write s s' i pool pool' :
  poolInfo s !! i = Some pool ->
  poolInfo s' = <[i := pool']> (poolInfo s) ->
  pool_step pool pool' ->
  pools_evolve s s'.
Proof.
  intros Hpool E Hstep j p Hp. rewrite E.
  destruct (decide (j = i)) as [->|Hne].
  - exists pool'. rewrite list_lookup_insert_eq by (apply lookup_lt_is_Some; eauto).
    split; [reflexivity|]. rewrite Hpool in Hp. injection Hp as <-. exact Hstep.
  - exists p. rewrite list_lookup_insert_ne by congruence.
    split; [exact Hp | apply pool_step_refl].
Qed.

Lemma updatePool_evolves env pid s u s' :
  updatePool env pid s = Ok (u, s') -> pools_evolve s s'.
Proof.
  intros Hrun.
  destruct (poolInfo s !! N.to_nat pid) as [pool|] eqn:Hp.
  2:{ unfold updatePool, bind, readPool in Hrun. rewrite Hp in Hrun. discriminate. }
  rewrite (updatePool_unfold env pid s pool Hp) in Hrun.
  destruct (N.leb_spec (block_number env) (lastRewardBlock pool)) as [Hle|Hgt].
  { injection Hrun as <- <-. apply pools_evolve_refl. }
  destruct (totalStaked pool =? 0).
  { injection Hrun as <- <-. eapply pools_evolve_write; [exact Hp | reflexivity |].
    unfold pool_step. cbn. repeat split; lia. }
  destruct (checked_sub _ _) as [multiplier|]; [|discriminate].
  destruct (checked_mul multiplier _) as [m1|]; [|discriminate].
  destruct (checked_mul m1 _) as [m2|]; [|discriminate].
  destruct (checked_div m2 _) as [reward|]; [|discriminate].
  destruct (checked_mul reward _) as [r1|]; [|discriminate].
  destruct (checked_div r1 _) as [inc|]; [|discriminate].
  destruct (checked_add _ inc) as [acc|] eqn:E7; [|discriminate].
  injection Hrun as <- <-. eapply pools_evolve_write; [exact Hp | reflexivity |].
  apply checked_add_Ok in E7 as [-> _].
  unfold pool_step. cbn. repeat split; lia.
Qed.

Lemma massUpdatePools_loop_evolves env n : forall pid s u s',
  massUpdatePools_loop env n pid s = Ok (u, s') -> pools_evolve s s'.
Proof.
  induction n as [|n IH]; intros pid s u s' Hrun; cbn [massUpdatePools_loop] in Hrun.
  - injection Hrun as <- <-. apply pools_evolve_refl.
  - apply bind_Ok in Hrun as (a & s1 & H1 & H2).
    eapply pools_evolve_trans; [eapply updatePool_evolves; exact H1 | eapply IH; exact H2].
Qed.

Lemma massUpdatePools_evolves env s u s' :
  massUpdatePools env s = Ok (u, s') -> pools_evolve s s'.
Proof.
  unfold massUpdatePools. intros Hrun.
  apply bind_Ok in Hrun as (a & s1 & H1 & H2).
  apply gets_Ok in H1. injection H1 as -> ->.
  eapply massUpdatePools_loop_evolves; exact H2.
Qed.

Lemma dispatch_pools_evolve env c s u s' :
  dispatch env c s = Ok (u, s') -> pools_evolve s s'.
Proof.
  intros H.
  destruct c;
    try (match type of H with
         | dispatch _ ?c' _ = _ =>
             destruct (policy_calls_frame env c' s u s' I H) as [Hp Hu]
         end;
         exact (pools_evolve_same _ _ Hp));
    cbn [dispatch] in H.
  - pose proof H as H0.
    apply addPool_inv in H as (s1 & Hup & Hp & Hu).
    apply massUpdatePools_evolves in Hup.
    eapply pools_evolve_trans; [exact Hup|].
    intros i p Hi. exists p. rewrite Hp.
    split; [apply lookup_app_l_Some; exact Hi | apply pool_step_refl].
  - apply deposit_inv in H as (s1 & s2 & s3 & pool & H). cbv zeta in H.
    destruct H as (_ & _ & _ & Hup & Hpool & Hset & Htr & _ & _ & _ & _ & ->).
    apply updatePool_evolves in Hup.
    eapply pools_evolve_trans; [exact Hup|].
    assert (ledger_only s1 s2) as Hf0.
    { destruct (0 <? amount _).
      - destruct Hset as (pending & _ & Hs). eapply settle_frame; exact Hs.
      - subst s2. apply ledger_only_refl. }
    apply tokenTransfer_frame in Htr.
    pose proof (ledger_only_trans _ _ _ Hf0 Htr) as Hf.
    eapply pools_evolve_write; [exact Hpool | | ].
    + cbn. rewrite (ledger_only_poolInfo _ _ Hf). reflexivity.
    + unfold pool_step. cbn. repeat split; lia.
  - apply withdraw_inv in H as (s1 & s2 & s3 & pool & pending & H). cbv zeta in H.
    destruct H as (_ & _ & _ & Hup & Hpool & _ & Hset & _ & _ & -> & s4 & Htr & ->).
    apply updatePool_evolves in Hup.
    eapply pools_evolve_trans; [exact Hup|].
    apply settle_frame in Hset. apply tokenTransfer_frame in Htr.
    pose proof (ledger_only_poolInfo _ _ Htr) as Hp4. cbn in Hp4.
    eapply pools_evolve_write; [exact Hpool | | ].
    + cbn. rewrite Hp4, (ledger_only_poolInfo _ _ Hset). reflexivity.
    + unfold pool_step. cbn. repeat split; lia.
  - apply emergencyWithdraw_inv in H as (pool & s3 & H). cbv zeta in H.
    destruct H as (_ & Hpool & _ & _ & _ & _ & _ & -> & s4 & Htr & ->).
    apply tokenTransfer_frame in Htr.
    pose proof (ledger_only_poolInfo _ _ Htr) as Hp4. cbn in Hp4.
    eapply pools_evolve_write; [exact Hpool | | ].
    + cbn. rewrite Hp4. reflexivity.
    + unfold pool_step. cbn. repeat split; lia.
  - apply rebalancePosition_accrued in H as (s1 & Hup & ->).
    apply updatePool_evolves in Hup.
    eapply pools_evolve_trans; [exact Hup|]. apply pools_evolve_same. reflexivity.
  - apply massUpdatePools_evolves in H. exact H.
  - apply updatePool_evolves in H. exact H.
  - apply setRewardPerBlock_inv in H as (s1 & Hup & ->).
    apply massUpdatePools_evolves in Hup.
    eapply pools_evolve_trans; [exact Hup|]. apply pools_evolve_same. reflexivity.
  - apply toggleEmergencyWithdraw_inv in H as (pool & Hpool & ->).
    eapply pools_evolve_write; [exact Hpool | reflexivity |].
    unfold pool_step. cbn. repeat split; lia.
Qed.

Lemma exec_pools_evolve env c s : pools_evolve s (exec env c s).
Proof.
  unfold exec. destruct (dispatch env c s) as [[u s']|e] eqn:H.
  - eapply dispatch_pools_evolve; exact H.
  - apply pools_evolve_refl.
Qed.

(** X3: a pool index is a permanent identifier.  Across any sequence of
    calls, from any state, a pool that exists stays at its index with the
    same staking token, reward token, weight and lock period, and its
    accrual height never goes back. *)
Theorem pools_are_permanent tr s i p :
  poolInfo s !! i = Some p ->
  exists p',
    poolInfo (run tr s) !! i = Some p' /\
    stakingToken p' = stakingToken p /\
    rewardToken p' = rewardToken p /\
    allocPoint p' = allocPoint p /\
    minLockPeriod p' = minLockPeriod p /\
    lastRewardBlock p <= lastRewardBlock p'.
Proof.
  assert (forall s, pools_evolve s (run tr s)) as Hall.
  { induction tr as [|[env c] tr IH]; intros s0; cbn [run].
    - apply pools_evolve_refl.
    - eapply pools_evolve_trans; [apply exec_pools_evolve | apply IH]. }
  intros Hp. destruct (Hall s i p Hp) as (p' & Hp' & H1 & H2 & H3 & H4 & H5 & _).
  exists p'. repeat split; assumption.
Qed.

(** ** The total of the weights *)

Lemma allocSum_cons p l : allocSum (p :: l) = allocPoint p + allocSum l.
Proof. reflexivity. Qed.

Lemma allocSum_app l1 l2 : allocSum (l1 ++ l2) = allocSum l1 + allocSum l2.
Proof.
  induction l1 as [|p l1 IH]; [reflexivity|].
  change ((p :: l1) ++ l2)%list with (p :: (l1 ++ l2))%list.
  rewrite !allocSum_cons, IH. lia.
Qed.

Lemma allocSum_insert l : forall i p p',
  l !! i = Some p -> allocPoint p' = allocPoint p ->
  allocSum (<[i := p']> l) = allocSum l.
Proof.
  induction l as [|q l IH]; intros i p p' Hl Ha; [discriminate|].
  destruct i as [|i].
  - injection Hl as ->.
    change (<[0%nat := p']> (p :: l)) with (p' :: l).
    rewrite !allocSum_cons, Ha. reflexivity.
  - change (<[S i := p']> (q :: l)) with (q :: <[i := p']> l).
    rewrite !allocSum_cons. rewrite (IH i p p' Hl Ha). reflexivity.
Qed.

Lemma allocSum_accrued l l' : Forall2 pool_accrued l l' -> allocSum l' = allocSum l.
Proof.
  induction 1 as [|p p' l l' Hpp _ IH]; [reflexivity|].
  rewrite !allocSum_cons, IH.
  destruct Hpp as (_ & _ & -> & _). reflexivity.
Qed.

Lemma accrued_alloc s s' :
  accrued s s' ->
  totalAllocPoint s = allocSum (poolInfo s) ->
  totalAllocPoint s' = allocSum (poolInfo s').
Proof.
  intros [HF E] H. rewrite (allocSum_accrued _ _ HF). rewrite E. cbn. exact H.
Qed.

Lemma ledger_only_alloc s s' :
  ledger_only s s' ->
  totalAllocPoint s = allocSum (poolInfo s) ->
  totalAllocPoint s' = allocSum (poolInfo s').
Proof. intros -> H. exact H. Qed.

Lemma dispatch_alloc env c s u s' :
  dispatch env c s = Ok (u, s') ->
  totalAllocPoint s = allocSum (poolInfo s) ->
  totalAllocPoint s' = allocSum (poolInfo s').
Proof.
  intros H Hinv. destruct c; cbn [dispatch] in H.
  - unfold addPool in H.
    apply bind_Ok in H as ([] & sb & Ho & H). inv_step Ho.
    apply bind_Ok in H as ([] & sb & Hr1 & H). inv_step Hr1.
    apply bind_Ok in H as ([] & sb & Hr2 & H). inv_step Hr2.
    apply bind_Ok in H as ([] & s1 & Hup & H).
    apply massUpdatePools_accrued in Hup.
    pose proof (accrued_alloc _ _ Hup Hinv) as Hinv1.
    apply bind_Ok in H as (tap & sb & Ht & H). inv_step Ht.
    apply bind_Ok in H as (tap' & sb & Ht' & H). apply lift_Ok in Ht' as (? & Ht' & [= -> ->]).
    apply checked_add_Ok in Ht' as [-> _].
    inv_step H. cbn. rewrite allocSum_app, Hinv1. cbn. lia.
  - apply deposit_inv in H as (s1 & s2 & s3 & pool & H). cbv zeta in H.
    destruct H as (_ & _ & _ & Hup & Hpool & Hset & Htr & _ & _ & _ & _ & ->).
    apply updatePool_accrued in Hup.
    assert (ledger_only s1 s2) as Hf0.
    { destruct (0 <? amount _).
      - destruct Hset as (pending & _ & Hs). eapply settle_frame; exact Hs.
      - subst s2. apply ledger_only_refl. }
    apply tokenTransfer_frame in Htr.
    pose proof (ledger_only_alloc _ _ (ledger_only_trans _ _ _ Hf0 Htr)
                  (accrued_alloc _ _ Hup Hinv)) as Hinv3.
    assert (poolInfo s3 !! N.to_nat _pid = Some pool) as Hx
      by (rewrite (ledger_only_poolInfo _ _ (ledger_only_trans _ _ _ Hf0 Htr)); exact Hpool).
    cbn. rewrite (allocSum_insert _ _ pool _ Hx) by reflexivity. exact Hinv3.
  - apply withdraw_inv in H as (s1 & s2 & s3 & pool & pending & H). cbv zeta in H.
    destruct H as (_ & _ & _ & Hup & Hpool & _ & Hset & _ & _ & -> & s4 & Htr & ->).
    apply updatePool_accrued in Hup. apply settle_frame in Hset.
    pose proof (ledger_only_alloc _ _ Hset (accrued_alloc _ _ Hup Hinv)) as Hinv2.
    apply tokenTransfer_frame in Htr. cbn.
    assert (poolInfo s2 !! N.to_nat _pid = Some pool) as Hx
      by (rewrite (ledger_only_poolInfo _ _ Hset); exact Hpool).
    eapply (ledger_only_alloc _ _ Htr). cbn.
    rewrite (allocSum_insert _ _ pool _ Hx) by reflexivity. exact Hinv2.
  - apply emergencyWithdraw_inv in H as (pool & s3 & H). cbv zeta in H.
    destruct H as (_ & Hpool & _ & _ & _ & _ & _ & -> & s4 & Htr & ->).
    apply tokenTransfer_frame in Htr. cbn.
    eapply (ledger_only_alloc _ _ Htr). cbn.
    rewrite (allocSum_insert _ _ pool _ Hpool) by reflexivity. exact Hinv.
  - apply rebalancePosition_accrued in H as (s1 & Hup & ->).
    apply updatePool_accrued in Hup. cbn. exact (accrued_alloc _ _ Hup Hinv).
  - apply massUpdatePools_accrued in H. exact (accrued_alloc _ _ H Hinv).
  - apply updatePool_accrued in H. exact (accrued_alloc _ _ H Hinv).
  - apply setRewardPerBlock_inv in H as (s1 & Hup & ->).
    apply massUpdatePools_accrued in Hup. cbn. exact (accrued_alloc _ _ Hup Hinv).
  - unfold setEmergencyWithdrawFee in H. inv_step H. exact Hinv.
  - apply toggleEmergencyWithdraw_inv in H as (pool & Hpool & ->). cbn.
    rewrite (allocSum_insert _ _ pool _ Hpool) by reflexivity. exact Hinv.
  - unfold setAuthorizedRebalancer in H. inv_step H. exact Hinv.
  - unfold pause in H. inv_step H. exact Hinv.
  - unfold unpause in H. inv_step H. exact Hinv.
  - unfold transferOwnership in H. inv_step H. exact Hinv.
  - unfold renounceOwnership in H. inv_step H. exact Hinv.
  - apply bind_Ok in H as ([] & sb & Hr & H). inv_step Hr.
    apply tokenTransfer_frame in H. exact (ledger_only_alloc _ _ H Hinv).
  - inv_step H. exact Hinv.
Qed.

(** X4: in every state reached from the constructor, [totalAllocPoint] is
    the sum of [allocPoint] over the pools. *)
Theorem totalAllocPoint_is_sum_of_weights s :
  reachable s -> totalAllocPoint s = allocSum (poolInfo s).
Proof.
  intros (deployer & tr & ->).
  assert (totalAllocPoint (constructor deployer) = allocSum (poolInfo (constructor deployer)))
    as H0 by reflexivity.
  revert H0. generalize (constructor deployer).
  induction tr as [|[env c] tr IH]; intros s H0; cbn [run]; [exact H0|].
  apply IH. unfold exec.
  destruct (dispatch env c s) as [[u s']|e] eqn:H; [|exact H0].
  eapply dispatch_alloc; eassumption.
Qed.

(** ** The emergency fee *)

(** X5: in every state reached from the constructor the emergency fee is at
    most [MAX_FEE] basis points, so the fee [emergencyWithdraw] keeps is
    never more than a tenth of the amount. *)
Theorem emergency_fee_is_bounded s :
  reachable s ->
  emergencyWithdrawFee s <= MAX_FEE /\
  forall amt, amt * emergencyWithdrawFee s / 10000 <= amt / 10.
Proof.
  intros Hreach. pose proof (reachable_fee s Hreach) as Hfee.
  split; [exact Hfee|]. intros amt. unfold MAX_FEE in Hfee.
  transitivity (amt * 1000 / 10000).
  - apply N.Div0.div_le_mono. nia.
  - change 10000 with (10 * 1000). rewrite N.Div0.div_mul_cancel_r by lia. lia.
Qed.

(** ** Positions *)

Lemma positions_consistent_same s s' :
  userPositions s' = userPositions s -> positions_consistent s -> positions_consistent s'.
Proof. intros E H k pos. rewrite E. apply H. Qed.

Lemma positions_consistent_write s s' k pos :
  userPositions s' = <[k := pos]> (userPositions s) ->
  (isActive pos = true <-> 0 < amount pos) ->
  positions_consistent s -> positions_consistent s'.
Proof.
  intros E Hpos H k' pos'. rewrite E. intros Hk.
  destruct (decide (k' = k)) as [->|Hne].
  - rewrite lookup_insert_eq in Hk. injection Hk as <-. exact Hpos.
  - rewrite lookup_insert_ne in Hk by congruence. apply (H k' pos' Hk).
Qed.

Lemma positions_consistent_get s pid user :
  positions_consistent s ->
  (isActive (getPosition s pid user) = true <-> 0 < amount (getPosition s pid user)).
Proof.
  intros H. unfold getPosition.
  destruct (userPositions s !! (pid, user)) as [pos|] eqn:Hk; cbn [default from_option id].
  - apply (H _ _ Hk).
  - cbn. split; [discriminate | lia].
Qed.

Lemma dispatch_positions_consistent env c s u s' :
  dispatch env c s = Ok (u, s') -> positions_consistent s -> positions_consistent s'.
Proof.
  intros H Hinv.
  destruct c;
    try (match type of H with
         | dispatch _ ?c' _ = _ =>
             destruct (policy_calls_frame env c' s u s' I H) as [Hp Hu]
         end;
         exact (positions_consistent_same _ _ Hu Hinv));
    cbn [dispatch] in H.
  - apply addPool_inv in H as (s1 & Hup & Hp & Hu).
    apply massUpdatePools_accrued, accrued_userPositions in Hup.
    eapply positions_consistent_same; [|exact Hinv]. congruence.
  - apply deposit_inv in H as (s1 & s2 & s3 & pool & H). cbv zeta in H.
    destruct H as (_ & _ & Hamt & Hup & Hpool & Hset & Htr & _ & _ & _ & _ & ->).
    apply updatePool_accrued, accrued_userPositions in Hup.
    assert (ledger_only s1 s2) as Hf0.
    { destruct (0 <? amount _).
      - destruct Hset as (pending & _ & Hs). eapply settle_frame; exact Hs.
      - subst s2. apply ledger_only_refl. }
    apply tokenTransfer_frame in Htr.
    pose proof (ledger_only_userPositions _ _ (ledger_only_trans _ _ _ Hf0 Htr)) as Hu3.
    eapply (positions_consistent_write s); [| |exact Hinv].
    + cbn. rewrite Hu3, Hup. reflexivity.
    + cbn. split; [lia | reflexivity].
  - apply withdraw_inv in H as (s1 & s2 & s3 & pool & pending & H). cbv zeta in H.
    destruct H as (_ & Hamt & _ & Hup & Hpool & _ & Hset & _ & _ & -> & s4 & Htr & ->).
    apply updatePool_accrued, accrued_userPositions in Hup.
    apply settle_frame, ledger_only_userPositions in Hset.
    apply tokenTransfer_frame, ledger_only_userPositions in Htr. cbn in Htr.
    pose proof (positions_consistent_get s _pid (msg_sender env) Hinv) as Hold.
    eapply (positions_consistent_write s); [| |exact Hinv].
    + cbn. rewrite Htr, Hset, Hup. reflexivity.
    + cbn. destruct (N.eqb_spec (amount (getPosition s _pid (msg_sender env)) - _amount) 0)
        as [E|E].
      * rewrite E. split; [discriminate | lia].
      * split; [lia|]. intros _. apply Hold. lia.
  - apply emergencyWithdraw_inv in H as (pool & s3 & H). cbv zeta in H.
    destruct H as (_ & Hpool & _ & _ & _ & _ & _ & -> & s4 & Htr & ->).
    apply tokenTransfer_frame, ledger_only_userPositions in Htr. cbn in Htr.
    eapply (positions_consistent_write s); [| |exact Hinv].
    + cbn. rewrite Htr. reflexivity.
    + cbn. split; [discriminate | lia].
  - apply rebalancePosition_accrued in H as (s1 & Hup & ->).
    apply updatePool_accrued, accrued_userPositions in Hup.
    eapply positions_consistent_same; [|exact Hinv]. exact Hup.
  - apply massUpdatePools_accrued, accrued_userPositions in H.
    eapply positions_consistent_same; eassumption.
  - apply updatePool_accrued, accrued_userPositions in H.
    eapply positions_consistent_same; eassumption.
  - apply setRewardPerBlock_inv in H as (s1 & Hup & ->).
    apply massUpdatePools_accrued, accrued_userPositions in Hup.
    eapply positions_consistent_same; [|exact Hinv]. exact Hup.
  - apply toggleEmergencyWithdraw_inv in H as (pool & Hpool & ->). exact Hinv.
Qed.

(** X6: in every state reached from the constructor, what
    [getUserPosition] returns is active exactly when its amount is not
    zero; a position never written reads as the zero position, which is not
    active. *)
Theorem position_active_iff_staked s pid user :
  reachable s ->
  (isActive (getUserPosition s pid user) = true
   <-> 0 < amount (getUserPosition s pid user)) /\
  (userPositions s !! (pid, user) = None -> getUserPosition s pid user = zeroPosition).
Proof.
  intros (deployer & tr & ->). split.
  - apply positions_consistent_get.
    assert (positions_consistent (constructor deployer)) as H0.
    { intros k pos. cbn. rewrite lookup_empty. discriminate. }
    revert H0. generalize (constructor deployer).
    induction tr as [|[env c] tr IH]; intros s H0; cbn [run]; [exact H0|].
    apply IH. unfold exec.
    destruct (dispatch env c s) as [[u s']|e] eqn:H; [|exact H0].
    eapply dispatch_positions_consistent; eassumption.
  - intros Hk. unfold getUserPosition, getPosition. rewrite Hk. reflexivity.
Qed.

(** ** Reward debt *)

Lemma debt_covered_pools s s' :
  userPositions s' = userPositions s -> acc_mono s s' ->
  debt_covered s -> debt_covered s'.
Proof.
  intros Hu Hmono H pid user pos. rewrite Hu. intros Hk.
  destruct (H pid user pos Hk) as (pool & Hpool & Hle).
  destruct (Hmono _ _ Hpool) as (pool' & Hpool' & Hacc).
  exists pool'. split; [exact Hpool'|].
  etransitivity; [exact Hle|]. apply N.Div0.div_le_mono. nia.
Qed.

Lemma debt_covered_write s s' pid user pos' pool pool' :
  debt_covered s ->
  poolInfo s !! N.to_nat pid = Some pool ->
  poolInfo s' = <[N.to_nat pid := pool']> (poolInfo s) ->
  accRewardPerShare pool' = accRewardPerShare pool ->
  userPositions s' = <[(pid, user) := pos']> (userPositions s) ->
  rewardDebt pos' <= amount pos' * accRewardPerShare pool' / PRECISION ->
  debt_covered s'.
Proof.
  intros H Hpool Hp Hacc Hu Hnew pid0 user0 pos. rewrite Hu, Hp. intros Hk.
  assert (Hlt : (N.to_nat pid < length (poolInfo s))%nat)
    by (apply lookup_lt_is_Some; eauto).
  destruct (decide ((pid0, user0) = (pid, user))) as [E|Hne].
  - injection E as -> ->. rewrite lookup_insert_eq in Hk. injection Hk as <-.
    exists pool'. split; [apply list_lookup_insert_eq; exact Hlt | exact Hnew].
  - rewrite lookup_insert_ne in Hk by congruence.
    destruct (H pid0 user0 pos Hk) as (pool0 & Hpool0 & Hle).
    destruct (N.eq_dec pid0 pid) as [->|Hpid].
    + exists pool'. split; [apply list_lookup_insert_eq; exact Hlt|].
      rewrite Hpool in Hpool0. injection Hpool0 as <-. rewrite Hacc. exact Hle.
    + exists pool0. split; [|exact Hle].
      rewrite list_lookup_insert_ne by (intros E; apply Hpid; lia). exact Hpool0.
Qed.

Lemma dispatch_debt_covered env c s u s' :
  dispatch env c s = Ok (u, s') -> debt_covered s -> debt_covered s'.
Proof.
  intros H Hinv.
  pose proof (dispatch_acc_mono env c s u s' H) as Hmono.
  destruct c;
    try (match type of H with
         | dispatch _ ?c' _ = _ =>
             destruct (policy_calls_frame env c' s u s' I H) as [Hp Hu]
         end;
         exact (debt_covered_pools _ _ Hu Hmono Hinv));
    cbn [dispatch] in H.
  - apply addPool_inv in H as (s1 & Hup & Hp & Hu).
    apply massUpdatePools_accrued, accrued_userPositions in Hup.
    eapply debt_covered_pools; [|exact Hmono|exact Hinv]. congruence.
  - apply deposit_inv in H as (s1 & s2 & s3 & pool & H). cbv zeta in H.
    destruct H as (_ & _ & Hamt & Hup & Hpool & Hset & Htr & _ & _ & _ & _ & ->).
    apply updatePool_accrued in Hup.
    pose proof (debt_covered_pools _ _ (accrued_userPositions _ _ Hup)
                  (accrued_acc_mono _ _ Hup) Hinv) as Hinv1.
    assert (ledger_only s1 s2) as Hf0.
    { destruct (0 <? amount _).
      - destruct Hset as (pending & _ & Hs). eapply settle_frame; exact Hs.
      - subst s2. apply ledger_only_refl. }
    apply tokenTransfer_frame in Htr.
    pose proof (ledger_only_trans _ _ _ Hf0 Htr) as Hf.
    eapply (debt_covered_write s1 _ _pid (msg_sender env)); [exact Hinv1 | exact Hpool | | | | ].
    + cbn. rewrite (ledger_only_poolInfo _ _ Hf). reflexivity.
    + reflexivity.
    + cbn. rewrite (ledger_only_userPositions _ _ Hf). reflexivity.
    + cbn [rewardDebt amount accRewardPerShare set_totalStaked]. reflexivity.
  - apply withdraw_inv in H as (s1 & s2 & s3 & pool & pending & H). cbv zeta in H.
    destruct H as (_ & _ & _ & Hup & Hpool & _ & Hset & _ & _ & -> & s4 & Htr & ->).
    apply updatePool_accrued in Hup.
    pose proof (debt_covered_pools _ _ (accrued_userPositions _ _ Hup)
                  (accrued_acc_mono _ _ Hup) Hinv) as Hinv1.
    apply settle_frame in Hset. apply tokenTransfer_frame in Htr.
    pose proof (ledger_only_poolInfo _ _ Htr) as Hp4. cbn in Hp4.
    pose proof (ledger_only_userPositions _ _ Htr) as Hu4. cbn in Hu4.
    eapply (debt_covered_write s1 _ _pid (msg_sender env)); [exact Hinv1 | exact Hpool | | | | ].
    + cbn. rewrite Hp4, (ledger_only_poolInfo _ _ Hset). reflexivity.
    + reflexivity.
    + cbn. rewrite Hu4, (ledger_only_userPositions _ _ Hset). reflexivity.
    + cbn [rewardDebt amount accRewardPerShare set_totalStaked]. reflexivity.
  - apply emergencyWithdraw_inv in H as (pool & s3 & H). cbv zeta in H.
    destruct H as (_ & Hpool & _ & _ & _ & _ & _ & -> & s4 & Htr & ->).
    apply tokenTransfer_frame in Htr.
    pose proof (ledger_only_poolInfo _ _ Htr) as Hp4. cbn in Hp4.
    pose proof (ledger_only_userPositions _ _ Htr) as Hu4. cbn in Hu4.
    eapply (debt_covered_write s _ _pid (msg_sender env)); [exact Hinv | exact Hpool | | | | ].
    + cbn. rewrite Hp4. reflexivity.
    + reflexivity.
    + cbn. rewrite Hu4. reflexivity.
    + cbn [rewardDebt]. apply N.le_0_l.
  - apply rebalancePosition_accrued in H as (s1 & Hup & ->).
    apply updatePool_accrued, accrued_userPositions in Hup.
    eapply debt_covered_pools; [|exact Hmono|exact Hinv]. exact Hup.
  - apply massUpdatePools_accrued, accrued_userPositions in H.
    eapply debt_covered_pools; eassumption.
  - apply updatePool_accrued, accrued_userPositions in H.
    eapply debt_covered_pools; eassumption.
  - apply setRewardPerBlock_inv in H as (s1 & Hup & ->).
    apply massUpdatePools_accrued, accrued_userPositions in Hup.
    eapply debt_covered_pools; [|exact Hmono|exact Hinv]. exact Hup.
  - apply toggleEmergencyWithdraw_inv in H as (pool & Hpool & ->).
    eapply debt_covered_pools; [|exact Hmono|exact Hinv]. reflexivity.
Qed.

Lemma reachable_debt_covered s : reachable s -> debt_covered s.
Proof.
  intros (deployer & tr & ->).
  assert (debt_covered (constructor deployer)) as H0.
  { intros pid user pos. cbn. rewrite lookup_empty. discriminate. }
  revert H0. generalize (constructor deployer).
  induction tr as [|[env c] tr IH]; intros s H0; cbn [run]; [exact H0|].
  apply IH. unfold exec.
  destruct (dispatch env c s) as [[u s']|e] eqn:H; [|exact H0].
  eapply dispatch_debt_covered; eassumption.
Qed.

(** X7: the settlement never underflows.  In every state reached from the
    constructor a stored position belongs to a pool that exists, and the
    reward debt of any position is at most what its amount has accrued,
    [amount * accRewardPerShare / 1e12]; so the pending-reward formula of
    [deposit] and [withdraw] returns the difference whenever the product
    fits in 256 bits. *)
Theorem reward_debt_is_covered s pid user pool :
  reachable s ->
  poolInfo s !! N.to_nat pid = Some pool ->
  let position := getUserPosition s pid user in
  rewardDebt position <= amount position * accRewardPerShare pool / PRECISION /\
  (amount position * accRewardPerShare pool <= MAX_UINT256 ->
   pendingOf position pool
   = Ok (amount position * accRewardPerShare pool / PRECISION - rewardDebt position)) /\
  (forall pid' user', is_Some (userPositions s !! (pid', user')) ->
                      is_Some (poolInfo s !! N.to_nat pid')).
Proof.
  intros Hreach Hpool position.
  pose proof (reachable_debt_covered s Hreach) as Hinv.
  assert (rewardDebt position <= amount position * accRewardPerShare pool / PRECISION) as Hle.
  { subst position. unfold getUserPosition, getPosition.
    destruct (userPositions s !! (pid, user)) as [pos|] eqn:Hk; cbn [default from_option id].
    - destruct (Hinv pid user pos Hk) as (pool0 & Hpool0 & Hle).
      rewrite Hpool in Hpool0. injection Hpool0 as <-. exact Hle.
    - cbn [rewardDebt zeroPosition]. apply N.le_0_l. }
  split; [exact Hle|]. split.
  - intros Hfit. unfold pendingOf.
    rewrite (proj2 (checked_mul_Ok _ _ _) (conj eq_refl Hfit)).
    rewrite (proj2 (checked_sub_Ok _ _ _) (conj eq_refl Hle)). reflexivity.
  - intros pid' user' [pos Hk].
    destruct (Hinv pid' user' pos Hk) as (pool0 & Hpool0 & _). eauto.
Qed.

(** ** Rounding *)

(** X8: rounding dust.  For a position whose reward debt was set at the
    accumulator value [acc0] (as [deposit] and [withdraw] set it), the
    pending reward at a later accumulator value is the truncated exact share
    [amount * (acc - acc0) / 1e12], or one unit more; it is never less. *)
Theorem pending_reward_rounding position pool acc0 :
  rewardDebt position = amount position * acc0 / PRECISION ->
  acc0 <= accRewardPerShare pool ->
  amount position * accRewardPerShare pool <= MAX_UINT256 ->
  exists v,
    pendingOf position pool = Ok v /\
    amount position * (accRewardPerShare pool - acc0) / PRECISION <= v /\
    v <= amount position * (accRewardPerShare pool - acc0) / PRECISION + 1.
Proof.
  intros Hdebt Hacc Hfit.
  set (a := amount position) in *. set (acc := accRewardPerShare pool) in *.
  assert (PRECISION <> 0) as HP by (unfold PRECISION; discriminate).
  assert (a * acc0 / PRECISION <= a * acc / PRECISION) as Hle
    by (apply N.Div0.div_le_mono; nia).
  exists (a * acc / PRECISION - a * acc0 / PRECISION). split.
  - unfold pendingOf. fold a acc.
    rewrite (proj2 (checked_mul_Ok _ _ _) (conj eq_refl Hfit)).
    rewrite Hdebt.
    rewrite (proj2 (checked_sub_Ok _ _ _) (conj eq_refl Hle)). reflexivity.
  - assert (a * acc = a * acc0 + a * (acc - acc0)) as Hsplit by nia.
    pose proof (N.div_mod (a * acc) PRECISION HP) as E1.
    pose proof (N.div_mod (a * acc0) PRECISION HP) as E0.
    pose proof (N.div_mod (a * (acc - acc0)) PRECISION HP) as Ed.
    pose proof (N.mod_lt (a * acc) PRECISION HP) as L1.
    pose proof (N.mod_lt (a * acc0) PRECISION HP) as L0.
    pose proof (N.mod_lt (a * (acc - acc0)) PRECISION HP) as Ld.
    generalize dependent (a * acc / PRECISION). generalize dependent ((a * acc) mod PRECISION).
    generalize dependent (a * acc0 / PRECISION). generalize dependent ((a * acc0) mod PRECISION).
    generalize dependent (a * (acc - acc0) / PRECISION).
    generalize dependent ((a * (acc - acc0)) mod PRECISION).
    generalize dependent (a * acc). generalize dependent (a * acc0).
    generalize dependent (a * (acc - acc0)).
    generalize dependent PRECISION.
    intros. nia.
Qed.

(** ** The sweep over all pools *)







(** ** Changing the emission rate *)


(** ** Registering a pool *)


(** ** Who may change the policy *)

Lemma policy_same_refl s : policy_same s s.
Proof. unfold policy_same. repeat split. Qed.

Lemma policy_same_trans s1 s2 s3 :
  policy_same s1 s2 -> policy_same s2 s3 -> policy_same s1 s3.
Proof.
  unfold policy_same. intros (?&?&?&?&?&?) (?&?&?&?&?&?).
  repeat split; congruence.
Qed.

Lemma accrued_policy_same s s' : accrued s s' -> policy_same s s'.
Proof. intros [_ ->]. unfold policy_same. cbn. repeat split. Qed.

Lemma ledger_only_policy_same s s' : ledger_only s s' -> policy_same s s'.
Proof. intros ->. unfold policy_same. cbn. repeat split. Qed.

Lemma pool_config_same_refl p : pool_config_same p p.
Proof. unfold pool_config_same. repeat split. Qed.

Lemma config_kept_refl s : config_kept s s.
Proof.
  split; [reflexivity|]. intros i p Hp. exists p.
  split; [exact Hp | apply pool_config_same_refl].
Qed.

Lemma config_kept_trans s1 s2 s3 :
  config_kept s1 s2 -> config_kept s2 s3 -> config_kept s1 s3.
Proof.
  intros [L12 H12] [L23 H23]. split; [congruence|].
  intros i p Hp.
  destruct (H12 i p Hp) as (p2 & Hp2 & (?&?&?&?&?)).
  destruct (H23 i p2 Hp2) as (p3 & Hp3 & (?&?&?&?&?)).
  exists p3. split; [exact Hp3|]. unfold pool_config_same. repeat split; congruence.
Qed.

Lemma config_kept_same s s' : poolInfo s' = poolInfo s -> config_kept s s'.
Proof.
  intros E. split; [rewrite E; reflexivity|]. intros i p Hp. exists p. rewrite E.
  split; [exact Hp | apply pool_config_same_refl].
Qed.

Lemma config_kept_write s s' i pool pool' :
  poolInfo s !! i = Some pool ->
  poolInfo s' = <[i := pool']> (poolInfo s) ->
  pool_config_same pool pool' ->
  config_kept s s'.
Proof.
  intros Hpool E Hcfg. split; [rewrite E; apply length_insert|].
  intros j p Hp. rewrite E.
  destruct (decide (j = i)) as [->|Hne].
  - exists pool'. rewrite list_lookup_insert_eq by (apply lookup_lt_is_Some; eauto).
    split; [reflexivity|]. rewrite Hpool in Hp. injection Hp as <-. exact Hcfg.
  - exists p. rewrite list_lookup_insert_ne by congruence.
    split; [exact Hp | apply pool_config_same_refl].
Qed.

Lemma accrued_config_kept s s' : accrued s s' -> config_kept s s'.
Proof.
  intros [HF _]. split; [symmetry; apply (Forall2_length _ _ _ HF)|].
  intros i p Hp. destruct (Forall2_lookup_l _ _ _ _ _ HF Hp) as (p' & Hp' & Hpp).
  exists p'. split; [exact Hp'|].
  destruct Hpp as (?&?&?&?&?&?&?). unfold pool_config_same. repeat split; assumption.
Qed.

(** What a call open to everyone can change. *)
Lemma open_call_frame env c s u s' :
  owner_only c = false ->
  dispatch env c s = Ok (u, s') ->
  policy_same s s' /\ config_kept s s'.
Proof.
  intros Hc H. destruct c; try discriminate Hc; cbn [dispatch] in H.
  - apply deposit_inv in H as (s1 & s2 & s3 & pool & H). cbv zeta in H.
    destruct H as (_ & _ & _ & Hup & Hpool & Hset & Htr & _ & _ & _ & _ & ->).
    apply updatePool_accrued in Hup.
    assert (ledger_only s1 s2) as Hf0.
    { destruct (0 <? amount _).
      - destruct Hset as (pending & _ & Hs). eapply settle_frame; exact Hs.
      - subst s2. apply ledger_only_refl. }
    apply tokenTransfer_frame in Htr.
    pose proof (ledger_only_trans _ _ _ Hf0 Htr) as Hf.
    split.
    + eapply policy_same_trans; [apply (accrued_policy_same _ _ Hup)|].
      eapply policy_same_trans; [apply (ledger_only_policy_same _ _ Hf)|].
      unfold policy_same. cbn. repeat split.
    + eapply config_kept_trans; [apply (accrued_config_kept _ _ Hup)|].
      eapply (config_kept_write _ _ _ pool (set_totalStaked _ pool));
        [exact Hpool | | unfold pool_config_same; cbn; repeat split].
      cbn. rewrite (ledger_only_poolInfo _ _ Hf). reflexivity.
  - apply withdraw_inv in H as (s1 & s2 & s3 & pool & pending & H). cbv zeta in H.
    destruct H as (_ & _ & _ & Hup & Hpool & _ & Hset & _ & _ & -> & s4 & Htr & ->).
    apply updatePool_accrued in Hup. apply settle_frame in Hset.
    apply tokenTransfer_frame in Htr.
    split.
    + eapply policy_same_trans; [apply (accrued_policy_same _ _ Hup)|].
      eapply policy_same_trans; [apply (ledger_only_policy_same _ _ Hset)|].
      pose proof (ledger_only_policy_same _ _ Htr) as Hp4.
      unfold policy_same in *. cbn in *. exact Hp4.
    + eapply config_kept_trans; [apply (accrued_config_kept _ _ Hup)|].
      eapply (config_kept_write _ _ _ pool (set_totalStaked _ pool));
        [exact Hpool | | unfold pool_config_same; cbn; repeat split].
      cbn. rewrite (ledger_only_poolInfo _ _ Htr). cbn.
      rewrite (ledger_only_poolInfo _ _ Hset). reflexivity.
  - apply emergencyWithdraw_inv in H as (pool & s3 & H). cbv zeta in H.
    destruct H as (_ & Hpool & _ & _ & _ & _ & _ & -> & s4 & Htr & ->).
    apply tokenTransfer_frame in Htr.
    split.
    + pose proof (ledger_only_policy_same _ _ Htr) as Hp4.
      unfold policy_same in *. cbn in *. exact Hp4.
    + eapply (config_kept_write _ _ _ pool (set_totalStaked _ pool));
        [exact Hpool | | unfold pool_config_same; cbn; repeat split].
      cbn. rewrite (ledger_only_poolInfo _ _ Htr). reflexivity.
  - apply rebalancePosition_accrued in H as (s1 & Hup & ->).
    apply updatePool_accrued in Hup.
    split; [|apply (config_kept_trans _ _ _ (accrued_config_kept _ _ Hup));
              apply config_kept_same; reflexivity].
    pose proof (accrued_policy_same _ _ Hup) as Hp1.
    unfold policy_same in *. cbn in *. exact Hp1.
  - apply massUpdatePools_accrued in H.
    split; [apply (accrued_policy_same _ _ H) | apply (accrued_config_kept _ _ H)].
  - apply updatePool_accrued in H.
    split; [apply (accrued_policy_same _ _ H) | apply (accrued_config_kept _ _ H)].
  - apply bind_Ok in H as ([] & sb & Hr & H). inv_step Hr.
    apply tokenTransfer_frame in H.
    split; [apply (ledger_only_policy_same _ _ H)|].
    apply config_kept_same, (ledger_only_poolInfo _ _ H).
  - inv_step H. split; [unfold policy_same; cbn; repeat split|].
    apply config_kept_same. reflexivity.
Qed.

Lemma owner_only_refused env c s :
  msg_sender env <> owner s ->
  owner_only c = true ->
  dispatch env c s = Revert (RequireFailed "Ownable: caller is not the owner").
Proof.
  intros Hne Hc.
  assert ((owner s =? msg_sender env) = false) as Hb by (apply N.eqb_neq; congruence).
  destruct c; try discriminate Hc; cbn [dispatch];
    unfold addPool, setRewardPerBlock, setEmergencyWithdrawFee, toggleEmergencyWithdraw,
      setAuthorizedRebalancer, pause, unpause, transferOwnership, renounceOwnership,
      onlyOwner;
    unfold bind at 1; unfold bind at 1; unfold gets at 1; rewrite Hb; reflexivity.
Qed.

(** X12: only the owner changes the policy.  A call from any other account
    to [addPool], [setRewardPerBlock], [setEmergencyWithdrawFee],
    [toggleEmergencyWithdraw], [setAuthorizedRebalancer], [pause],
    [unpause] or an ownership transfer reverts with the owner error; and
    whatever call such an account makes, the transaction leaves the reward
    rate, the fee, the pause flag, the rebalancer set, the owner, the total
    weight, the number of pools and each pool's tokens, weight, lock period
    and emergency flag as they were. *)
Theorem only_owner_changes_policy env c s :
  msg_sender env <> owner s ->
  (owner_only c = true ->
     dispatch env c s = Revert (RequireFailed "Ownable: caller is not the owner")) /\
  policy_same s (exec env c s) /\
  config_kept s (exec env c s).
Proof.
  intros Hne. split; [apply owner_only_refused; exact Hne|].
  unfold exec. destruct (owner_only c) eqn:Hc.
  - rewrite (owner_only_refused env c s Hne Hc).
    split; [apply policy_same_refl | apply config_kept_refl].
  - destruct (dispatch env c s) as [[u s']|e] eqn:H.
    + eapply open_call_frame; eassumption.
    + split; [apply policy_same_refl | apply config_kept_refl].
Qed.

(** ** What the ledger operations refuse *)

Lemma poolLength_ge_lookup s pid :
  poolLength s <= pid -> (pid <? poolLength s) = false.
Proof. intros H. apply N.ltb_ge. exact H. Qed.

(** X13: a deposit of nothing never succeeds, in any state: it reverts
    with the pause error, the pool error or the amount error, in that
    order, and the transaction leaves the state as it was.  On a pool index
    out of range every deposit reverts. *)
Theorem deposit_refusals env pid s :
  is_ok (deposit env pid 0 s) = false /\
  exec env (CDeposit pid 0) s = s /\
  (paused s = false -> pid < poolLength s ->
     deposit env pid 0 s = Revert (RequireFailed "Amount must be greater than 0")) /\
  (paused s = false -> poolLength s <= pid ->
     forall amt, deposit env pid amt s = Revert (RequireFailed "Invalid pool ID")).
Proof.
  assert (forall amt,
            deposit env pid amt s =
              if paused s then Revert (RequireFailed "Pausable: paused")
              else if pid <? poolLength s then
                     if 0 <? amt
                     then bind (updatePool env pid)
                            (fun _ => bind (readPool pid) (fun pool =>
                             bind (readPosition pid (msg_sender env)) (fun position =>
                             bind (if 0 <? amount position
                                   then bind (lift (pendingOf position pool))
                                          (fun pending => settle env pid pool pending)
                                   else ret tt) (fun _ =>
                             bind (safeTransferFrom (stakingToken pool) (msg_sender env)
                                     (this env) amt) (fun _ =>
                             bind (lift (checked_add (amount position) amt)) (fun amount' =>
                             bind (lift (checked_mul amount' (accRewardPerShare pool)))
                               (fun prod =>
                             bind (lift (checked_add (block_timestamp env)
                                           (minLockPeriod pool))) (fun lockEnd =>
                             bind (writePosition pid (msg_sender env)
                                     (mkPosition amount' (block_number env)
                                        (prod / PRECISION) lockEnd true)) (fun _ =>
                             bind (lift (checked_add (totalStaked pool) amt))
                               (fun staked' =>
                             bind (writePool pid (set_totalStaked staked' pool)) (fun _ =>
                             emit (Deposit (msg_sender env) pid amt)))))))))))) s
                     else Revert (RequireFailed "Amount must be greater than 0")
                   else Revert (RequireFailed "Invalid pool ID")) as Hshape.
  { intros amt. unfold deposit, whenNotPaused.
    unfold bind at 1. unfold bind at 1. unfold gets at 1.
    destruct (paused s); [reflexivity|]. cbn [negb require ret].
    unfold bind at 1. unfold gets at 1.
    unfold bind at 1.
    destruct (pid <? poolLength s); [|reflexivity]. cbn [require ret].
    unfold bind at 1.
    destruct (0 <? amt); reflexivity. }
  assert (is_ok (deposit env pid 0 s) = false) as Hno.
  { rewrite Hshape. destruct (paused s); [reflexivity|].
    destruct (pid <? poolLength s); reflexivity. }
  split; [exact Hno|]. split.
  - unfold exec. cbn [dispatch].
    destruct (deposit env pid 0 s) as [[u s']|e]; [discriminate | reflexivity].
  - split.
    + intros Hp Hlt. rewrite Hshape, Hp.
      apply N.ltb_lt in Hlt. rewrite Hlt. reflexivity.
    + intros Hp Hge amt. rewrite Hshape, Hp.
      rewrite (poolLength_ge_lookup _ _ Hge). reflexivity.
Qed.

Lemma withdraw_invalid_pool env pid amt s :
  poolLength s <= pid ->
  withdraw env pid amt s = Revert (RequireFailed "Invalid pool ID").
Proof.
  intros Hge. unfold withdraw.
  rewrite (bind_eq _ _ s (poolLength s) s) by reflexivity.
  rewrite (poolLength_ge_lookup _ _ Hge). reflexivity.
Qed.

Lemma withdraw_insufficient env pid amt s :
  pid < poolLength s -> amount (getPosition s pid (msg_sender env)) < amt ->
  withdraw env pid amt s = Revert (RequireFailed "Insufficient balance").
Proof.
  intros Hlt Hamt. unfold withdraw.
  rewrite (bind_eq _ _ s (poolLength s) s) by reflexivity.
  apply N.ltb_lt in Hlt. rewrite Hlt.
  rewrite (bind_eq _ _ s tt s) by reflexivity.
  rewrite (bind_eq _ _ s (getPosition s pid (msg_sender env)) s) by reflexivity.
  apply N.leb_gt in Hamt. rewrite Hamt. reflexivity.
Qed.

Lemma withdraw_locked env pid amt s :
  pid < poolLength s -> amt <= amount (getPosition s pid (msg_sender env)) ->
  block_timestamp env < lockEndTime (getPosition s pid (msg_sender env)) ->
  withdraw env pid amt s = Revert (RequireFailed "Position still locked").
Proof.
  intros Hlt Hamt Hlock. unfold withdraw.
  rewrite (bind_eq _ _ s (poolLength s) s) by reflexivity.
  apply N.ltb_lt in Hlt. rewrite Hlt.
  rewrite (bind_eq _ _ s tt s) by reflexivity.
  rewrite (bind_eq _ _ s (getPosition s pid (msg_sender env)) s) by reflexivity.
  apply N.leb_le in Hamt. rewrite Hamt.
  rewrite (bind_eq _ _ s tt s) by reflexivity.
  apply N.leb_gt in Hlock. rewrite Hlock. reflexivity.
Qed.

(** X14: [withdraw] refuses, in this order, a pool index out of range, an
    amount above what the position holds, and a position still locked;
    before the lock end not even a withdrawal of nothing goes through.  A
    refused withdrawal leaves the state as it was. *)
Theorem withdraw_refusals env pid amt s :
  let position := getUserPosition s pid (msg_sender env) in
  (poolLength s <= pid ->
     withdraw env pid amt s = Revert (RequireFailed "Invalid pool ID")) /\
  (pid < poolLength s -> amount position < amt ->
     withdraw env pid amt s = Revert (RequireFailed "Insufficient balance")) /\
  (pid < poolLength s -> amt <= amount position ->
   block_timestamp env < lockEndTime position ->
     withdraw env pid amt s = Revert (RequireFailed "Position still locked")) /\
  (amount position < amt \/ block_timestamp env < lockEndTime position ->
     is_ok (withdraw env pid amt s) = false /\ exec env (CWithdraw pid amt) s = s).
Proof.
  intros position. subst position. unfold getUserPosition.
  split; [apply withdraw_invalid_pool|].
  split; [apply withdraw_insufficient|].
  split; [apply withdraw_locked|].
  intros Hor.
  assert (is_ok (withdraw env pid amt s) = false) as Hno.
  { destruct (N.lt_ge_cases pid (poolLength s)) as [Hlt|Hge].
    - destruct (N.lt_ge_cases (amount (getPosition s pid (msg_sender env))) amt)
        as [Hamt|Hamt].
      + rewrite withdraw_insufficient by assumption. reflexivity.
      + destruct Hor as [Hbad|Hlock]; [lia|].
        rewrite withdraw_locked by assumption. reflexivity.
    - rewrite withdraw_invalid_pool by assumption. reflexivity. }
  split; [exact Hno|]. unfold exec. cbn [dispatch].
  destruct (withdraw env pid amt s) as [[u s']|e]; [discriminate | reflexivity].
Qed.

Lemma emergencyWithdraw_checks env pid s :
  emergencyWithdraw env pid s =
    match poolInfo s !! N.to_nat pid with
    | None => Revert (RequireFailed "Invalid pool ID")
    | Some pool =>
        if 0 <? amount (getPosition s pid (msg_sender env)) then
          if isEmergencyWithdrawEnabled pool then emergencyWithdraw env pid s
          else Revert (RequireFailed "Emergency withdraw not enabled")
        else Revert (RequireFailed "No position to withdraw")
    end.
Proof.
  destruct (poolInfo s !! N.to_nat pid) as [pool|] eqn:Hp.
  - destruct (0 <? amount (getPosition s pid (msg_sender env))) eqn:E1.
    + destruct (isEmergencyWithdrawEnabled pool) eqn:E2; [reflexivity|].
      unfold emergencyWithdraw.
      rewrite (bind_eq _ _ s (poolLength s) s) by reflexivity.
      rewrite (lookup_poolLength s pid pool Hp).
      rewrite (bind_eq _ _ s tt s) by reflexivity.
      rewrite (bind_eq _ _ s pool s) by (unfold readPool; rewrite Hp; reflexivity).
      rewrite (bind_eq _ _ s (getPosition s pid (msg_sender env)) s) by reflexivity.
      rewrite E1.
      rewrite (bind_eq _ _ s tt s) by reflexivity.
      rewrite E2. reflexivity.
    + unfold emergencyWithdraw.
      rewrite (bind_eq _ _ s (poolLength s) s) by reflexivity.
      rewrite (lookup_poolLength s pid pool Hp).
      rewrite (bind_eq _ _ s tt s) by reflexivity.
      rewrite (bind_eq _ _ s pool s) by (unfold readPool; rewrite Hp; reflexivity).
      rewrite (bind_eq _ _ s (getPosition s pid (msg_sender env)) s) by reflexivity.
      rewrite E1. reflexivity.
  - unfold emergencyWithdraw.
    rewrite (bind_eq _ _ s (poolLength s) s) by reflexivity.
    assert ((pid <? poolLength s) = false) as ->.
    { apply N.ltb_ge. apply lookup_ge_None in Hp. unfold poolLength. lia. }
    reflexivity.
Qed.

(** X15: [emergencyWithdraw] refuses a pool index out of range, an account
    that holds nothing in the pool and, after that, a pool whose emergency
    exit is not enabled.  There is no second exit: after a successful
    [emergencyWithdraw] the same account is refused another one, is refused
    every withdrawal of more than nothing, and has no pending reward left
    against any accumulator value. *)
Theorem emergencyWithdraw_refusals env pid s :
  let position := getUserPosition s pid (msg_sender env) in
  (poolLength s <= pid ->
     emergencyWithdraw env pid s = Revert (RequireFailed "Invalid pool ID")) /\
  (pid < poolLength s -> amount position = 0 ->
     emergencyWithdraw env pid s = Revert (RequireFailed "No position to withdraw")) /\
  (forall pool, poolInfo s !! N.to_nat pid = Some pool ->
     0 < amount position -> isEmergencyWithdrawEnabled pool = false ->
     emergencyWithdraw env pid s = Revert (RequireFailed "Emergency withdraw not enabled")) /\
  (forall u s', emergencyWithdraw env pid s = Ok (u, s') ->
     forall env', msg_sender env' = msg_sender env ->
       emergencyWithdraw env' pid s' = Revert (RequireFailed "No position to withdraw") /\
       (forall x, 0 < x ->
          withdraw env' pid x s' = Revert (RequireFailed "Insufficient balance")) /\
       (forall pool', pendingOf (getUserPosition s' pid (msg_sender env)) pool' = Ok 0)).
Proof.
  intros position. subst position. unfold getUserPosition.
  split; [|split; [|split]].
  - intros Hge. rewrite emergencyWithdraw_checks.
    destruct (poolInfo s !! N.to_nat pid) as [pool|] eqn:Hp; [|reflexivity].
    pose proof (lookup_poolLength s pid pool Hp) as Hlt. apply N.ltb_lt in Hlt. lia.
  - intros Hlt Hz. rewrite emergencyWithdraw_checks.
    destruct (poolInfo s !! N.to_nat pid) as [pool|] eqn:Hp.
    + rewrite Hz. reflexivity.
    + apply lookup_ge_None in Hp. unfold poolLength in Hlt. lia.
  - intros pool Hp Hpos Hen. rewrite emergencyWithdraw_checks, Hp.
    apply N.ltb_lt in Hpos. rewrite Hpos, Hen. reflexivity.
  - intros u s' Hrun env' Hsender.
    apply emergencyWithdraw_inv in Hrun as (pool & s3 & H). cbv zeta in H.
    destruct H as (_ & Hpool & _ & _ & _ & _ & _ & -> & s4 & Htr & ->).
    apply tokenTransfer_frame in Htr.
    pose proof (ledger_only_poolInfo _ _ Htr) as Hp4. cbn in Hp4.
    pose proof (ledger_only_userPositions _ _ Htr) as Hu4. cbn in Hu4.
    set (s' := set_events _ s4).
    assert (getPosition s' pid (msg_sender env)
            = mkPosition 0 (userLastRewardBlock (getPosition s pid (msg_sender env))) 0
                (lockEndTime (getPosition s pid (msg_sender env))) false) as Epos.
    { unfold getPosition at 1, s'. cbn [userPositions set_events]. rewrite Hu4.
      rewrite lookup_insert_eq. reflexivity. }
    assert (poolInfo s' !! N.to_nat pid
            = Some (set_totalStaked
                      (totalStaked pool - amount (getPosition s pid (msg_sender env))) pool))
      as Hpool'.
    { unfold s'. cbn [poolInfo set_events]. rewrite Hp4.
      apply list_lookup_insert_eq. apply lookup_lt_is_Some. eauto. }
    split; [|split].
    + rewrite emergencyWithdraw_checks, Hpool', Hsender, Epos. reflexivity.
    + intros x Hx. apply withdraw_insufficient.
      * apply N.ltb_lt. apply (lookup_poolLength s' pid _ Hpool').
      * rewrite Hsender, Epos. exact Hx.
    + intros pool'. rewrite Epos. unfold pendingOf. cbn [amount rewardDebt].
      assert (0 * accRewardPerShare pool' <= MAX_UINT256) as H0
        by (rewrite N.mul_0_l; apply N.le_0_l).
      rewrite (proj2 (checked_mul_Ok _ _ _) (conj eq_refl H0)).
      rewrite (proj2 (checked_sub_Ok _ _ _) (conj eq_refl (N.le_0_l _))).
      rewrite N.mul_0_l. reflexivity.
Qed.

(** ** Getting out *)



(** X16: the way out stays open.  In a state reached from the constructor,
    once the lock has expired, a withdrawal of at most the position's amount
    succeeds whenever the accrual of the pool succeeds, the product
    [amount * accRewardPerShare] fits in 256 bits and the contract holds
    that much of the staking token, for a pool whose reward token is
    another token; neither the pause flag nor the reward custody can
    prevent it.  The position and the pool lose exactly the amount, the
    account receives it, and the lock end stays. *)
Theorem withdraw_succeeds_after_lock env pid amt s s1 pool :
  let position := getUserPosition s pid (msg_sender env) in
  reachable s ->
  updatePool env pid s = Ok (tt, s1) ->
  poolInfo s1 !! N.to_nat pid = Some pool ->
  amt <= amount position ->
  lockEndTime position <= block_timestamp env ->
  amount position * accRewardPerShare pool <= MAX_UINT256 ->
  stakingToken pool <> rewardToken pool ->
  amt <= balanceOf s (stakingToken pool) (this env) ->
  exists s',
    withdraw env pid amt s = Ok (tt, s') /\
    amount (getUserPosition s' pid (msg_sender env)) = amount position - amt /\
    lockEndTime (getUserPosition s' pid (msg_sender env)) = lockEndTime position /\
    poolInfo s' !! N.to_nat pid = Some (set_totalStaked (totalStaked pool - amt) pool) /\
    amt <= totalStaked pool /\
    (msg_sender env <> this env ->
       balanceOf s' (stakingToken pool) (msg_sender env)
       = balanceOf s (stakingToken pool) (msg_sender env) + amt).
Proof.
  intros position Hreach Hup Hpool Hamt Hlock Hfit Htok Hbal.
  subst position. unfold getUserPosition in *.
  pose proof (updatePool_accrued _ _ _ _ _ Hup) as Hacc.
  pose proof (accrued_ledger_inv _ _ Hacc (reachable_ledger_inv s Hreach)) as Hinv1.
  pose proof (debt_covered_pools _ _ (accrued_userPositions _ _ Hacc)
                (accrued_acc_mono _ _ Hacc) (reachable_debt_covered s Hreach)) as Hdebt1.
  assert (getPosition s1 pid (msg_sender env) = getPosition s pid (msg_sender env)) as Epos.
  { unfold getPosition. rewrite (accrued_userPositions _ _ Hacc). reflexivity. }
  set (position := getPosition s pid (msg_sender env)) in *.
  assert (Hlt : (N.to_nat pid < length (poolInfo s1))%nat)
    by (apply lookup_lt_is_Some; eauto).
  assert (pid < poolLength s) as Hpid.
  { destruct Hacc as [HF _]. rewrite <- (Forall2_length _ _ _ HF) in Hlt.
    unfold poolLength. lia. }
  assert (rewardDebt position <= amount position * accRewardPerShare pool / PRECISION)
    as Hcov.
  { subst position. rewrite <- Epos. unfold getPosition.
    destruct (userPositions s1 !! (pid, msg_sender env)) as [pos|] eqn:Hk;
      cbn [default from_option id].
    - destruct (Hdebt1 _ _ _ Hk) as (pool0 & Hpool0 & Hle).
      rewrite Hpool in Hpool0. injection Hpool0 as <-. exact Hle.
    - cbn [rewardDebt zeroPosition]. apply N.le_0_l. }
  assert (pendingOf position pool
          = Ok (amount position * accRewardPerShare pool / PRECISION - rewardDebt position))
    as Hpend.
  { unfold pendingOf.
    rewrite (proj2 (checked_mul_Ok _ _ _) (conj eq_refl Hfit)).
    rewrite (proj2 (checked_sub_Ok _ _ _) (conj eq_refl Hcov)). reflexivity. }
  pose proof (ledger_inv_staked_ge s1 pid (msg_sender env) pool Hinv1 Hpool) as Hge.
  rewrite Epos in Hge.
  set (pending := amount position * accRewardPerShare pool / PRECISION - rewardDebt position)
    in *.
  assert (exists s2,
            settle env pid pool pending s1 = Ok (tt, s2) /\
            poolInfo s2 = poolInfo s1 /\ userPositions s2 = userPositions s1 /\
            forall holder,
              balanceOf s2 (stakingToken pool) holder
              = balanceOf s (stakingToken pool) holder) as (s2 & Hset & Hp2 & Hu2 & Hb2).
  { eexists. split; [apply settle_eq|].
    unfold balanceOf. destruct (0 <? pending); cbn; repeat split; intros;
      rewrite ?moveTokens_other_token by exact Htok;
      rewrite (accrued_balances _ _ Hacc); reflexivity. }
  pose proof (withdraw_intro env pid amt s s1 s2 pool pending) as Hw. cbv zeta in Hw.
  fold position in Hw.
  specialize (Hw Hpid Hamt Hlock Hup Hpool Hpend Hset ltac:(nia) ltac:(lia)
                 ltac:(rewrite Hb2; exact Hbal)).
  eexists. split; [exact Hw|].
  cbn [events balances poolInfo userPositions set_events set_balances set_poolInfo
       set_userPositions].
  unfold getPosition at 1 2.
  cbn [events balances poolInfo userPositions set_events set_balances set_poolInfo
       set_userPositions].
  rewrite !lookup_insert_eq. cbn [default from_option id amount lockEndTime].
  split; [reflexivity|]. split; [reflexivity|].
  split; [rewrite Hp2; apply list_lookup_insert_eq; exact Hlt|].
  split; [lia|].
  intros Hne. unfold balanceOf at 1. cbn [balances set_events set_balances].
  rewrite moveTokens_to by congruence.
  f_equal. exact (Hb2 (msg_sender env)).
Qed.

(** ** The rebalancer set *)

(** X17: after the constructor the deployer is the one authorized
    rebalancer.  A successful [setAuthorizedRebalancer] is made by the
    owner, sets the flag of the given account and of no other, and changes
    nothing else; an account whose flag was cleared, the owner included, is
    refused by [rebalancePosition]. *)
Theorem setAuthorizedRebalancer_sets_one_flag env a b s u s' :
  setAuthorizedRebalancer env a b s = Ok (u, s') ->
  owner s = msg_sender env /\
  s' = set_authorizedRebalancers (<[a := b]> (authorizedRebalancers s)) s /\
  (forall a', isAuthorized s' a' = if decide (a' = a) then b else isAuthorized s a') /\
  (b = false ->
   forall env' pid user x, msg_sender env' = a ->
     rebalancePosition env' pid user x s' = Revert (RequireFailed "Not authorized")) /\
  (forall d a', isAuthorized (constructor d) a' = true <-> a' = d).
Proof.
  intros H. unfold setAuthorizedRebalancer in H.
  apply bind_Ok in H as ([] & sb & Ho & H). inv_step Ho. inv_step H.
  split; [apply N.eqb_eq; assumption|]. split; [reflexivity|].
  assert (forall a',
            isAuthorized
              (set_authorizedRebalancers (<[a:=b]> (authorizedRebalancers s)) s) a'
            = if decide (a' = a) then b else isAuthorized s a') as Hset.
  { intros a'. unfold isAuthorized. cbn [authorizedRebalancers set_authorizedRebalancers].
    destruct (decide (a' = a)) as [->|Hne].
    - rewrite lookup_insert_eq. reflexivity.
    - rewrite lookup_insert_ne by congruence. reflexivity. }
  split; [exact Hset|]. split.
  - intros -> env' pid user x Hsender. unfold rebalancePosition.
    erewrite bind_eq by reflexivity.
    rewrite Hsender, Hset. destruct (decide (a = a)); [reflexivity | congruence].
  - intros d a'. unfold isAuthorized, constructor. cbn [authorizedRebalancers].
    destruct (decide (a' = d)) as [->|Hne].
    + rewrite lookup_singleton_eq. split; reflexivity.
    + rewrite lookup_singleton_ne by congruence. split; [discriminate | congruence].
Qed.

(** ** The emergency switch *)

(** X18: [toggleEmergencyWithdraw], called by the owner, panics on a pool
    index out of range (it has no [require]); on a pool that exists it sets
    the flag of that pool and changes nothing else.  Once the flag is off,
    [emergencyWithdraw] on that pool succeeds for no caller. *)
Theorem toggleEmergencyWithdraw_sets_flag env pid b s :
  owner s = msg_sender env ->
  (poolInfo s !! N.to_nat pid = None ->
     toggleEmergencyWithdraw env pid b s = Revert PanicIndex) /\
  (forall pool, poolInfo s !! N.to_nat pid = Some pool ->
     let s' := set_poolInfo
                 (<[N.to_nat pid := set_isEmergencyWithdrawEnabled b pool]> (poolInfo s)) s in
     toggleEmergencyWithdraw env pid b s = Ok (tt, s') /\
     poolInfo s' !! N.to_nat pid
       = Some (mkPoolInfo (stakingToken pool) (rewardToken pool) (allocPoint pool)
                 (lastRewardBlock pool) (accRewardPerShare pool) (totalStaked pool)
                 (minLockPeriod pool) b) /\
     (forall i, i <> N.to_nat pid -> poolInfo s' !! i = poolInfo s !! i) /\
     (b = false -> forall env', is_ok (emergencyWithdraw env' pid s') = false)).
Proof.
  intros Hown.
  assert ((owner s =? msg_sender env) = true) as Hb by (apply N.eqb_eq; exact Hown).
  split.
  - intros Hp. unfold toggleEmergencyWithdraw, onlyOwner.
    unfold bind at 1. unfold bind at 1. unfold gets at 1. rewrite Hb. cbn [require ret].
    unfold bind, readPool. rewrite Hp. reflexivity.
  - intros pool Hp s'.
    assert (Hlt : (N.to_nat pid < length (poolInfo s))%nat)
      by (apply lookup_lt_is_Some; eauto).
    assert (poolInfo s' !! N.to_nat pid = Some (set_isEmergencyWithdrawEnabled b pool))
      as Hp' by (unfold s'; cbn; apply list_lookup_insert_eq; exact Hlt).
    split; [|split; [|split]].
    + unfold toggleEmergencyWithdraw, onlyOwner.
      unfold bind at 1. unfold bind at 1. unfold gets at 1. rewrite Hb. cbn [require ret].
      unfold bind, readPool. rewrite Hp. reflexivity.
    + exact Hp'.
    + intros i Hi. unfold s'. cbn. apply list_lookup_insert_ne. congruence.
    + intros -> env'. rewrite emergencyWithdraw_checks, Hp'.
      cbn [isEmergencyWithdrawEnabled set_isEmergencyWithdrawEnabled].
      destruct (0 <? amount (getPosition s' pid (msg_sender env'))); reflexivity.
Qed.

(** ** The pause switch *)

(** X19: [pause], called by the owner while the contract is not paused,
    sets the flag and logs [Paused]; [unpause] by the owner then clears it
    and logs [Unpaused], and the state is the one before but for the two
    events.  Pausing what is paused and unpausing what is not are refused.
    The flag is set and cleared by the inherited [Pausable]. *)
Theorem pause_unpause_roundtrip env s :
  owner s = msg_sender env ->
  paused s = false ->
  let s1 := set_events (events s ++ [Paused (msg_sender env)]) (set_paused true s) in
  pause env s = Ok (tt, s1) /\
  unpause env s1
    = Ok (tt, set_events (events s ++ [Paused (msg_sender env); Unpaused (msg_sender env)]) s) /\
  pause env s1 = Revert (RequireFailed "Pausable: paused") /\
  unpause env s = Revert (RequireFailed "Pausable: not paused").
Proof.
  intros Hown Hp s1.
  assert ((owner s =? msg_sender env) = true) as Hb by (apply N.eqb_eq; exact Hown).
  assert (forall s0, owner s0 = owner s -> onlyOwner env s0 = Ok (tt, s0)) as Hokown.
  { intros s0 E. unfold onlyOwner.
    rewrite (bind_eq _ _ s0 (owner s0) s0) by reflexivity.
    rewrite E, Hb. reflexivity. }
  split; [|split; [|split]].
  - unfold pause. rewrite (bind_eq _ _ s tt s) by (apply Hokown; reflexivity).
    unfold whenNotPaused.
    rewrite (bind_eq _ _ s tt s)
      by (rewrite (bind_eq _ _ s (paused s) s) by reflexivity; rewrite Hp; reflexivity).
    reflexivity.
  - unfold unpause. rewrite (bind_eq _ _ s1 tt s1) by (apply Hokown; reflexivity).
    unfold whenPaused.
    rewrite (bind_eq _ _ s1 tt s1) by reflexivity.
    unfold emit, bind, modify, s1.
    cbn [events set_events set_paused poolInfo userPositions authorizedRebalancers
         rewardPerBlock totalAllocPoint emergencyWithdrawFee owner paused balances].
    rewrite <- app_assoc. cbn [app].
    rewrite <- Hp. destruct s; reflexivity.
  - unfold pause. rewrite (bind_eq _ _ s1 tt s1) by (apply Hokown; reflexivity).
    reflexivity.
  - unfold unpause. rewrite (bind_eq _ _ s tt s) by (apply Hokown; reflexivity).
    unfold whenPaused.
    unfold bind at 1. unfold bind at 1. unfold gets at 1. rewrite Hp. reflexivity.
Qed.

(** ** Harvesting *)



(** ** The further theorems at work on the sample runs *)

Lemma settled_position_previews_zero_witness :
  pendingReward (at_block bob 110 1100) 0 alice
    (exec (at_block alice 110 1100) (CWithdraw 0 400) staked)
  = Ok (0, exec (at_block alice 110 1100) (CWithdraw 0 400) staked).
Proof.
  apply (settled_position_previews_zero (at_block alice 110 1100) (at_block bob 110 1100)
           0 400 staked tt).
  - right. vm_compute. reflexivity.
  - vm_compute. discriminate.
Defined.

Lemma pools_are_permanent_witness :
  poolInfo staked !! 1%nat = Some (mkPoolInfo stakeToken prizeToken 60 100 0 0 0 false) /\
  exists p',
    poolInfo (run [(at_block deployer0 120 1200, CAddPool prizeToken stakeToken 7 0);
                   (at_block alice 130 1300, CWithdraw 0 1000);
                   (at_block bob 140 1400, CMassUpdatePools)] staked) !! 1%nat = Some p' /\
    stakingToken p' = stakeToken /\ rewardToken p' = prizeToken /\
    allocPoint p' = 60 /\ minLockPeriod p' = 0 /\ 100 <= lastRewardBlock p'.
Proof.
  split; [vm_compute; reflexivity|].
  apply (pools_are_permanent
           [(at_block deployer0 120 1200, CAddPool prizeToken stakeToken 7 0);
            (at_block alice 130 1300, CWithdraw 0 1000);
            (at_block bob 140 1400, CMassUpdatePools)] staked 1%nat
           (mkPoolInfo stakeToken prizeToken 60 100 0 0 0 false)).
  vm_compute. reflexivity.
Defined.

Lemma totalAllocPoint_is_sum_of_weights_witness :
  totalAllocPoint staked = 110 /\ allocSum (poolInfo staked) = 110.
Proof.
  pose proof (totalAllocPoint_is_sum_of_weights staked staked_reachable) as H.
  split; [vm_compute; reflexivity|]. rewrite <- H. vm_compute. reflexivity.
Defined.

Lemma emergency_fee_is_bounded_witness :
  emergencyWithdrawFee staked = 500 /\
  1000 * emergencyWithdrawFee staked / 10000 <= 1000 / 10.
Proof.
  split; [vm_compute; reflexivity|].
  apply (emergency_fee_is_bounded staked staked_reachable).
Defined.

Lemma position_active_iff_staked_witness :
  (isActive (getUserPosition staked 0 alice) = true
   <-> 0 < amount (getUserPosition staked 0 alice)) /\
  amount (getUserPosition staked 0 alice) = 1000 /\
  getUserPosition staked 0 bob = zeroPosition.
Proof.
  split; [apply (position_active_iff_staked staked 0 alice staked_reachable)|].
  split; [vm_compute; reflexivity|].
  apply (position_active_iff_staked staked 0 bob staked_reachable).
  vm_compute. reflexivity.
Defined.

Lemma accrued_staked_reachable : reachable accrued_staked.
Proof.
  exists deployer0, (staking_history ++ [(at_block bob 110 1100, CUpdatePool 0)])%list.
  vm_compute. reflexivity.
Defined.

Lemma reward_debt_is_covered_witness :
  pendingOf (getUserPosition accrued_staked 0 alice)
    (mkPoolInfo stakeToken prizeToken 50 110 4545454545454545454000000000 1000 60 true)
  = Ok 4545454545454545454.
Proof.
  destruct (reward_debt_is_covered accrued_staked 0 alice
              (mkPoolInfo stakeToken prizeToken 50 110 4545454545454545454000000000
                 1000 60 true) accrued_staked_reachable)
    as (_ & Hpend & _); [vm_compute; reflexivity|].
  etransitivity; [apply Hpend; vm_compute; discriminate | vm_compute; reflexivity].
Defined.

Lemma pending_reward_rounding_witness :
  exists v,
    pendingOf (mkPosition 7 0 (7 * 500000000000 / PRECISION) 0 true)
      (mkPoolInfo stakeToken prizeToken 50 110 1200000000000 7 0 false) = Ok v /\
    7 * (1200000000000 - 500000000000) / PRECISION <= v /\
    v <= 7 * (1200000000000 - 500000000000) / PRECISION + 1.
Proof.
  apply (pending_reward_rounding (mkPosition 7 0 (7 * 500000000000 / PRECISION) 0 true)
           (mkPoolInfo stakeToken prizeToken 50 110 1200000000000 7 0 false) 500000000000).
  - reflexivity.
  - vm_compute. discriminate.
  - vm_compute. discriminate.
Defined.




Lemma only_owner_changes_policy_witness :
  dispatch (at_block alice 110 1100) (CSetEmergencyWithdrawFee 0) staked
    = Revert (RequireFailed "Ownable: caller is not the owner") /\
  policy_same staked (exec (at_block alice 110 1100) (CWithdraw 0 400) staked).
Proof.
  assert (msg_sender (at_block alice 110 1100) <> owner staked) as Hne
    by (vm_compute; discriminate).
  destruct (only_owner_changes_policy (at_block alice 110 1100)
              (CSetEmergencyWithdrawFee 0) staked Hne) as (Hrev & _ & _).
  destruct (only_owner_changes_policy (at_block alice 110 1100)
              (CWithdraw 0 400) staked Hne) as (_ & Hpol & _).
  split; [apply Hrev; reflexivity | exact Hpol].
Defined.

Lemma deposit_refusals_witness :
  deposit (at_block alice 110 1100) 0 0 staked
    = Revert (RequireFailed "Amount must be greater than 0") /\
  deposit (at_block alice 110 1100) 2 5 staked
    = Revert (RequireFailed "Invalid pool ID").
Proof.
  destruct (deposit_refusals (at_block alice 110 1100) 0 staked) as (_ & _ & Hzero & _).
  destruct (deposit_refusals (at_block alice 110 1100) 2 staked) as (_ & _ & _ & Hpid).
  split.
  - apply Hzero; vm_compute; reflexivity.
  - apply Hpid; [vm_compute; reflexivity | vm_compute; discriminate].
Defined.

Lemma withdraw_refusals_witness :
  withdraw (at_block alice 110 1059) 0 0 staked
    = Revert (RequireFailed "Position still locked") /\
  withdraw (at_block alice 110 1100) 0 1001 staked
    = Revert (RequireFailed "Insufficient balance") /\
  withdraw (at_block alice 110 1100) 2 1 staked
    = Revert (RequireFailed "Invalid pool ID").
Proof.
  destruct (withdraw_refusals (at_block alice 110 1059) 0 0 staked) as (_ & _ & Hlock & _).
  destruct (withdraw_refusals (at_block alice 110 1100) 0 1001 staked) as (_ & Hamt & _).
  destruct (withdraw_refusals (at_block alice 110 1100) 2 1 staked) as (Hpid & _).
  split; [|split].
  - apply Hlock; vm_compute; try reflexivity; discriminate.
  - apply Hamt; vm_compute; reflexivity.
  - apply Hpid. vm_compute. discriminate.
Defined.

Lemma emergencyWithdraw_refusals_witness :
  emergencyWithdraw (at_block bob 110 1100) 0 staked
    = Revert (RequireFailed "No position to withdraw") /\
  emergencyWithdraw (at_block alice 111 1101) 0
    (exec (at_block alice 110 1100) (CEmergencyWithdraw 0) staked)
    = Revert (RequireFailed "No position to withdraw") /\
  withdraw (at_block alice 111 1101) 0 1
    (exec (at_block alice 110 1100) (CEmergencyWithdraw 0) staked)
    = Revert (RequireFailed "Insufficient balance").
Proof.
  destruct (emergencyWithdraw_refusals (at_block bob 110 1100) 0 staked)
    as (_ & Hnone & _ & _).
  destruct (emergencyWithdraw_refusals (at_block alice 110 1100) 0 staked)
    as (_ & _ & _ & Hafter).
  destruct (Hafter tt (exec (at_block alice 110 1100) (CEmergencyWithdraw 0) staked)
              ltac:(vm_compute; reflexivity) (at_block alice 111 1101) eq_refl)
    as (Hagain & Hw & _).
  split; [apply Hnone; vm_compute; reflexivity|].
  split; [exact Hagain | apply Hw; reflexivity].
Defined.

Lemma withdraw_succeeds_after_lock_witness :
  exists s',
    withdraw (at_block alice 110 1100) 0 400 staked = Ok (tt, s') /\
    amount (getUserPosition s' 0 alice) = 600 /\
    balanceOf s' stakeToken alice = 4400.
Proof.
  destruct (withdraw_succeeds_after_lock (at_block alice 110 1100) 0 400 staked
              accrued_staked
              (mkPoolInfo stakeToken prizeToken 50 110 4545454545454545454000000000
                 1000 60 true))
    as (s' & Hw & Ham & _ & _ & _ & Hbal).
  - exact staked_reachable.
  - vm_compute. reflexivity.
  - vm_compute. reflexivity.
  - vm_compute. discriminate.
  - vm_compute. discriminate.
  - vm_compute. discriminate.
  - discriminate.
  - vm_compute. discriminate.
  - exists s'. split; [exact Hw|].
    split; [etransitivity; [exact Ham | vm_compute; reflexivity]|].
    etransitivity; [apply Hbal; discriminate | vm_compute; reflexivity].
Defined.

Lemma setAuthorizedRebalancer_sets_one_flag_witness :
  isAuthorized staked bob = false /\
  isAuthorized
    (exec (at_block deployer0 110 1100) (CSetAuthorizedRebalancer bob true) staked) bob
  = true /\
  rebalancePosition (at_block deployer0 111 1101) 0 alice 5
    (exec (at_block deployer0 110 1100) (CSetAuthorizedRebalancer deployer0 false) staked)
  = Revert (RequireFailed "Not authorized").
Proof.
  destruct (setAuthorizedRebalancer_sets_one_flag (at_block deployer0 110 1100) bob true
              staked tt
              (exec (at_block deployer0 110 1100) (CSetAuthorizedRebalancer bob true) staked))
    as (_ & _ & Hflag & _); [vm_compute; reflexivity|].
  destruct (setAuthorizedRebalancer_sets_one_flag (at_block deployer0 110 1100) deployer0
              false staked tt
              (exec (at_block deployer0 110 1100)
                 (CSetAuthorizedRebalancer deployer0 false) staked))
    as (_ & _ & _ & Hoff & _); [vm_compute; reflexivity|].
  split; [vm_compute; reflexivity|].
  split; [rewrite Hflag; vm_compute; reflexivity|].
  apply Hoff; reflexivity.
Defined.

Lemma toggleEmergencyWithdraw_sets_flag_witness :
  toggleEmergencyWithdraw (at_block deployer0 110 1100) 2 true staked = Revert PanicIndex /\
  is_ok (emergencyWithdraw (at_block alice 111 1101) 0
           (exec (at_block deployer0 110 1100) (CToggleEmergencyWithdraw 0 false) staked))
  = false.
Proof.
  destruct (toggleEmergencyWithdraw_sets_flag (at_block deployer0 110 1100) 2 true staked)
    as (Hpanic & _); [vm_compute; reflexivity|].
  destruct (toggleEmergencyWithdraw_sets_flag (at_block deployer0 110 1100) 0 false staked)
    as (_ & Hset); [vm_compute; reflexivity|].
  destruct (Hset (mkPoolInfo stakeToken prizeToken 50 100 0 1000 60 true)
              ltac:(vm_compute; reflexivity)) as (Hrun & _ & _ & Hoff).
  split; [apply Hpanic; vm_compute; reflexivity|].
  unfold exec. cbn [dispatch]. rewrite Hrun. apply Hoff. reflexivity.
Defined.

Lemma pause_unpause_roundtrip_witness :
  paused staked = false /\
  exists s1,
    pause (at_block deployer0 110 1100) staked = Ok (tt, s1) /\
    unpause (at_block deployer0 110 1100) s1
    = Ok (tt, set_events (events staked ++ [Paused deployer0; Unpaused deployer0]) staked).
Proof.
  split; [vm_compute; reflexivity|].
  destruct (pause_unpause_roundtrip (at_block deployer0 110 1100) staked)
    as (Hp & Hu & _); [vm_compute; reflexivity | vm_compute; reflexivity |].
  eexists. split; [exact Hp | exact Hu].
Defined.

